(** * Blog-Ai: share-link codec, article session and history cache

    A shallow embedding of the client-side article pipeline of the
    repository (App.tsx, components/ArticleView.tsx,
    services/geminiService.ts) together with the browser primitives the
    code calls ([JSON.stringify], [JSON.parse], [encodeURIComponent],
    [decodeURIComponent], [btoa], [atob]).

    JavaScript strings are sequences of UTF-16 code units and are kept as
    such ([jsstring]); values that come out of [JSON.parse] are kept
    untyped ([json]), because the TypeScript annotations of the source are
    erased casts.  Exceptions are explicit ([Exc]). *)

From Stdlib Require Import String Ascii.
From Stdlib Require Import List NArith ZArith Bool Lia.
From Stdlib Require Import DecimalFacts DecimalPos DecimalN.
From Stdlib Require Import QArith Qround Permutation.
Import ListNotations.

Local Open Scope N_scope.

(** ** JavaScript strings and exceptions *)

Module JS.

(** A string is its sequence of UTF-16 code units. *)
Definition jsstring := list N.

Definition code_unit (c : N) : Prop := c < 65536.

Definition wf_string (s : jsstring) : Prop := Forall code_unit s.

(** [s.length] *)
Definition strlen (s : jsstring) : N := N.of_nat (length s).

Fixpoint string_eqb (a b : jsstring) : bool :=
  match a, b with
  | [], [] => true
  | x :: a', y :: b' => (x =? y) && string_eqb a' b'
  | _, _ => false
  end.

(** The exceptions the modelled code can raise. *)
Inductive error : Type :=
| URIError
| InvalidCharacterError
| SyntaxError
| TypeError
| ServiceError (msg : jsstring)
| Error (msg : jsstring).

(** A computation that returns or throws. *)
Inductive Exc (A : Type) : Type :=
| Throw (e : error)
| Ok (a : A).

Arguments Throw {A} e.
Arguments Ok {A} a.

Definition bind {A B : Type} (m : Exc A) (k : A -> Exc B) : Exc B :=
  match m with
  | Throw e => Throw e
  | Ok a => k a
  end.

Definition fmap {A B : Type} (f : A -> B) (m : Exc A) : Exc B :=
  bind m (fun a => Ok (f a)).

(** [try { body } catch (e) { handler(e) }] *)
Definition try_catch {A : Type} (body : Exc A) (handler : error -> Exc A) : Exc A :=
  match body with
  | Throw e => handler e
  | Ok a => Ok a
  end.

Definition succeeds {A : Type} (m : Exc A) : bool :=
  match m with Ok _ => true | Throw _ => false end.

Definition is_digit (c : N) : bool := (48 <=? c) && (c <=? 57).
Definition is_upper (c : N) : bool := (65 <=? c) && (c <=? 90).
Definition is_lower (c : N) : bool := (97 <=? c) && (c <=? 122).

(** Value of a hexadecimal digit, either case. *)
Definition hex_value (c : N) : option N :=
  if is_digit c then Some (c - 48)
  else if (65 <=? c) && (c <=? 70) then Some (c - 55)
  else if (97 <=? c) && (c <=? 102) then Some (c - 87)
  else None.

(** Value of a digit of the class [[0-9A-F]]. *)
Definition upper_hex_value (c : N) : option N :=
  if is_digit c then Some (c - 48)
  else if (65 <=? c) && (c <=? 70) then Some (c - 55)
  else None.

Definition hex_digit_upper (d : N) : N := if d <? 10 then 48 + d else 55 + d.
Definition hex_digit_lower (d : N) : N := if d <? 10 then 48 + d else 87 + d.

Definition is_high_surrogate (c : N) : bool := (0xD800 <=? c) && (c <=? 0xDBFF).
Definition is_low_surrogate (c : N) : bool := (0xDC00 <=? c) && (c <=? 0xDFFF).
Definition is_surrogate (c : N) : bool := (0xD800 <=? c) && (c <=? 0xDFFF).

(** [s.slice(-n)]: the last [n] code units, the whole string when it is
    shorter. *)
Definition slice_last (n : nat) (s : jsstring) : jsstring :=
  skipn (length s - n) s.

(** [s.startsWith(p)] returning what follows the prefix. *)
Fixpoint strip_prefix (p s : jsstring) : option jsstring :=
  match p, s with
  | [], _ => Some s
  | x :: p', y :: s' => if x =? y then strip_prefix p' s' else None
  | _ :: _, [] => None
  end.

Definition startsWith (s p : jsstring) : bool :=
  match strip_prefix p s with Some _ => true | None => false end.

End JS.

Export JS.

Declare Scope exc_scope.
Delimit Scope exc_scope with exc.
Notation "x <- m ;; k" := (bind m (fun x => k))
  (at level 61, m at next level, right associativity) : exc_scope.

(** ** URI component coding *)

Module URI.

(** Characters [encodeURIComponent] leaves alone: letters, digits and
    [- _ . ! ~ * ' ( )]. *)
Definition is_unreserved (c : N) : bool :=
  is_upper c || is_lower c || is_digit c ||
  existsb (N.eqb c) [45; 95; 46; 33; 126; 42; 39; 40; 41].

Definition code_point_of_pair (hi lo : N) : N :=
  0x10000 + (hi - 0xD800) * 0x400 + (lo - 0xDC00).

(** UTF-8 octets of a code point below 0x110000. *)
Definition utf8_octets (cp : N) : list N :=
  if cp <? 0x80 then [cp]
  else if cp <? 0x800 then [0xC0 + cp / 64; 0x80 + cp mod 64]
  else if cp <? 0x10000 then
    [0xE0 + cp / 4096; 0x80 + (cp / 64) mod 64; 0x80 + cp mod 64]
  else
    [0xF0 + cp / 262144; 0x80 + (cp / 4096) mod 64;
     0x80 + (cp / 64) mod 64; 0x80 + cp mod 64].

(** ["%XX"], upper-case digits. *)
Definition percent_escape (b : N) : jsstring :=
  [37; hex_digit_upper (b / 16); hex_digit_upper (b mod 16)].

(** [encodeURIComponent(s)]: unreserved code units are copied; any other
    code point is written as the percent escapes of its UTF-8 octets; an
    unpaired surrogate raises [URIError]. *)
Fixpoint encodeURIComponent (s : jsstring) : Exc jsstring :=
  match s with
  | [] => Ok []
  | c :: r =>
    if is_unreserved c then fmap (cons c) (encodeURIComponent r)
    else if is_low_surrogate c then Throw URIError
    else if is_high_surrogate c then
      match r with
      | d :: r' =>
        if is_low_surrogate d then
          fmap (app (flat_map percent_escape (utf8_octets (code_point_of_pair c d))))
               (encodeURIComponent r')
        else Throw URIError
      | [] => Throw URIError
      end
    else fmap (app (flat_map percent_escape (utf8_octets c))) (encodeURIComponent r)
  end.

(** [s.replace(/%([0-9A-F]{2})/g, (match, p1) => String.fromCharCode(parseInt(p1, 16)))]:
    every percent sign followed by two upper-case hexadecimal digits
    becomes the code unit the digits denote. *)
Fixpoint replace_percent_escapes (s : jsstring) : jsstring :=
  match s with
  | [] => []
  | c :: r =>
    match r with
    | h :: l :: r2 =>
      match upper_hex_value h, upper_hex_value l with
      | Some a, Some b =>
        if c =? 37 then (16 * a + b) :: replace_percent_escapes r2
        else c :: replace_percent_escapes r
      | _, _ => c :: replace_percent_escapes r
      end
    | _ => c :: replace_percent_escapes r
    end
  end.

(** What [decodeURIComponent] reads: a plain code unit or the octet of a
    percent escape. *)
Inductive uri_item : Type :=
| Lit (c : N)
| Oct (b : N).

(** A [%] must be followed by two hexadecimal digits. *)
Fixpoint uri_items (s : jsstring) : Exc (list uri_item) :=
  match s with
  | [] => Ok []
  | c :: r =>
    if c =? 37 then
      match r with
      | h :: l :: r2 =>
        match hex_value h, hex_value l with
        | Some a, Some b => fmap (cons (Oct (16 * a + b))) (uri_items r2)
        | _, _ => Throw URIError
        end
      | _ => Throw URIError
      end
    else fmap (cons (Lit c)) (uri_items r)
  end.

Definition is_continuation (b : N) : bool := (0x80 <=? b) && (b <=? 0xBF).

(** UTF-16 code units of a code point. *)
Definition utf16_units (cp : N) : jsstring :=
  if cp <? 0x10000 then [cp]
  else [0xD800 + (cp - 0x10000) / 0x400; 0xDC00 + (cp - 0x10000) mod 0x400].

(** Octets are decoded as UTF-8; overlong forms, surrogates, code points
    above 0x10FFFF and broken sequences raise [URIError]. *)
Fixpoint decode_items (l : list uri_item) : Exc jsstring :=
  match l with
  | [] => Ok []
  | Lit c :: r => fmap (cons c) (decode_items r)
  | Oct b :: r =>
    if b <? 0x80 then fmap (cons b) (decode_items r)
    else if (0xC2 <=? b) && (b <=? 0xDF) then
      match r with
      | Oct b2 :: r2 =>
        if is_continuation b2
        then fmap (cons ((b - 0xC0) * 64 + (b2 - 0x80))) (decode_items r2)
        else Throw URIError
      | _ => Throw URIError
      end
    else if (0xE0 <=? b) && (b <=? 0xEF) then
      match r with
      | Oct b2 :: Oct b3 :: r3 =>
        let cp := (b - 0xE0) * 4096 + (b2 - 0x80) * 64 + (b3 - 0x80) in
        if is_continuation b2 && is_continuation b3
           && (0x800 <=? cp) && negb (is_surrogate cp)
        then fmap (cons cp) (decode_items r3)
        else Throw URIError
      | _ => Throw URIError
      end
    else if (0xF0 <=? b) && (b <=? 0xF4) then
      match r with
      | Oct b2 :: Oct b3 :: Oct b4 :: r4 =>
        let cp := (b - 0xF0) * 262144 + (b2 - 0x80) * 4096
                  + (b3 - 0x80) * 64 + (b4 - 0x80) in
        if is_continuation b2 && is_continuation b3 && is_continuation b4
           && (0x10000 <=? cp) && (cp <=? 0x10FFFF)
        then fmap (app (utf16_units cp)) (decode_items r4)
        else Throw URIError
      | _ => Throw URIError
      end
    else Throw URIError
  end.

(** [decodeURIComponent(s)] *)
Definition decodeURIComponent (s : jsstring) : Exc jsstring :=
  bind (uri_items s) decode_items.

End URI.

(** A source literal: the UTF-8 text of a Rocq string as a JavaScript
    string. *)
Definition js (s : string) : jsstring :=
  match URI.decode_items
          (map (fun a => URI.Oct (N_of_ascii a)) (list_ascii_of_string s)) with
  | Ok l => l
  | Throw _ => []
  end.

(** ** Base64 *)

Module Base64.

Definition b64_char (v : N) : N :=
  if v <? 26 then 65 + v
  else if v <? 52 then 71 + v
  else if v <? 62 then v - 4
  else if v =? 62 then 43
  else 47.

Definition b64_value (c : N) : option N :=
  if is_upper c then Some (c - 65)
  else if is_lower c then Some (c - 71)
  else if is_digit c then Some (c + 4)
  else if c =? 43 then Some 62
  else if c =? 47 then Some 63
  else None.

Fixpoint encode_octets (l : list N) : jsstring :=
  match l with
  | [] => []
  | [a] => [b64_char (a / 4); b64_char ((a mod 4) * 16); 61; 61]
  | [a; b] =>
    [b64_char (a / 4); b64_char ((a mod 4) * 16 + b / 16);
     b64_char ((b mod 16) * 4); 61]
  | a :: b :: c :: r =>
    b64_char (a / 4) :: b64_char ((a mod 4) * 16 + b / 16)
    :: b64_char ((b mod 16) * 4 + c / 64) :: b64_char (c mod 64)
    :: encode_octets r
  end.

(** [btoa(s)]: a code unit above 255 raises [InvalidCharacterError]. *)
Definition btoa (s : jsstring) : Exc jsstring :=
  if forallb (fun c => c <=? 255) s then Ok (encode_octets s)
  else Throw InvalidCharacterError.

Definition is_ascii_whitespace (c : N) : bool :=
  existsb (N.eqb c) [9; 10; 12; 13; 32].

(** When the length is a multiple of four, one or two trailing [=] are
    dropped. *)
Definition strip_padding (s : jsstring) : jsstring :=
  if (length s mod 4 =? 0)%nat then
    match rev s with
    | c1 :: r1 =>
      if c1 =? 61 then
        match r1 with
        | c2 :: r2 => if c2 =? 61 then rev r2 else rev r1
        | [] => rev r1
        end
      else s
    | [] => s
    end
  else s.

Fixpoint traverse_values (s : jsstring) : option (list N) :=
  match s with
  | [] => Some []
  | c :: r =>
    match b64_value c, traverse_values r with
    | Some v, Some vs => Some (v :: vs)
    | _, _ => None
    end
  end.

(** Sextets to octets; a final group of two or three sextets gives one or
    two octets, the spare bits being dropped. *)
Fixpoint decode_values (l : list N) : list N :=
  match l with
  | a :: b :: c :: d :: r =>
    (a * 4 + b / 16) :: ((b mod 16) * 16 + c / 4) :: ((c mod 4) * 64 + d)
    :: decode_values r
  | [a; b; c] => [a * 4 + b / 16; (b mod 16) * 16 + c / 4]
  | [a; b] => [a * 4 + b / 16]
  | _ => []
  end.

(** [atob(s)], the forgiving base64 decoder of the HTML standard. *)
Definition atob (s : jsstring) : Exc jsstring :=
  let data := strip_padding (filter (fun c => negb (is_ascii_whitespace c)) s) in
  if (length data mod 4 =? 1)%nat then Throw InvalidCharacterError
  else match traverse_values data with
       | Some vs => Ok (decode_values vs)
       | None => Throw InvalidCharacterError
       end.

End Base64.

(** ** Numbers *)

Module Number.

Local Open Scope Z_scope.

(** A Number value other than NaN, which [JSON.parse] never returns and
    none of the modelled code computes.  [Finite s m e] is the number
    [m * 2^e], negative when [s] holds.  A binary64 value has one such
    form: zero has [m = 0] and [e = 0]; a normal number has
    [2^52 <= m < 2^53] and [-1074 <= e <= 971]; a subnormal one has
    [0 < m < 2^52] and [e = -1074]. *)
Inductive number : Type :=
| Finite (negative : bool) (m e : Z)
| Infinite (negative : bool).

Definition is_binary64 (x : number) : bool :=
  match x with
  | Finite _ m e =>
    ((m =? 0) && (e =? 0))
    || ((2 ^ 52 <=? m) && (m <? 2 ^ 53) && (-1074 <=? e) && (e <=? 971))
    || ((0 <? m) && (m <? 2 ^ 52) && (e =? -1074))
  | Infinite _ => true
  end.

Definition is_zero (x : number) : bool :=
  match x with
  | Finite _ m _ => m =? 0
  | Infinite _ => false
  end.

(** The same Number value, [+0] and [-0] told apart. *)
Definition same (x y : number) : bool :=
  match x, y with
  | Finite s m e, Finite s' m' e' => Bool.eqb s s' && (m =? m') && (e =? e')
  | Infinite s, Infinite s' => Bool.eqb s s'
  | _, _ => false
  end.

(** [x === y] on binary64 values: [+0] and [-0] are equal. *)
Definition equal (x y : number) : bool :=
  (is_zero x && is_zero y) || same x y.

(** [2^k] and [10^k] for [k >= 0], and 1 below. *)
Definition pow2 (k : Z) : Z := 2 ^ Z.max 0 k.
Definition pow10 (k : Z) : Z := 10 ^ Z.max 0 k.

(** For positive [a] and [b], the integer [l] with
    [2^l <= a / b < 2^(l + 1)]. *)
Definition floor_log2 (a b : Z) : Z :=
  let d := Z.log2 a - Z.log2 b in
  if b * pow2 d <=? a * pow2 (- d) then d else d - 1.

(** The integer nearest to [n / d]; of two equally near, the even one. *)
Definition nearest_even (n d : Z) : Z :=
  let q := n / d in
  let r := n mod d in
  if 2 * r <? d then q
  else if d <? 2 * r then q + 1
  else if Z.even q then q else q + 1.

(** The Number value of the fraction [a / b], for [a >= 0] and [b > 0]:
    the binary64 value nearest to it, the one with an even significand
    of two equally near, an infinity from [2^1024 - 2^970] on. *)
Definition round_binary64 (negative : bool) (a b : Z) : number :=
  if a =? 0 then Finite negative 0 0
  else
    let u := Z.max (floor_log2 a b - 52) (-1074) in
    let m := nearest_even (a * pow2 (- u)) (b * pow2 u) in
    let (m', u') := if m =? 2 ^ 53 then (2 ^ 52, u + 1) else (m, u) in
    if 971 <? u' then Infinite negative
    else if m' =? 0 then Finite negative 0 0
    else Finite negative m' u'.

(** The Number value of the decimal [s * 10^E], [s >= 0]. *)
Definition of_decimal (negative : bool) (s E : Z) : number :=
  round_binary64 negative (s * pow10 E) (pow10 (- E)).

(** The Number value of a length or an index. *)
Definition of_nat (n : nat) : number := round_binary64 false (Z.of_nat n) 1.

Definition zero : number := Finite false 0 0.

(** *** The digits of [Number::toString]

    The decimal [s * 10^(n - k)] with the fewest digits [k] whose Number
    value is the number itself; of several with [k] digits, the nearest
    to the number. *)

Definition decimal_digits (a : Z) : Z :=
  Z.of_nat (Decimal.nb_digits (N.to_uint (Z.to_N a))).

(** For positive [a] and [b], the integer [n] with
    [10^(n - 1) <= a / b < 10^n]. *)
Definition magnitude (a b : Z) : Z :=
  let d := decimal_digits a - decimal_digits b in
  if a * pow10 (- d) <? b * pow10 d then d else d + 1.

(** [s * 10^E] without the final zeros of [s]. *)
Fixpoint strip_zeros (fuel : nat) (s E : Z) : Z * Z :=
  match fuel with
  | O => (s, E)
  | S f => if s mod 10 =? 0 then strip_zeros f (s / 10) (E + 1) else (s, E)
  end.

(** The decimal [s * 10^E], stripped, when its Number value is [x]. *)
Definition reads_as (x : number) (s E : Z) : option (Z * Z) :=
  let (s', E') := strip_zeros (Z.to_nat (Z.log2 s)) s E in
  if (0 <? s') && same (of_decimal false s' E') x then Some (s', E') else None.

(** Of the two multiples of [10^E] next to [a / b], the nearer one that
    reads as [x], the even one first when they are equally near. *)
Definition candidate (x : number) (a b E : Z) : option (Z * Z) :=
  let num := a * pow10 (- E) in
  let den := b * pow10 E in
  let lo := num / den in
  let r := num mod den in
  let lo_first := (2 * r <? den) || ((2 * r =? den) && Z.even lo) in
  match reads_as x (if lo_first then lo else lo + 1) E with
  | Some d => Some d
  | None => reads_as x (if lo_first then lo + 1 else lo) E
  end.

(** The search, from one digit on: one more digit at each step. *)
Fixpoint shortest (fuel : nat) (x : number) (a b E : Z) : option (Z * Z) :=
  match fuel with
  | O => None
  | S f =>
    match candidate x a b E with
    | Some d => Some d
    | None => shortest f x a b (E - 1)
    end
  end.

(** The digits of the positive number [m * 2^e], as [(s, E)] for
    [s * 10^E].  The search ends at the latest where [10^E] divides the
    number, which [s] then writes in full. *)
Definition shortest_decimal (m e : Z) : option (Z * Z) :=
  let a := m * pow2 e in
  let b := pow2 (- e) in
  let n := magnitude a b in
  let last := Z.min (n - 1) (Z.min e 0) in
  shortest (Z.to_nat (n - last)) (Finite false m e) a b (n - 1).

(** [Math.floor(x)] of a finite number, as an integer. *)
Definition floor (x : number) : Z :=
  match x with
  | Finite false m e => (m * pow2 e) / pow2 (- e)
  | Finite true m e => - ((m * pow2 e + pow2 (- e) - 1) / pow2 (- e))
  | Infinite _ => 0
  end.

End Number.

(** ** JSON values, [JSON.stringify] and [JSON.parse] *)

Module JSON.

Import Number.

(** A value produced by [JSON.parse].  A number is a Number value, as
    [JSON.parse] rounds the literal to it.  An object is the list of its
    own properties in the order in which the engine lists them. *)
#[local] Unset Elimination Schemes.
Inductive json : Type :=
| JNull
| JBool (b : bool)
| JNum (x : number)
| JStr (s : jsstring)
| JArr (l : list json)
| JObj (ms : list (jsstring * json)).
#[local] Set Elimination Schemes.

(** *** Numbers as text *)

Fixpoint uint_chars (u : Decimal.uint) : jsstring :=
  match u with
  | Decimal.Nil => []
  | Decimal.D0 u => 48 :: uint_chars u
  | Decimal.D1 u => 49 :: uint_chars u
  | Decimal.D2 u => 50 :: uint_chars u
  | Decimal.D3 u => 51 :: uint_chars u
  | Decimal.D4 u => 52 :: uint_chars u
  | Decimal.D5 u => 53 :: uint_chars u
  | Decimal.D6 u => 54 :: uint_chars u
  | Decimal.D7 u => 55 :: uint_chars u
  | Decimal.D8 u => 56 :: uint_chars u
  | Decimal.D9 u => 57 :: uint_chars u
  end.

Definition digit_cons (c : N) (u : Decimal.uint) : Decimal.uint :=
  if c =? 48 then Decimal.D0 u
  else if c =? 49 then Decimal.D1 u
  else if c =? 50 then Decimal.D2 u
  else if c =? 51 then Decimal.D3 u
  else if c =? 52 then Decimal.D4 u
  else if c =? 53 then Decimal.D5 u
  else if c =? 54 then Decimal.D6 u
  else if c =? 55 then Decimal.D7 u
  else if c =? 56 then Decimal.D8 u
  else Decimal.D9 u.

Definition uint_of_chars (s : jsstring) : Decimal.uint :=
  fold_right digit_cons Decimal.Nil s.

(** Decimal digits of a natural number, no leading zero. *)
Definition N_chars (n : N) : jsstring := uint_chars (N.to_uint n).

Definition N_of_chars (s : jsstring) : N := N.of_uint (uint_of_chars s).

(** *** The properties of an object

    An array index is the canonical text of an integer from 0 to
    [2^32 - 2].  The own properties of an object are listed with the
    array indices first, in ascending order, and the other keys after
    them in the order of their creation. *)
Definition array_index (k : jsstring) : option N :=
  match k with
  | [] => None
  | c :: r =>
    if forallb is_digit k && (negb (c =? 48) || match r with [] => true | _ => false end)
    then if N_of_chars k <? 4294967295 then Some (N_of_chars k) else None
    else None
  end.

(** A new key [k] is listed before the key [k']. *)
Definition listed_before (k k' : jsstring) : bool :=
  match array_index k, array_index k' with
  | Some n, Some n' => n <? n'
  | Some _, None => true
  | None, _ => false
  end.

(** Defining a property: an existing key keeps its place and takes the new
    value, a new key goes to its place in the list. *)
Fixpoint obj_set (k : jsstring) (v : json) (ms : list (jsstring * json))
  : list (jsstring * json) :=
  match ms with
  | [] => [(k, v)]
  | (k', v') :: r =>
    if string_eqb k' k then (k, v) :: r
    else if listed_before k k' then (k, v) :: ms
    else (k', v') :: obj_set k v r
  end.

Fixpoint obj_get (k : jsstring) (ms : list (jsstring * json)) : option json :=
  match ms with
  | [] => None
  | (k', v) :: r => if string_eqb k' k then Some v else obj_get k r
  end.

(** The object of the members of a JSON text: each member defines its
    property, a repeated key taking its last value. *)
Definition obj_of_members (ms : list (jsstring * json)) : list (jsstring * json) :=
  fold_left (fun acc kv => obj_set (fst kv) (snd kv) acc) ms [].

(** [Number::toString] *)

Definition lit_infinity : jsstring := [73; 110; 102; 105; 110; 105; 116; 121].

Definition exponent_chars (ex : Z) : jsstring :=
  (if (ex <? 0)%Z then 45 else 43) :: N_chars (Z.to_N (Z.abs ex)).

(** The digits [ds] of [s] and the place [n] of the decimal point after
    the first digit, laid out. *)
Definition layout (ds : jsstring) (n : Z) : jsstring :=
  let k := Z.of_nat (length ds) in
  if ((k <=? n) && (n <=? 21))%Z then ds ++ repeat 48 (Z.to_nat (n - k))
  else if ((0 <? n) && (n <=? 21))%Z then
    firstn (Z.to_nat n) ds ++ 46 :: skipn (Z.to_nat n) ds
  else if ((-6 <? n) && (n <=? 0))%Z then
    48 :: 46 :: repeat 48 (Z.to_nat (- n)) ++ ds
  else
    match ds with
    | [] => []
    | [d] => d :: 101 :: exponent_chars (n - 1)
    | d :: r => d :: 46 :: r ++ 101 :: exponent_chars (n - 1)
    end.

Definition number_to_string (x : number) : jsstring :=
  match x with
  | Infinite s => (if s then [45] else []) ++ lit_infinity
  | Finite s m e =>
    if (m =? 0)%Z then [48]
    else
      (if s then [45] else [])
      ++ match shortest_decimal m e with
         | Some (d, E) =>
           let ds := N_chars (Z.to_N d) in
           layout ds (E + Z.of_nat (length ds))
         | None => [48]
         end
  end.

(** A number that [JSON.stringify] writes and [JSON.parse] reads back as
    it was: a finite binary64 value other than [-0]. *)
Definition json_number (x : number) : bool :=
  is_binary64 x
  && match x with
     | Finite s m _ => negb (s && (m =? 0)%Z)
     | Infinite _ => false
     end.


(** *** Strings as text *)

Definition unicode_escape (c : N) : jsstring :=
  [92; 117; hex_digit_lower (c / 4096); hex_digit_lower ((c / 256) mod 16);
   hex_digit_lower ((c / 16) mod 16); hex_digit_lower (c mod 16)].

(** The two-character escapes of [JSON.stringify]: the letter that follows
    the backslash. *)
Definition short_escape (c : N) : option N :=
  if c =? 8 then Some 98
  else if c =? 9 then Some 116
  else if c =? 10 then Some 110
  else if c =? 12 then Some 102
  else if c =? 13 then Some 114
  else if c =? 34 then Some 34
  else if c =? 92 then Some 92
  else None.

(** [QuoteJSONString] without the surrounding quotes: control characters
    and unpaired surrogates are escaped, a surrogate pair is copied. *)
Fixpoint quote_chars (s : jsstring) : jsstring :=
  match s with
  | [] => []
  | c :: r =>
    match short_escape c with
    | Some l => 92 :: l :: quote_chars r
    | None =>
      if c <? 32 then unicode_escape c ++ quote_chars r
      else if is_high_surrogate c then
        match r with
        | d :: r' =>
          if is_low_surrogate d then c :: d :: quote_chars r'
          else unicode_escape c ++ quote_chars r
        | [] => unicode_escape c
        end
      else if is_low_surrogate c then unicode_escape c ++ quote_chars r
      else c :: quote_chars r
    end
  end.

Definition quote (s : jsstring) : jsstring := 34 :: quote_chars s ++ [34].

Fixpoint join (sep : jsstring) (l : list jsstring) : jsstring :=
  match l with
  | [] => []
  | x :: r =>
    match r with
    | [] => x
    | _ :: _ => x ++ sep ++ join sep r
    end
  end.

Definition lit_null : jsstring := [110; 117; 108; 108].
Definition lit_true : jsstring := [116; 114; 117; 101].
Definition lit_false : jsstring := [102; 97; 108; 115; 101].

(** [JSON.stringify(v)] without indentation; a number that is not finite
    is written [null]. *)
Fixpoint stringify (v : json) : jsstring :=
  match v with
  | JNull => lit_null
  | JBool b => if b then lit_true else lit_false
  | JNum x =>
    match x with
    | Finite _ _ _ => number_to_string x
    | Infinite _ => lit_null
    end
  | JStr s => quote s
  | JArr l => 91 :: join [44] (map stringify l) ++ [93]
  | JObj ms =>
    123 :: join [44] (map (fun kv => match kv with
                                     | (k, x) => quote k ++ 58 :: stringify x
                                     end) ms) ++ [125]
  end.

(** *** Parsing *)

Definition is_json_ws (c : N) : bool := existsb (N.eqb c) [9; 10; 13; 32].

Fixpoint skip_ws (s : jsstring) : jsstring :=
  match s with
  | [] => []
  | c :: r => if is_json_ws c then skip_ws r else s
  end.

(** Character denoted by a two-character escape. *)
Definition short_unescape (l : N) : option N :=
  if l =? 34 then Some 34
  else if l =? 92 then Some 92
  else if l =? 47 then Some 47
  else if l =? 98 then Some 8
  else if l =? 102 then Some 12
  else if l =? 110 then Some 10
  else if l =? 114 then Some 13
  else if l =? 116 then Some 9
  else None.

Definition option_cons {A B : Type} (a : A) (o : option (list A * B)) : option (list A * B) :=
  match o with
  | Some (l, r) => Some (a :: l, r)
  | None => None
  end.

(** The characters of a string literal after its opening quote, with what
    follows the closing quote. *)
Fixpoint parse_string_chars (s : jsstring) : option (jsstring * jsstring) :=
  match s with
  | [] => None
  | c :: r =>
    if c =? 34 then Some ([], r)
    else if c =? 92 then
      match r with
      | [] => None
      | l :: r1 =>
        if l =? 117 then
          match r1 with
          | h1 :: h2 :: h3 :: h4 :: r2 =>
            match hex_value h1, hex_value h2, hex_value h3, hex_value h4 with
            | Some a, Some b, Some c', Some d =>
              option_cons (4096 * a + 256 * b + 16 * c' + d) (parse_string_chars r2)
            | _, _, _, _ => None
            end
          | _ => None
          end
        else
          match short_unescape l with
          | Some x => option_cons x (parse_string_chars r1)
          | None => None
          end
      end
    else if c <? 32 then None
    else option_cons c (parse_string_chars r)
  end.

Fixpoint span_digits (s : jsstring) : jsstring * jsstring :=
  match s with
  | [] => ([], [])
  | c :: r =>
    if is_digit c then let (ds, r') := span_digits r in (c :: ds, r')
    else ([], s)
  end.

(** Integer part: a lone [0], or a non-zero digit and the digits after it. *)
Definition parse_int_part (s : jsstring) : option (jsstring * jsstring) :=
  match s with
  | [] => None
  | c :: r =>
    if c =? 48 then Some ([48], r)
    else if is_digit c then let (ds, r') := span_digits r in Some (c :: ds, r')
    else None
  end.

Definition parse_frac_part (s : jsstring) : option (jsstring * jsstring) :=
  match s with
  | c :: r =>
    if c =? 46 then
      match span_digits r with
      | ([], _) => None
      | (ds, r') => Some (ds, r')
      end
    else Some ([], s)
  | [] => Some ([], s)
  end.

Definition parse_exp_digits (neg : bool) (s : jsstring) : option (Z * jsstring) :=
  match span_digits s with
  | ([], _) => None
  | (ds, r') =>
    Some (if neg then (- Z.of_N (N_of_chars ds))%Z else Z.of_N (N_of_chars ds), r')
  end.

Definition parse_exp_part (s : jsstring) : option (Z * jsstring) :=
  match s with
  | c :: r =>
    if (c =? 101) || (c =? 69) then
      match r with
      | sg :: r1 =>
        if sg =? 45 then parse_exp_digits true r1
        else if sg =? 43 then parse_exp_digits false r1
        else parse_exp_digits false r
      | [] => None
      end
    else Some (0%Z, s)
  | [] => Some (0%Z, s)
  end.

(** A number literal, [-? int frac? exp?], and its Number value. *)
Definition parse_number (s : jsstring) : option (json * jsstring) :=
  let (neg, s1) := match s with
                   | c :: r => if c =? 45 then (true, r) else (false, s)
                   | [] => (false, s)
                   end in
  match parse_int_part s1 with
  | None => None
  | Some (ip, s2) =>
    match parse_frac_part s2 with
    | None => None
    | Some (fp, s3) =>
      match parse_exp_part s3 with
      | None => None
      | Some (ex, s4) =>
        Some (JNum (of_decimal neg (Z.of_N (N_of_chars (ip ++ fp)))
                               (ex - Z.of_nat (length fp))%Z), s4)
      end
    end
  end.

Inductive parse_result (A : Type) : Type :=
| OutOfFuel
| NoParse
| Parsed (a : A) (rest : jsstring).

Arguments OutOfFuel {A}.
Arguments NoParse {A}.
Arguments Parsed {A} a rest.

Definition parse_literal (lit : jsstring) (v : json) (s : jsstring) : parse_result json :=
  match strip_prefix lit s with
  | Some r => Parsed v r
  | None => NoParse
  end.

Fixpoint parse_value (fuel : nat) (s : jsstring) {struct fuel} : parse_result json :=
  match fuel with
  | O => OutOfFuel
  | S f =>
    match skip_ws s with
    | [] => NoParse
    | c :: r =>
      if c =? 34 then
        match parse_string_chars r with
        | Some (str, r') => Parsed (JStr str) r'
        | None => NoParse
        end
      else if c =? 91 then
        match skip_ws r with
        | [] => NoParse
        | d :: r' =>
          if d =? 93 then Parsed (JArr []) r'
          else match parse_elements f r with
               | Parsed l r'' => Parsed (JArr l) r''
               | NoParse => NoParse
               | OutOfFuel => OutOfFuel
               end
        end
      else if c =? 123 then
        match skip_ws r with
        | [] => NoParse
        | d :: r' =>
          if d =? 125 then Parsed (JObj []) r'
          else match parse_members f r with
               | Parsed ms r'' => Parsed (JObj (obj_of_members ms)) r''
               | NoParse => NoParse
               | OutOfFuel => OutOfFuel
               end
        end
      else if c =? 110 then parse_literal lit_null JNull (c :: r)
      else if c =? 116 then parse_literal lit_true (JBool true) (c :: r)
      else if c =? 102 then parse_literal lit_false (JBool false) (c :: r)
      else match parse_number (c :: r) with
           | Some (v, r') => Parsed v r'
           | None => NoParse
           end
    end
  end

with parse_elements (fuel : nat) (s : jsstring) {struct fuel}
  : parse_result (list json) :=
  match fuel with
  | O => OutOfFuel
  | S f =>
    match parse_value f s with
    | OutOfFuel => OutOfFuel
    | NoParse => NoParse
    | Parsed v r =>
      match skip_ws r with
      | [] => NoParse
      | c :: r' =>
        if c =? 44 then
          match parse_elements f r' with
          | Parsed l r'' => Parsed (v :: l) r''
          | NoParse => NoParse
          | OutOfFuel => OutOfFuel
          end
        else if c =? 93 then Parsed [v] r'
        else NoParse
      end
    end
  end

with parse_members (fuel : nat) (s : jsstring) {struct fuel}
  : parse_result (list (jsstring * json)) :=
  match fuel with
  | O => OutOfFuel
  | S f =>
    match skip_ws s with
    | [] => NoParse
    | q :: r =>
      if q =? 34 then
        match parse_string_chars r with
        | None => NoParse
        | Some (k, r1) =>
          match skip_ws r1 with
          | [] => NoParse
          | c :: r2 =>
            if c =? 58 then
              match parse_value f r2 with
              | OutOfFuel => OutOfFuel
              | NoParse => NoParse
              | Parsed v r3 =>
                match skip_ws r3 with
                | [] => NoParse
                | c' :: r4 =>
                  if c' =? 44 then
                    match parse_members f r4 with
                    | Parsed ms r5 => Parsed ((k, v) :: ms) r5
                    | NoParse => NoParse
                    | OutOfFuel => OutOfFuel
                    end
                  else if c' =? 125 then Parsed [(k, v)] r4
                  else NoParse
                end
              end
            else NoParse
          end
        end
      else NoParse
    end
  end.

(** [JSON.parse(s)]: a whole value and nothing but white space after it;
    anything else raises [SyntaxError]. *)
Definition parse (s : jsstring) : Exc json :=
  match parse_value (2 * length s + 2) s with
  | Parsed v r =>
    match skip_ws r with
    | [] => Ok v
    | _ :: _ => Throw SyntaxError
    end
  | _ => Throw SyntaxError
  end.

(** *** Operations of the language on parsed values *)

(** [ToBoolean] *)
Definition truthy (v : json) : bool :=
  match v with
  | JNull => false
  | JBool b => b
  | JNum x => negb (is_zero x)
  | JStr s => match s with [] => false | _ :: _ => true end
  | JArr _ | JObj _ => true
  end.

(** [v.k] for the property names the code reads ([data], [category],
    [logo], [title], [body]), none of which a built-in prototype defines:
    the own property of an object, [undefined] ([None]) on any other value
    than [null]. *)
Definition prop (v : json) (k : jsstring) : option json :=
  match v with
  | JObj ms => obj_get k ms
  | _ => None
  end.

(** The same read where the value may be [null], which raises
    [TypeError]. *)
Definition get (v : json) (k : jsstring) : Exc (option json) :=
  match v with
  | JNull => Throw TypeError
  | _ => Ok (prop v k)
  end.

(** [a || b] where [a] may be [undefined]. *)
Definition or_else (a : option json) (b : json) : json :=
  match a with
  | Some v => if truthy v then v else b
  | None => b
  end.

(** [a === b] between values read from two different parse results:
    primitives compare by value, two objects or arrays are never the same
    reference. *)
Definition strict_eq (a b : option json) : bool :=
  match a, b with
  | None, None => true
  | Some JNull, Some JNull => true
  | Some (JBool x), Some (JBool y) => Bool.eqb x y
  | Some (JNum x), Some (JNum y) => Number.equal x y
  | Some (JStr s), Some (JStr t) => string_eqb s t
  | _, _ => false
  end.

Definition lit_undefined : jsstring := [117; 110; 100; 101; 102; 105; 110; 101; 100].
Definition lit_object : jsstring :=
  [91; 111; 98; 106; 101; 99; 116; 32; 79; 98; 106; 101; 99; 116; 93].

(** [ToString], as string concatenation applies it to a value none of
    whose objects has an own property [toString]. *)
Fixpoint to_string (v : json) : jsstring :=
  match v with
  | JNull => lit_null
  | JBool b => if b then lit_true else lit_false
  | JNum x => number_to_string x
  | JStr s => s
  | JArr l =>
    join [44] (map (fun x => match x with
                             | JNull => []
                             | _ => to_string x
                             end) l)
  | JObj _ => lit_object
  end.

Definition to_string_opt (v : option json) : jsstring :=
  match v with
  | Some x => to_string x
  | None => lit_undefined
  end.

Fixpoint indexed {A : Type} (i : N) (l : list A) : list (jsstring * A) :=
  match l with
  | [] => []
  | x :: r => (N_chars i, x) :: indexed (N.succ i) r
  end.

(** The own enumerable properties copied by [{...v}]. *)
Definition spread (v : json) : list (jsstring * json) :=
  match v with
  | JObj ms => ms
  | JArr l => indexed 0 l
  | JStr s => indexed 0 (map (fun c => JStr [c]) s)
  | _ => []
  end.

(** An object literal; a property whose value is [undefined] reads and
    serialises as an absent one and is left out. *)
Definition object_literal (ps : list (jsstring * option json)) : list (jsstring * json) :=
  fold_left (fun acc p => match p with
                          | (k, Some v) => obj_set k v acc
                          | (_, None) => acc
                          end) ps [].

(** The property name [length]. *)
Definition lit_length : jsstring := [108; 101; 110; 103; 116; 104].

(** [v.length]: the length of a string or of an array, the own property
    of an object, [undefined] on a number or a boolean. *)
Definition length_of (v : json) : Exc (option json) :=
  match v with
  | JNull => Throw TypeError
  | JStr s => Ok (Some (JNum (Number.of_nat (length s))))
  | JArr l => Ok (Some (JNum (Number.of_nat (length l))))
  | JObj ms => Ok (obj_get lit_length ms)
  | JBool _ | JNum _ => Ok None
  end.

(** [v.slice(0, n)]: a method of strings and arrays only; a property
    [slice] of a parsed object is no function. *)
Definition slice_to (n : nat) (v : json) : Exc json :=
  match v with
  | JStr s => Ok (JStr (firstn n s))
  | JArr l => Ok (JArr (firstn n l))
  | _ => Throw TypeError
  end.

End JSON.

Export JSON.

(** ** types.ts *)

Module Types.

Inductive BlogCategory : Type :=
| HEALTH | PSYCHOLOGY | TECHNOLOGY | AI | GUIDE | FINANCE | TRAVEL | CULINARY
| LIFESTYLE | DIY | PARENTING | BUSINESS | MARKETING | SPORT | BEAUTY
| GARDENING | INTERIOR_DESIGN | HISTORY | GAMING | AUTOMOTIVE.

Definition BlogCategory_value (c : BlogCategory) : jsstring :=
  match c with
  | HEALTH => js "Zdrowie"
  | PSYCHOLOGY => js "Psychologia"
  | TECHNOLOGY => js "Technologia"
  | AI => js "Sztuczna Inteligencja"
  | GUIDE => js "Poradnik"
  | FINANCE => js "Finanse"
  | TRAVEL => js "Podróże"
  | CULINARY => js "Kulinaria"
  | LIFESTYLE => js "Lifestyle"
  | DIY => js "Zrób to sam (DIY)"
  | PARENTING => js "Rodzicielstwo"
  | BUSINESS => js "Biznes"
  | MARKETING => js "Marketing"
  | SPORT => js "Sport"
  | BEAUTY => js "Uroda"
  | GARDENING => js "Ogrodnictwo"
  | INTERIOR_DESIGN => js "Wystrój Wnętrz"
  | HISTORY => js "Historia"
  | GAMING => js "Gaming"
  | AUTOMOTIVE => js "Motoryzacja"
  end.

Inductive WordCount : Type :=
| ONE_K | TWO_K | THREE_K | FIVE_K | TEN_K | TWENTY_K.

Definition WordCount_value (w : WordCount) : jsstring :=
  match w with
  | ONE_K => js "1000 słów"
  | TWO_K => js "2000 słów"
  | THREE_K => js "3000 słów"
  | FIVE_K => js "5000 słów"
  | TEN_K => js "10 000 słów"
  | TWENTY_K => js "20 000 słów"
  end.

Inductive TimeRange : Type := WEEK | MONTH | QUARTER | YEAR.

Definition TimeRange_value (r : TimeRange) : jsstring :=
  match r with
  | WEEK => js "Ostatnie 7 dni"
  | MONTH => js "Ostatni miesiąc"
  | QUARTER => js "Ostatni kwartał"
  | YEAR => js "Ostatni rok"
  end.

Record ChartDataPoint : Type := {
  point_name : jsstring;
  point_value : Number.number
}.

Inductive ChartType : Type := bar | pie | line.

Record BlogChart : Type := {
  chart_title : jsstring;
  chart_type : ChartType;
  chart_data : list ChartDataPoint
}.

Record SponsoredLink : Type := {
  anchor : jsstring;
  url : jsstring;
  description : jsstring
}.

Record BlogPostData : Type := {
  title : jsstring;
  introduction : jsstring;
  body : jsstring;
  conclusion : jsstring;
  chart : option BlogChart;
  imagePrompt : jsstring;
  sponsoredLink : option SponsoredLink
}.

Record TopicSuggestion : Type := {
  topic_title : jsstring;
  topic_description : jsstring
}.

Record StoredArticle : Type := {
  entry_id : jsstring;
  entry_title : jsstring;
  entry_category : jsstring;
  entry_date : jsstring;
  entry_thumbnail : option jsstring
}.

(** Property names. *)
Definition k_title : jsstring := Eval vm_compute in js "title".
Definition k_introduction : jsstring := Eval vm_compute in js "introduction".
Definition k_body : jsstring := Eval vm_compute in js "body".
Definition k_conclusion : jsstring := Eval vm_compute in js "conclusion".
Definition k_chart : jsstring := Eval vm_compute in js "chart".
Definition k_imagePrompt : jsstring := Eval vm_compute in js "imagePrompt".
Definition k_sponsoredLink : jsstring := Eval vm_compute in js "sponsoredLink".
Definition k_type : jsstring := Eval vm_compute in js "type".
Definition k_data : jsstring := Eval vm_compute in js "data".
Definition k_name : jsstring := Eval vm_compute in js "name".
Definition k_value : jsstring := Eval vm_compute in js "value".
Definition k_anchor : jsstring := Eval vm_compute in js "anchor".
Definition k_url : jsstring := Eval vm_compute in js "url".
Definition k_description : jsstring := Eval vm_compute in js "description".
Definition k_category : jsstring := Eval vm_compute in js "category".
Definition k_logo : jsstring := Eval vm_compute in js "logo".
Definition k_id : jsstring := Eval vm_compute in js "id".
Definition k_date : jsstring := Eval vm_compute in js "date".
Definition k_thumbnail : jsstring := Eval vm_compute in js "thumbnail".

(** The run-time object of a typed value: its properties in the order of
    the interface, an optional property that is absent being left out.  *)

Definition nullable (o : option jsstring) : json :=
  match o with
  | Some s => JStr s
  | None => JNull
  end.

Definition optional {A : Type} (k : jsstring) (f : A -> json) (o : option A)
  : list (jsstring * json) :=
  match o with
  | Some a => [(k, f a)]
  | None => []
  end.

Definition ChartType_value (t : ChartType) : jsstring :=
  match t with
  | bar => [98; 97; 114]
  | pie => [112; 105; 101]
  | line => [108; 105; 110; 101]
  end.

Definition ChartDataPoint_object (p : ChartDataPoint) : json :=
  JObj [(k_name, JStr (point_name p)); (k_value, JNum (point_value p))].

Definition BlogChart_object (c : BlogChart) : json :=
  JObj [(k_title, JStr (chart_title c));
        (k_type, JStr (ChartType_value (chart_type c)));
        (k_data, JArr (map ChartDataPoint_object (chart_data c)))].

Definition SponsoredLink_object (l : SponsoredLink) : json :=
  JObj [(k_anchor, JStr (anchor l)); (k_url, JStr (url l));
        (k_description, JStr (description l))].

Definition BlogPostData_object (d : BlogPostData) : json :=
  JObj ([(k_title, JStr (title d));
         (k_introduction, JStr (introduction d));
         (k_body, JStr (body d));
         (k_conclusion, JStr (conclusion d))]
        ++ optional k_chart BlogChart_object (chart d)
        ++ [(k_imagePrompt, JStr (imagePrompt d))]
        ++ optional k_sponsoredLink SponsoredLink_object (sponsoredLink d)).

Definition TopicSuggestion_object (t : TopicSuggestion) : json :=
  JObj [(k_title, JStr (topic_title t)); (k_description, JStr (topic_description t))].

Definition StoredArticle_object (a : StoredArticle) : json :=
  JObj [(k_id, JStr (entry_id a)); (k_title, JStr (entry_title a));
        (k_category, JStr (entry_category a)); (k_date, JStr (entry_date a));
        (k_thumbnail, nullable (entry_thumbnail a))].

(** The payload of a share link. *)
Record SharePayload : Type := {
  share_article : BlogPostData;
  share_category : jsstring;
  share_logo : option jsstring
}.

End Types.

Export Types.

(** ** services/geminiService.ts *)

Module GeminiService.

(** What [ai.models.generateContent] is called with. *)
Inductive RequestContents : Type :=
| TextContents (prompt : jsstring)
| PartsContents (parts : list jsstring).

Inductive RequestConfig : Type :=
| NoConfig
| StructuredOutput (responseMimeType : jsstring) (required : list jsstring)
| GoogleSearchTool
| ImageConfig (aspectRatio : jsstring).

Record Request : Type := {
  model : jsstring;
  contents : RequestContents;
  config : RequestConfig
}.

(** What it answers with. *)
Record Blob : Type := {
  mimeType : option jsstring;
  data : option jsstring
}.

Record Part : Type := {
  part_text : option jsstring;
  inlineData : option Blob
}.

Record Content : Type := { parts : option (list Part) }.

Record Web : Type := {
  web_uri : option jsstring;
  web_title : option jsstring
}.

Record GroundingChunk : Type := { web : option Web }.

Record GroundingMetadata : Type := { groundingChunks : option (list GroundingChunk) }.

Record Candidate : Type := {
  content : option Content;
  groundingMetadata : option GroundingMetadata
}.

Record Response : Type := {
  text : option jsstring;
  candidates : option (list Candidate)
}.

Record Source : Type := {
  source_title : jsstring;
  source_uri : jsstring
}.

Definition blogSchema_required : list jsstring :=
  [k_title; k_introduction; k_body; k_conclusion; k_imagePrompt].

Definition text_model : jsstring := js "gemini-3-pro-preview".
Definition image_model : jsstring := js "gemini-2.5-flash-image".

(** [response.candidates?.[0]] *)
Definition first_candidate (r : Response) : option Candidate :=
  match candidates r with
  | Some (c :: _) => Some c
  | _ => None
  end.

(** [response.candidates?.[0]?.content?.parts || []] *)
Definition response_parts (r : Response) : list Part :=
  match first_candidate r with
  | Some c =>
    match content c with
    | Some ct => match parts ct with Some ps => ps | None => [] end
    | None => []
    end
  | None => []
  end.

(** [response.candidates?.[0]?.groundingMetadata?.groundingChunks || []] *)
Definition response_chunks (r : Response) : list GroundingChunk :=
  match first_candidate r with
  | Some c =>
    match groundingMetadata c with
    | Some g => match groundingChunks g with Some cs => cs | None => [] end
    | None => []
    end
  | None => []
  end.

(** A string placed in a template literal; [undefined] prints as such. *)
Definition interpolate (o : option jsstring) : jsstring :=
  match o with
  | Some s => s
  | None => lit_undefined
  end.

Definition generateBlogPost_prompt (topic category length : jsstring) : jsstring :=
  js "
    Jesteś nagradzanym blogerem z 10-letnim doświadczeniem. Twoim zadaniem jest napisanie posta na bloga.
    Cechy: Profesjonalny, motywacyjny, przyjacielski, emocjonalny.
    
    Temat: "
  ++ topic
  ++ js "
    Kategoria: "
  ++ category
  ++ js "
    Długość: "
  ++ length
  ++ js "
    
    Wymagania:
    1. Użyj modelu AIDA (Attention, Interest, Desire, Action).
    2. Formatowanie: Używaj Markdown do strukturyzacji (H2, H3, pogrubienia).
    3. WAŻNE: W treści używaj dużo emotikonów. Zamiast zwykłych myślników w listach, używaj pasujących emoji (np. ✅, 👉, 💡).
    4. Nagłówki powinny być chwytliwe i zawierać emoji.
    5. Styl ma być bardzo wizualny i atrakcyjny ("
  ++ [34]
  ++ js "insta-friendly"
  ++ [34]
  ++ js ").
    6. Jeśli temat pozwala, zaproponuj dane do prostego wykresu.
    7. Język: Polski.
  ".

Definition generateMoreContent_prompt (currentTitle currentBodyContext : jsstring) : jsstring :=
  js "
    Jesteś tym samym nagradzanym blogerem.
    
    Kontekst: Piszesz artykuł pt. "
  ++ [34]
  ++ currentTitle
  ++ [34]
  ++ js ".
    Ostatnia część treści (kontekst): "
  ++ [34]
  ++ slice_last 500 currentBodyContext
  ++ [34]
  ++ js "
    
    Zadanie: Napisz kolejną, logiczną sekcję tego artykułu (kontynuację).
    Format: Markdown. Rozpocznij od nagłówka H2.
    Styl: Ten sam co wcześniej - emocjonalny, dużo emoji, merytoryczny.
    Długość: Około 200-300 słów.
    Nie pisz podsumowania ani zakończenia (to już mamy). Po prostu rozwiń temat o kolejny wątek.
  ".

Definition generateTrendingTopics_prompt (category range : jsstring) : jsstring :=
  js "
    Jesteś ekspertem SEO i Content Marketingu.
    Twoim zadaniem jest zaproponowanie 6 unikalnych, chwytliwych tematów na bloga w kategorii: "
  ++ [34]
  ++ category
  ++ [34]
  ++ js ".
    
    Bazuj na trendach wyszukiwania w Google z okresu: "
  ++ range
  ++ js ".
    Użyj narzędzia Google Search aby sprawdzić co faktycznie interesuje ludzi w tej niszy.
    
    Dla każdego tematu przygotuj:
    1. Tytuł (Title)
    2. Krótki opis (Description) - do 200 słów, zachęcający do napisania, wyjaśniający dlaczego to trenduje.

    Zwróć odpowiedź w formacie czystego JSON (bez markdowna):
    [
      {
        "
  ++ [34]
  ++ js "title"
  ++ [34]
  ++ js ": "
  ++ [34]
  ++ js "Tytuł tematu"
  ++ [34]
  ++ js ",
        "
  ++ [34]
  ++ js "description"
  ++ [34]
  ++ js ": "
  ++ [34]
  ++ js "Opis..."
  ++ [34]
  ++ js "
      }
    ]
  ".

Definition generateBlogPost_request (topic : jsstring) (category : BlogCategory)
           (length : WordCount) : Request :=
  {| model := text_model;
     contents := TextContents (generateBlogPost_prompt topic (BlogCategory_value category)
                                                       (WordCount_value length));
     config := StructuredOutput (js "application/json") blogSchema_required |}.

(** The request of a continuation: the title and [slice(-500)] of the body
    context are all that enters it. *)
Definition generateMoreContent_request (currentTitle currentBodyContext : jsstring) : Request :=
  {| model := text_model;
     contents := TextContents (generateMoreContent_prompt currentTitle currentBodyContext);
     config := NoConfig |}.

Definition generateTrendingTopics_request (category : jsstring) (range : TimeRange) : Request :=
  {| model := text_model;
     contents := TextContents (generateTrendingTopics_prompt category (TimeRange_value range));
     config := GoogleSearchTool |}.

Definition generateBlogImage_request (prompt : jsstring) : Request :=
  {| model := image_model;
     contents := PartsContents [prompt];
     config := ImageConfig (js "16:9") |}.

(** [s.replace(/pat/g, '')] for a literal, non-empty pattern: occurrences
    are removed from left to right without overlap.  [skip] counts the code
    units of the current occurrence still to drop. *)
Fixpoint remove_all_from (pat : jsstring) (skip : nat) (s : jsstring) : jsstring :=
  match s with
  | [] => []
  | c :: r =>
    match skip with
    | S k => remove_all_from pat k r
    | O =>
      if startsWith s pat then remove_all_from pat (length pat - 1) r
      else c :: remove_all_from pat O r
    end
  end.

Definition remove_all (pat s : jsstring) : jsstring := remove_all_from pat O s.

Definition fence_json : jsstring := [96; 96; 96; 106; 115; 111; 110].
Definition fence : jsstring := [96; 96; 96].

(** What follows the first occurrence of [c]. *)
Fixpoint after_first (c : N) (s : jsstring) : option jsstring :=
  match s with
  | [] => None
  | x :: r => if x =? c then Some r else after_first c r
  end.

(** What precedes the last occurrence of [c]. *)
Definition before_last (c : N) (s : jsstring) : option jsstring :=
  match after_first c (rev s) with
  | Some r => Some (rev r)
  | None => None
  end.

(** [s.match(/\[[\s\S]*\]/)]: the match starts at the first [[] and, the
    star being greedy, ends at the last []] after it; [None] is [null]. *)
Definition match_array (s : jsstring) : option jsstring :=
  match after_first 91 s with
  | Some r =>
    match before_last 93 r with
    | Some m => Some (91 :: m ++ [93])
    | None => None
    end
  | None => None
  end.

Definition default_source_title : jsstring := js "Źródło".

(** The [forEach] over the grounding chunks. *)
Fixpoint collect_sources (chunks : list GroundingChunk) : list Source :=
  match chunks with
  | [] => []
  | chunk :: r =>
    match web chunk with
    | Some w =>
      match web_uri w with
      | Some (c :: u) =>
        {| source_title := match web_title w with
                           | Some (t :: ts) => t :: ts
                           | _ => default_source_title
                           end;
           source_uri := c :: u |} :: collect_sources r
      | _ => collect_sources r
      end
    | None => collect_sources r
    end
  end.

(** The first part that carries [inlineData], as a data URI. *)
Fixpoint first_inline_image (ps : list Part) : option jsstring :=
  match ps with
  | [] => None
  | part :: r =>
    match inlineData part with
    | Some blob => Some (js "data:image/png;base64," ++ interpolate (data blob))
    | None => first_inline_image r
    end
  end.

Section Service.

(** The external generative service: a request is answered or the call
    fails. *)
Variable service : Request -> Exc Response.

Definition generateBlogPost (topic : jsstring) (category : BlogCategory)
           (length : WordCount) : Exc json :=
  try_catch
    (response <- service (generateBlogPost_request topic category length) ;;
     match text response with
     | Some (c :: t) => JSON.parse (c :: t)
     | _ => Throw (Error (js "Brak odpowiedzi tekstowej z modelu."))
     end)%exc
    (fun error => Throw error).

Definition generateMoreContent (currentTitle currentBodyContext : jsstring) : Exc jsstring :=
  try_catch
    (response <- service (generateMoreContent_request currentTitle currentBodyContext) ;;
     Ok (match text response with
         | Some t => t
         | None => []
         end))%exc
    (fun error => Throw error).

Definition generateTrendingTopics (category : jsstring) (range : TimeRange)
  : Exc (json * list Source) :=
  try_catch
    (response <- service (generateTrendingTopics_request category range) ;;
     let text := match text response with Some t => t | None => [] end in
     let cleanText := remove_all fence (remove_all fence_json text) in
     topics <- match match_array cleanText with
               | Some m => JSON.parse m
               | None => Ok (JArr [])
               end ;;
     Ok (topics, collect_sources (response_chunks response)))%exc
    (fun error => Throw error).

Definition generateBlogImage (prompt : jsstring) : Exc jsstring :=
  try_catch
    (response <- service (generateBlogImage_request prompt) ;;
     match first_inline_image (response_parts response) with
     | Some uri => Ok uri
     | None => Throw (Error (js "Nie udało się wygenerować obrazu."))
     end)%exc
    (fun error => Throw error).

End Service.

End GeminiService.

(** ** App.tsx *)

Module App.

(** The component state.  [blogData], [logo] and [currentCategory] hold
    whatever was assigned to them, which may be a value read from a parsed
    share link; [JNull] is [null]. *)
Record State : Type := {
  blogData : json;
  isLoading : bool;
  isGeneratingMore : bool;
  error : option jsstring;
  logo : json;
  currentCategory : json
}.

Definition initial : State :=
  {| blogData := JNull; isLoading := false; isGeneratingMore := false;
     error := None; logo := JNull; currentCategory := JStr [] |}.

Definition setBlogData (v : json) (st : State) : State :=
  {| blogData := v; isLoading := isLoading st;
     isGeneratingMore := isGeneratingMore st; error := error st;
     logo := logo st; currentCategory := currentCategory st |}.

Definition setIsLoading (b : bool) (st : State) : State :=
  {| blogData := blogData st; isLoading := b;
     isGeneratingMore := isGeneratingMore st; error := error st;
     logo := logo st; currentCategory := currentCategory st |}.

Definition setIsGeneratingMore (b : bool) (st : State) : State :=
  {| blogData := blogData st; isLoading := isLoading st;
     isGeneratingMore := b; error := error st;
     logo := logo st; currentCategory := currentCategory st |}.

Definition setError (e : option jsstring) (st : State) : State :=
  {| blogData := blogData st; isLoading := isLoading st;
     isGeneratingMore := isGeneratingMore st; error := e;
     logo := logo st; currentCategory := currentCategory st |}.

Definition setLogo (v : json) (st : State) : State :=
  {| blogData := blogData st; isLoading := isLoading st;
     isGeneratingMore := isGeneratingMore st; error := error st;
     logo := v; currentCategory := currentCategory st |}.

Definition setCurrentCategory (v : json) (st : State) : State :=
  {| blogData := blogData st; isLoading := isLoading st;
     isGeneratingMore := isGeneratingMore st; error := error st;
     logo := logo st; currentCategory := v |}.

Definition share_marker : jsstring := Eval vm_compute in js "#share=".

(** [s.replace(pat, rep)] with a string pattern: the first occurrence. *)
Fixpoint replace_first (pat rep s : jsstring) : jsstring :=
  match strip_prefix pat s with
  | Some r => rep ++ r
  | None =>
    match s with
    | [] => []
    | c :: r => c :: replace_first pat rep r
    end
  end.

(** ['%' + ('00' + c.charCodeAt(0).toString(16)).slice(-2)]: the last two
    hexadecimal digits of the code unit, lower case. *)
Definition percent_of_char (c : N) : jsstring :=
  [37; hex_digit_lower ((c / 16) mod 16); hex_digit_lower (c mod 16)].

(** The decoding of a share token, up to the parsed payload. *)
Definition decode_share (encoded : jsstring) : Exc json :=
  (binary <- Base64.atob encoded ;;
   decoded <- URI.decodeURIComponent (flat_map percent_of_char binary) ;;
   JSON.parse decoded)%exc.

(** [handleHashChange], given [window.location.hash]. *)
Definition handleHashChange (st : State) (hash : jsstring) : Exc State :=
  if startsWith hash share_marker then
    try_catch
      (let encoded := replace_first share_marker [] hash in
       payload <- decode_share encoded ;;
       if truthy payload then
         match prop payload k_data with
         | Some data =>
           if truthy data then
             Ok (setLogo (or_else (prop payload k_logo) JNull)
                  (setCurrentCategory (or_else (prop payload k_category) (JStr []))
                    (setBlogData data st)))
           else Ok st
         | None => Ok st
         end
       else Ok st)%exc
      (fun e => Ok st)
  else Ok st.

Definition generation_failed : jsstring :=
  js "Ups! Wena twórcza chwilowo zniknęła (błąd API). Spróbuj ponownie za chwilę.".

(** [handleGenerate] up to its [await]. *)
Definition handleGenerate_begin (category : BlogCategory) (st : State) : State :=
  setCurrentCategory (JStr (BlogCategory_value category))
    (setBlogData JNull (setError None (setIsLoading true st))).

(** [handleGenerate] from the moment the awaited [generateBlogPost]
    settles. *)
Definition handleGenerate_settle (outcome : Exc json) (st : State) : State :=
  setIsLoading false
    (match outcome with
     | Ok data => setBlogData data st
     | Throw _ => setError (Some generation_failed) st
     end).

Definition paragraph_break : jsstring := [10; 10].

(** The updater [prev => prev ? {...prev, body: prev.body + "\n\n" + newContent} : null]. *)
Definition append_content (newContent : jsstring) (prev : json) : json :=
  if truthy prev then
    JObj (obj_set k_body
            (JStr (to_string_opt (prop prev k_body) ++ paragraph_break ++ newContent))
            (spread prev))
  else JNull.

(** [handleGenerateMore] up to its [await]; [None] when it returns at
    once. *)
Definition handleGenerateMore_begin (st : State) : option State :=
  if truthy (blogData st) then Some (setIsGeneratingMore true st) else None.

(** [handleGenerateMore] from the moment the awaited
    [generateMoreContent] settles. *)
Definition handleGenerateMore_settle (outcome : Exc jsstring) (st : State) : State :=
  setIsGeneratingMore false
    (match outcome with
     | Ok newContent => setBlogData (append_content newContent (blogData st)) st
     | Throw _ => st
     end).


(** *** The session as a transition system

    A call of [handleGenerate] stays in flight until its response
    settles; responses may settle in any order. *)

Record Session : Type := {
  ui : State;
  in_flight : list nat;
  next_call : nat
}.

Inductive event : Type :=
| Generate (topic : jsstring) (category : BlogCategory)
| Settle (call : nat) (outcome : Exc json).

Definition start_session (st : State) : Session :=
  {| ui := st; in_flight := []; next_call := O |}.

(** A step of the handlers themselves. *)
Definition step (s : Session) (e : event) : Session :=
  match e with
  | Generate _ category =>
    {| ui := handleGenerate_begin category (ui s);
       in_flight := next_call s :: in_flight s;
       next_call := S (next_call s) |}
  | Settle call outcome =>
    if existsb (Nat.eqb call) (in_flight s) then
      {| ui := handleGenerate_settle outcome (ui s);
         in_flight := filter (fun c => negb (Nat.eqb call c)) (in_flight s);
         next_call := next_call s |}
    else s
  end.

Definition run (s : Session) (es : list event) : Session := fold_left step es s.



(** *** A handler from its call to its end *)

Section Handlers.

Variable service : GeminiService.Request -> Exc GeminiService.Response.

(** [handleGenerate] when nothing else happens while the answer is
    awaited. *)
Definition handleGenerate (topic : jsstring) (category : BlogCategory)
           (length : WordCount) (st : State) : State :=
  handleGenerate_settle (GeminiService.generateBlogPost service topic category length)
                        (handleGenerate_begin category st).

End Handlers.

End App.

(** ** components/ArticleView.tsx *)

Module ArticleView.

(** [window.location]: origin and path of the page. *)
Record Location : Type := {
  origin : jsstring;
  pathname : jsstring
}.

(** The props [data], [category] and [logo] are what [App] holds in
    [blogData], [currentCategory] and [logo]. *)

Section ShareLink.

Variable location : Location.
Variables (data category logo : json).

(** The text between [#share=] and the end of the link. *)
Definition share_token (includeLogo : bool) : Exc jsstring :=
  let sharePayload :=
      JObj [(k_data, data); (k_category, category);
            (k_logo, if includeLogo then logo else JNull)] in
  let json := stringify sharePayload in
  (escaped <- URI.encodeURIComponent json ;;
   Base64.btoa (URI.replace_percent_escapes escaped))%exc.

Definition generateUrl (includeLogo : bool) : Exc jsstring :=
  (encoded <- share_token includeLogo ;;
   Ok (origin location ++ pathname location ++ App.share_marker ++ encoded))%exc.

(** The link [handleShareLink] hands to the clipboard. *)
Definition share_url : Exc jsstring :=
  (url <- generateUrl (truthy logo) ;;
   if (30000 <? strlen url) && truthy logo then generateUrl false else Ok url)%exc.

Inductive share_outcome : Type :=
| LinkCopied (url : jsstring)
| ShareFailed.

(** [handleShareLink]; [writeText] is the clipboard, which may refuse.  A
    failure anywhere ends in the alert. *)
Definition handleShareLink (writeText : jsstring -> Exc unit) : share_outcome :=
  match (url <- share_url ;; _ <- writeText url ;; Ok url)%exc with
  | Ok url => LinkCopied url
  | Throw _ => ShareFailed
  end.

End ShareLink.

(** *** The history kept in [localStorage] *)

(** [Date.now().toString()] and [new Date().toLocaleDateString()] at the
    moment of the call. *)
Record Clock : Type := {
  now : jsstring;
  today : jsstring
}.

(** [history.some(h => h.title === data.title)] *)
Fixpoint some_same_title (data : json) (history : list json) : Exc bool :=
  match history with
  | [] => Ok false
  | h :: r =>
    (t <- get h k_title ;;
     t' <- get data k_title ;;
     if strict_eq t t' then Ok true else some_same_title data r)%exc
  end.

(** [history.filter(h => h.title !== data.title)] over entries read from
    the slot. *)
Fixpoint filter_other_titles (data : json) (history : list json) : Exc (list json) :=
  match history with
  | [] => Ok []
  | h :: r =>
    (t <- get h k_title ;;
     t' <- get data k_title ;;
     rest <- filter_other_titles data r ;;
     Ok (if strict_eq t t' then rest else h :: rest))%exc
  end.

(** [history.filter(h => h.title !== data.title)] on the history in
    memory.  The entry that the call has made, [history[0]], holds
    [data.title] itself, which is not [!==] to itself whatever it is;
    the entries read from the slot hold values of their own. *)
Definition filter_history (data : json) (made : bool) (history : list json)
  : Exc (list json) :=
  match made, history with
  | true, _ :: r => filter_other_titles data r
  | _, _ => filter_other_titles data history
  end.

(** The methods [some], [unshift], [pop] and [filter] exist on arrays
    only. *)
Definition as_array (v : json) : Exc (list json) :=
  match v with
  | JArr l => Ok l
  | _ => Throw TypeError
  end.

Definition newEntry (clock : Clock) (title : option json) (category : json)
           (thumbnail : json) : json :=
  JObj (object_literal
          [(k_id, Some (JStr (now clock))); (k_title, title);
           (k_category, Some category); (k_date, Some (JStr (today clock)));
           (k_thumbnail, Some thumbnail)]).

(** [history.unshift(newEntry); if (history.length > 3) history.pop();] *)
Definition unshift_bounded (entry : json) (history : list json) : list json :=
  let history' := entry :: history in
  if (3 <? length history')%nat then removelast history' else history'.

(** [stored ? JSON.parse(stored) : []], to be used as an array. *)
Definition read_history (stored : option jsstring) : Exc (list json) :=
  (parsed <- match stored with
             | Some (c :: s) => JSON.parse (c :: s)
             | _ => Ok (JArr [])
             end ;;
   as_array parsed)%exc.

Section Storage.

(** Whether [localStorage] has room for a value of the history slot. *)
Variable fits : jsstring -> bool.

(** [localStorage.setItem('bloger_history', value)] *)
Definition setItem (value : jsstring) : Exc (option jsstring) :=
  if fits value then Ok (Some value) else Throw (Error (js "QuotaExceededError")).

(** The slot after the two attempts at writing the new history: with the
    thumbnail, then with [thumbnail = null] in the new entry, which is
    [history[0]]. *)
Definition write_history (clock : Clock) (title : option json) (category : json)
           (generatedImage : option jsstring) (history : list json)
  : Exc (option jsstring * list json) :=
  let history1 := unshift_bounded (newEntry clock title category (nullable generatedImage)) history in
  try_catch
    (slot <- setItem (stringify (JArr history1)) ;; Ok (slot, history1))%exc
    (fun e =>
       let history2 := newEntry clock title category JNull :: tl history1 in
       (slot <- setItem (stringify (JArr history2)) ;; Ok (slot, history2))%exc).

(** [saveArticle]: the slot [bloger_history] and, when it is called, the
    argument of [setRecentArticles]. *)
Definition saveArticle (clock : Clock) (data category : json)
           (generatedImage : option jsstring) (stored : option jsstring)
  : option jsstring * option (list json) :=
  match
    (history <- read_history stored ;;
     dup <- some_same_title data history ;;
     if dup then Ok (stored, history, false)
     else
       title <- get data k_title ;;
       written <- write_history clock title category generatedImage history ;;
       Ok (written, true))%exc
  with
  | Throw _ => (stored, None)
  | Ok (slot, history, made) =>
    match filter_history data made history with
    | Ok others => (slot, Some others)
    | Throw _ => (slot, None)
    end
  end.

(** Recording a sequence of articles, one [saveArticle] each. *)
Record Visit : Type := {
  visit_clock : Clock;
  visit_data : json;
  visit_category : json;
  visit_image : option jsstring
}.

Definition record_all (visits : list Visit) (stored : option jsstring) : option jsstring :=
  fold_left (fun slot v =>
               fst (saveArticle (visit_clock v) (visit_data v) (visit_category v)
                                (visit_image v) slot))
            visits stored.

End Storage.

(** The titles of a stored history, in stored order. *)
Definition stored_titles (stored : option jsstring) : option (list (option json)) :=
  match stored with
  | Some s =>
    match JSON.parse s with
    | Ok (JArr l) => Some (map (fun h => prop h k_title) l)
    | _ => None
    end
  | None => Some []
  end.

(** *** The cover image *)

Record ImageState : Type := {
  generatedImage : option jsstring;
  isGeneratingImage : bool;
  imageError : option jsstring
}.

Definition image_failed : jsstring :=
  js "Nie udało się wygenerować obrazu. Spróbuj ponownie.".

Section CoverImage.

Variable service : GeminiService.Request -> Exc GeminiService.Response.

(** [handleGenerateImage], given [data.imagePrompt], when nothing else
    happens while the answer is awaited. *)
Definition handleGenerateImage (imagePrompt : jsstring) (st : ImageState) : ImageState :=
  match imagePrompt with
  | [] => st
  | _ :: _ =>
    match
      (imageUrl <- GeminiService.generateBlogImage service imagePrompt ;;
       match imageUrl with
       | [] => Throw (Error (js "Otrzymano pusty obraz"))
       | _ :: _ => Ok imageUrl
       end)%exc
    with
    | Ok imageUrl =>
      {| generatedImage := Some imageUrl; isGeneratingImage := false; imageError := None |}
    | Throw _ =>
      {| generatedImage := generatedImage st; isGeneratingImage := false;
         imageError := Some image_failed |}
    end
  end.

End CoverImage.

(** *** Tags *)

(** [Object.values(BlogCategory)] *)
Definition BlogCategory_values : list jsstring :=
  map BlogCategory_value
      [HEALTH; PSYCHOLOGY; TECHNOLOGY; AI; GUIDE; FINANCE; TRAVEL; CULINARY;
       LIFESTYLE; DIY; PARENTING; BUSINESS; MARKETING; SPORT; BEAUTY;
       GARDENING; INTERIOR_DESIGN; HISTORY; GAMING; AUTOMOTIVE].

Definition default_key : jsstring := js "default".

Definition default_tags : list jsstring :=
  [js "Blog"; js "Wiedza"; js "Inspiracja"; js "Porady"; js "Lifestyle"; js "Edukacja"].

Definition CATEGORY_TAGS : list (jsstring * list jsstring) :=
  [(BlogCategory_value HEALTH,
    [js "Zdrowie"; js "Medycyna"; js "Wellness"; js "Profilaktyka"; js "Ciało"; js "Umysł"]);
   (BlogCategory_value TECHNOLOGY,
    [js "Tech"; js "Innowacje"; js "Gadżety"; js "Przyszłość"; js "Digital"; js "Software"]);
   (BlogCategory_value AI,
    [js "SztucznaInteligencja"; js "MachineLearning"; js "LLM"; js "Automatyzacja";
     js "Robotyka"]);
   (BlogCategory_value FINANCE,
    [js "Pieniądze"; js "Inwestowanie"; js "Oszczędzanie"; js "Budżet"; js "Giełda";
     js "Ekonomia"]);
   (BlogCategory_value MARKETING,
    [js "SEO"; js "SocialMedia"; js "Branding"; js "Sprzedaż"; js "Content"; js "Strategia"]);
   (default_key, default_tags)].

(** [Object.values(BlogCategory).includes(category) ? category : 'default'] *)
Definition categoryKey (category : json) : jsstring :=
  match category with
  | JStr s => if existsb (string_eqb s) BlogCategory_values then s else default_key
  | _ => default_key
  end.

(** [CATEGORY_TAGS[key]]; [None] is [undefined]. *)
Fixpoint tags_of (key : jsstring) (table : list (jsstring * list jsstring))
  : option (list jsstring) :=
  match table with
  | [] => None
  | (k, tags) :: r => if string_eqb k key then Some tags else tags_of key r
  end.

(** [CATEGORY_TAGS[categoryKey] || CATEGORY_TAGS['default']] *)
Definition tag_pool (category : json) : list jsstring :=
  match tags_of (categoryKey category) CATEGORY_TAGS with
  | Some pool => pool
  | None => default_tags
  end.

Section Tags.

(** [[...pool].sort(() => 0.5 - Math.random())], whose order the engine
    chooses, and the [Math.random()] of the count: the fraction that a
    binary64 number from 0 up to but not including 1 is. *)
Variable shuffle : list jsstring -> list jsstring.
Variable random : Q.

(** [Math.floor(Math.random() * 3) + 3]: the product is rounded to
    binary64 before its floor is taken. *)
Definition tag_count : Z :=
  (Number.floor (Number.round_binary64 false (Qnum random * 3) (Z.pos (Qden random))) + 3)%Z.

(** The argument of [setTags]. *)
Definition pick_tags (category : json) : list jsstring :=
  let pool := tag_pool category in
  let shuffled := shuffle pool in
  firstn (Z.to_nat tag_count) shuffled.

End Tags.

(** *** The names of the exported files *)

(** The class [\s] of a regular expression: white space and line
    terminators. *)
Definition is_space (c : N) : bool :=
  ((9 <=? c) && (c <=? 13)) || (c =? 32) || (c =? 0xA0) || (c =? 0x1680)
  || ((0x2000 <=? c) && (c <=? 0x200A)) || (c =? 0x2028) || (c =? 0x2029)
  || (c =? 0x202F) || (c =? 0x205F) || (c =? 0x3000) || (c =? 0xFEFF).

(** [s.replace(/\s+/g, '_')]: every run of white space becomes one
    underscore.  [in_run] tells that the code unit before was white
    space. *)
Fixpoint replace_spaces_from (in_run : bool) (s : jsstring) : jsstring :=
  match s with
  | [] => []
  | c :: r =>
    if is_space c then
      if in_run then replace_spaces_from true r else 95 :: replace_spaces_from true r
    else c :: replace_spaces_from false r
  end.

Definition replace_spaces (s : jsstring) : jsstring := replace_spaces_from false s.

(** [fileDownload.download] of [handleExportWord]. *)
Definition word_file_name (title : jsstring) : jsstring :=
  firstn 30 (replace_spaces title) ++ js ".doc".

(** [opt.filename] of [handleDownloadPDF]. *)
Definition pdf_file_name (title : jsstring) : jsstring :=
  firstn 20 (replace_spaces title) ++ js ".pdf".
(** *** Code in the body *)

(** The class [\w] of a regular expression. *)
Definition is_word (c : N) : bool :=
  is_upper c || is_lower c || is_digit c || (c =? 95).

(** The longest start of [s] made of word characters, and what follows. *)
Fixpoint span_word (s : jsstring) : jsstring * jsstring :=
  match s with
  | [] => ([], [])
  | c :: r =>
    if is_word c then let (w, r') := span_word r in (c :: w, r')
    else ([], s)
  end.

Definition language_marker : jsstring := Eval vm_compute in js "language-".

(** The group of [/language-(\w+)/.exec(s)]: the match is at the first
    place where [language-] is followed by a word character, and the
    group is the longest run of word characters there; [None] is
    [null]. *)
Fixpoint language_of (s : jsstring) : option jsstring :=
  match s with
  | [] => None
  | _ :: r =>
    match strip_prefix language_marker s with
    | Some rest =>
      match span_word rest with
      | ([], _) => language_of r
      | (w, _) => Some w
      end
    | None => language_of r
    end
  end.

(** [s.replace(/\n$/, '')]: a line feed that ends the text is removed. *)
Fixpoint strip_final_newline (s : jsstring) : jsstring :=
  match s with
  | [] => []
  | [c] => if c =? 10 then [] else [c]
  | c :: r => c :: strip_final_newline r
  end.

(** What the [code] component of the Markdown body renders: the
    highlighter with a language and the code, or a [code] element with
    its class. *)
Inductive CodeView : Type :=
| Highlighted (language code : jsstring)
| Plain (className children : jsstring).

Definition plain_classes : jsstring :=
  js " bg-gray-100 text-red-500 px-1 py-0.5 rounded font-mono text-sm".

Definition code (inline : bool) (className : option jsstring) (children : jsstring)
  : CodeView :=
  let found := language_of (match className with Some (c :: s) => c :: s | _ => [] end) in
  match (if inline then None else found) with
  | Some language => Highlighted language (strip_final_newline children)
  | None =>
    Plain (match className with Some s => s | None => lit_undefined end ++ plain_classes)
          children
  end.

End ArticleView.

(** ** components/Editor.tsx *)

Module Editor.

Record State : Type := {
  topic : jsstring;
  category : BlogCategory;
  length : WordCount;
  suggestions : json;
  isSuggesting : bool;
  suggestionError : option jsstring
}.

(** [useState('')], [useState(BlogCategory.HEALTH)],
    [useState(WordCount.TWO_K)], [useState([])], [useState(false)],
    [useState(null)] *)
Definition initial : State :=
  {| topic := []; category := HEALTH; length := TWO_K; suggestions := JArr [];
     isSuggesting := false; suggestionError := None |}.

Definition setSuggestions (v : json) (st : State) : State :=
  {| topic := topic st; category := category st; length := length st;
     suggestions := v; isSuggesting := isSuggesting st;
     suggestionError := suggestionError st |}.

Definition setIsSuggesting (b : bool) (st : State) : State :=
  {| topic := topic st; category := category st; length := length st;
     suggestions := suggestions st; isSuggesting := b;
     suggestionError := suggestionError st |}.

Definition setSuggestionError (e : option jsstring) (st : State) : State :=
  {| topic := topic st; category := category st; length := length st;
     suggestions := suggestions st; isSuggesting := isSuggesting st;
     suggestionError := e |}.

Definition k_topics : jsstring := Eval vm_compute in js "topics".
Definition k_sources : jsstring := Eval vm_compute in js "sources".
Definition k_uri : jsstring := Eval vm_compute in js "uri".

(** The object [{ topics, sources }] that [generateTrendingTopics]
    returns. *)
Definition results_object (r : json * list GeminiService.Source) : json :=
  JObj [(k_topics, fst r);
        (k_sources,
         JArr (map (fun s => JObj [(k_title, JStr (GeminiService.source_title s));
                                   (k_uri, JStr (GeminiService.source_uri s))])
                   (snd r)))].

Definition trends_not_found : jsstring :=
  js "Nie udało się znaleźć tematów. Spróbuj później.".
Definition trends_failed : jsstring := js "Błąd pobierania trendów.".

Section Trends.

Variable service : GeminiService.Request -> Exc GeminiService.Response.

(** [handleFetchTrends] when nothing else happens while the answer is
    awaited. *)
Definition handleFetchTrends (st : State) : State :=
  let st1 := setSuggestions (JArr []) (setSuggestionError None (setIsSuggesting true st)) in
  setIsSuggesting false
    (match
        (r <- GeminiService.generateTrendingTopics
                service (BlogCategory_value (category st)) WEEK ;;
         let results := results_object r in
         len <- length_of results ;;
         if strict_eq len (Some (JNum Number.zero)) then
           Ok (setSuggestionError (Some trends_not_found) st1)
         else
           shown <- slice_to 5 results ;;
           Ok (setSuggestions shown st1))%exc
      with
      | Ok st2 => st2
      | Throw _ => setSuggestionError (Some trends_failed) st1
      end).

End Trends.

End Editor.

(** ** components/ChartRenderer.tsx *)

Module ChartRenderer.

Definition COLORS : list jsstring :=
  [js "#0088FE"; js "#00C49F"; js "#FFBB28"; js "#FF8042"; js "#8884d8"].

(** What is drawn: the kind of chart, its data and, for a pie and for
    bars, the [fill] of one [Cell] for each point. *)
Inductive Chart : Type :=
| PieChart (data : json) (fills : list (option jsstring))
| LineChart (data : json)
| BarChart (data : json) (fills : list (option jsstring)).

(** [COLORS[index % COLORS.length]]; [None] is [undefined]. *)
Definition fill (index : nat) : option jsstring :=
  nth_error COLORS (index mod List.length COLORS).

(** [chart.data.map((entry, index) => <Cell fill=... />)] *)
Definition cells (data : json) : Exc (list (option jsstring)) :=
  (points <- ArticleView.as_array data ;;
   Ok (map fill (seq 0 (List.length points))))%exc.

Definition k_pie : jsstring := Eval vm_compute in js "pie".
Definition k_line : jsstring := Eval vm_compute in js "line".

(** The component: [None] when it returns [null]. *)
Definition ChartRenderer (chart : json) : Exc (option Chart) :=
  if negb (truthy chart) then Ok None
  else
    match prop chart k_data with
    | None => Ok None
    | Some data =>
      if negb (truthy data) then Ok None
      else
        (len <- length_of data ;;
         if strict_eq len (Some (JNum Number.zero)) then Ok None
         else if strict_eq (prop chart k_type) (Some (JStr k_pie)) then
           fills <- cells data ;; Ok (Some (PieChart data fills))
         else if strict_eq (prop chart k_type) (Some (JStr k_line)) then
           Ok (Some (LineChart data))
         else
           fills <- cells data ;; Ok (Some (BarChart data fills)))%exc
    end.

End ChartRenderer.

(** ** Vocabulary of the properties *)

Module Spec.

Import URI Base64 App ArticleView.

(** *** Numbers *)

(** The number with another sign. *)
Definition with_sign (s : bool) (x : Number.number) : Number.number :=
  match x with
  | Number.Finite _ m e => Number.Finite s m e
  | Number.Infinite _ => Number.Infinite s
  end.

(** The decimal [s * 10^E] is the binary [m * 2^e]. *)
Definition exact (s E m e : Z) : Prop :=
  (s * Number.pow10 E * Number.pow2 (- e) = m * Number.pow2 e * Number.pow10 (- E))%Z.

(** The number a string of digits writes, digit by digit. *)
Definition digit_step (acc c : N) : N := (10 * acc + (c - 48))%N.

(** The article with another body. *)
Definition with_body (b : jsstring) (d : BlogPostData) : BlogPostData :=
  {| title := title d; introduction := introduction d; body := b;
     conclusion := conclusion d; chart := chart d;
     imagePrompt := imagePrompt d; sponsoredLink := sponsoredLink d |}.

(** The session that holds a payload. *)
Definition holds (st : State) (p : SharePayload) : Prop :=
  blogData st = BlogPostData_object (share_article p) /\
  currentCategory st = JStr (share_category p) /\
  logo st = nullable (share_logo p).

(** A share token that does not decode to a payload with an article. *)
Inductive malformed (token : jsstring) : Prop :=
| not_base64 : forall e,
    Base64.atob token = Throw e -> malformed token
| not_text : forall binary e,
    Base64.atob token = Ok binary ->
    URI.decodeURIComponent (flat_map percent_of_char binary) = Throw e ->
    malformed token
| not_json : forall binary decoded e,
    Base64.atob token = Ok binary ->
    URI.decodeURIComponent (flat_map percent_of_char binary) = Ok decoded ->
    JSON.parse decoded = Throw e ->
    malformed token
| no_article : forall payload,
    decode_share token = Ok payload ->
    prop payload k_data = None ->
    malformed token.

(** *** JSON text

    What may follow a value inside the text [JSON.stringify] writes. *)
Definition delimited (rest : jsstring) : Prop :=
  match rest with
  | [] => True
  | c :: _ => c = 44 \/ c = 93 \/ c = 125
  end.


(** [k'] may be listed after [k]. *)
Definition listed_after (k k' : jsstring) : bool :=
  negb (string_eqb k k') && negb (listed_before k' k).

(** The keys of an object as the engine lists them: no key twice, the
    array indices first and in ascending order. *)
Fixpoint property_order (ks : list jsstring) : bool :=
  match ks with
  | [] => true
  | k :: r => forallb (listed_after k) r && property_order r
  end.

(** A value that [JSON.stringify] writes and [JSON.parse] reads back as
    it was: an object lists its properties in their order and a number
    is finite and not [-0], at any depth. *)
#[local] Unset Elimination Schemes.
Inductive well_formed : json -> Prop :=
| wf_null : well_formed JNull
| wf_bool : forall b, well_formed (JBool b)
| wf_num : forall x, json_number x = true -> well_formed (JNum x)
| wf_str : forall s, well_formed (JStr s)
| wf_arr : forall l, Forall well_formed l -> well_formed (JArr l)
| wf_obj : forall ms,
    property_order (map fst ms) = true ->
    Forall (fun kv => well_formed (snd kv)) ms ->
    well_formed (JObj ms).
#[local] Set Elimination Schemes.


(** Every object lists its properties in their order, at any depth: the
    values [JSON.parse] returns. *)
#[local] Unset Elimination Schemes.
Inductive listed : json -> Prop :=
| ls_null : listed JNull
| ls_bool : forall b, listed (JBool b)
| ls_num : forall x, listed (JNum x)
| ls_str : forall s, listed (JStr s)
| ls_arr : forall l, Forall listed l -> listed (JArr l)
| ls_obj : forall ms,
    property_order (map fst ms) = true ->
    Forall (fun kv => listed (snd kv)) ms ->
    listed (JObj ms).
#[local] Set Elimination Schemes.

(** A character that starts a value. *)
Definition value_start (c : N) : Prop :=
  is_json_ws c = false /\ (c =? 93) = false /\ (c =? 125) = false.

(** What the round trip of one value says. *)
Definition parses_back (v : json) : Prop :=
  forall fuel rest,
    delimited rest -> (length (stringify v) < fuel)%nat ->
    parse_value fuel (stringify v ++ rest) = Parsed v rest.

Definition member_text (kv : jsstring * json) : jsstring :=
  match kv with (k, x) => quote k ++ 58 :: stringify x end.

(** *** Share links *)

(** The check that a string is made of code units. *)
Definition wf_stringb (s : jsstring) : bool := forallb (fun c => c <? 65536) s.

(** Sextets of a sequence of octets, the last group padded with zero bits. *)
Fixpoint sextets (l : list N) : list N :=
  match l with
  | [] => []
  | [a] => [a / 4; (a mod 4) * 16]
  | [a; b] => [a / 4; (a mod 4) * 16 + b / 16; (b mod 16) * 4]
  | a :: b :: c :: r =>
    a / 4 :: (a mod 4) * 16 + b / 16 :: (b mod 16) * 4 + c / 64 :: c mod 64 :: sextets r
  end.

Fixpoint padding (l : list N) : jsstring :=
  match l with
  | [] => []
  | [_] => [61; 61]
  | [_; _] => [61]
  | _ :: _ :: _ :: r => padding r
  end.

Definition octet (b : N) : Prop := b <= 255.

(** A UTF-16 string whose surrogates come in pairs. *)
Inductive well_paired : jsstring -> Prop :=
| paired_nil : well_paired []
| paired_unit : forall c r,
    c < 65536 -> is_surrogate c = false -> well_paired r -> well_paired (c :: r)
| paired_pair : forall hi lo r,
    is_high_surrogate hi = true -> is_low_surrogate lo = true ->
    well_paired r -> well_paired (hi :: lo :: r).

(** The UTF-8 octets of a string. *)
Fixpoint utf8_bytes (s : jsstring) : list N :=
  match s with
  | [] => []
  | c :: r =>
    if is_high_surrogate c then
      match r with
      | d :: r' => utf8_octets (code_point_of_pair c d) ++ utf8_bytes r'
      | [] => utf8_octets c
      end
    else utf8_octets c ++ utf8_bytes r
  end.

(** Every string of the value is made of UTF-16 code units. *)
#[local] Unset Elimination Schemes.
Inductive utf16 : json -> Prop :=
| utf16_null : utf16 JNull
| utf16_bool : forall b, utf16 (JBool b)
| utf16_num : forall x, utf16 (JNum x)
| utf16_str : forall s, wf_string s -> utf16 (JStr s)
| utf16_arr : forall l, Forall utf16 l -> utf16 (JArr l)
| utf16_obj : forall ms,
    Forall (fun kv => wf_string (fst kv) /\ utf16 (snd kv)) ms -> utf16 (JObj ms).
#[local] Set Elimination Schemes.

(** The object [handleShareLink] serialises. *)
Definition share_object (data category logo : json) : json :=
  JObj [(k_data, data); (k_category, category); (k_logo, logo)].

(** [window.location.hash] once the page is at [url]: the link from its
    first [#] on. *)
Fixpoint fragment (url : jsstring) : jsstring :=
  match url with
  | [] => []
  | c :: r => if c =? 35 then url else fragment r
  end.

Definition chart_text (c : BlogChart) : Prop :=
  wf_string (chart_title c) /\
  Forall (fun pt => wf_string (point_name pt)) (chart_data c).

Definition link_text (l : SponsoredLink) : Prop :=
  wf_string (anchor l) /\ wf_string (url l) /\ wf_string (description l).

Definition article_text (a : BlogPostData) : Prop :=
  wf_string (title a) /\ wf_string (introduction a) /\ wf_string (body a) /\
  wf_string (conclusion a) /\ wf_string (imagePrompt a) /\
  match chart a with Some c => chart_text c | None => True end /\
  match sponsoredLink a with Some l => link_text l | None => True end.

(** The values of the chart are finite numbers other than [-0]: those
    that [JSON.stringify] writes as numbers and [JSON.parse] reads back
    as they were. *)
Definition chart_numbers (a : BlogPostData) : Prop :=
  match chart a with
  | Some c => Forall (fun pt => json_number (point_value pt) = true) (chart_data c)
  | None => True
  end.

(** Every string of the payload is made of UTF-16 code units. *)
Definition payload_text (p : SharePayload) : Prop :=
  article_text (share_article p) /\ wf_string (share_category p) /\
  match share_logo p with Some l => wf_string l | None => True end.

(** The props of [ArticleView] when the session holds [p]. *)
Definition link_of (location : Location) (p : SharePayload) : Exc jsstring :=
  share_url location (BlogPostData_object (share_article p))
            (JStr (share_category p)) (nullable (share_logo p)).

Definition token_of (p : SharePayload) : Exc jsstring :=
  share_token (BlogPostData_object (share_article p))
              (JStr (share_category p)) (nullable (share_logo p)) true.

Definition link_with_logo (location : Location) (p : SharePayload) : Exc jsstring :=
  generateUrl location (BlogPostData_object (share_article p))
              (JStr (share_category p)) (nullable (share_logo p)) true.

(** Sharing from a session that holds [p], then opening the link in the
    session [st]. *)
Definition share_then_open (location : Location) (p : SharePayload) (st : State)
  : Exc State :=
  (url <- link_of location p ;; handleHashChange st (fragment url))%exc.

Definition without_logo (p : SharePayload) : SharePayload :=
  {| share_article := share_article p; share_category := share_category p;
     share_logo := None |}.

(** The token of a payload, written out. *)
Definition token_text (p : SharePayload) : jsstring :=
  encode_octets
    (utf8_bytes
       (stringify (share_object (BlogPostData_object (share_article p))
                                (JStr (share_category p)) (nullable (share_logo p))))).

(** *** The history *)

(** What [saveArticle] is run with for one article. *)
Record Recording : Type := {
  rec_clock : Clock;
  rec_article : BlogPostData;
  rec_category : jsstring;
  rec_image : option jsstring
}.

Definition visit_of (r : Recording) : Visit :=
  {| visit_clock := rec_clock r;
     visit_data := BlogPostData_object (rec_article r);
     visit_category := JStr (rec_category r);
     visit_image := rec_image r |}.

(** The title of a stored entry, when it is a string. *)
Definition title_string (h : json) : jsstring :=
  match prop h k_title with
  | Some (JStr t) => t
  | _ => []
  end.

(** An entry written by [saveArticle] for an article: an object with a
    string title. *)
Definition is_entry (h : json) : Prop :=
  well_formed h /\ exists ms t, h = JObj ms /\ obj_get k_title ms = Some (JStr t).

(** The slot holds the entries [es]. *)
Definition represents (stored : option jsstring) (es : list json) : Prop :=
  (stored = None /\ es = []) \/ stored = Some (stringify (JArr es)).

(** The storage takes what the recording [r] writes when the slot holds
    the entries [es]: the new history with the thumbnail of the new
    entry or, that one refused, the same history without it. *)
Definition write_accepted (fits : jsstring -> bool) (r : Recording) (es : list json)
  : bool :=
  let t := Some (JStr (title (rec_article r))) in
  let history1 :=
      unshift_bounded (newEntry (rec_clock r) t (JStr (rec_category r))
                                (nullable (rec_image r))) es in
  let history2 := newEntry (rec_clock r) t (JStr (rec_category r)) JNull :: tl history1 in
  fits (stringify (JArr history1)) || fits (stringify (JArr history2)).

(** The storage takes the write of each recording of [rs], made in turn
    from the slot [stored]. *)
Fixpoint writes_accepted (fits : jsstring -> bool) (rs : list Recording)
         (stored : option jsstring) : bool :=
  match rs with
  | [] => true
  | r :: rs' =>
    match read_history stored with
    | Ok es => write_accepted fits r es
    | Throw _ => false
    end
    && writes_accepted fits rs'
         (fst (saveArticle fits (rec_clock r) (BlogPostData_object (rec_article r))
                           (JStr (rec_category r)) (rec_image r) stored))
  end.

(** The slot holds at most three entries written by [saveArticle]. *)
Definition bounded_history (stored : option jsstring) (es : list json) : Prop :=
  represents stored es /\ Forall is_entry es /\ (length es <= 3)%nat.

(** A title joins the list of recorded titles: nothing moves when it is
    known, otherwise it goes first and the list is cut to three. *)
Definition push_title (t : jsstring) (ts : list jsstring) : list jsstring :=
  if existsb (fun x => string_eqb x t) ts then ts else firstn 3 (t :: ts).



(** *** Further vocabulary *)

(** [pat] occurs in [s]. *)
Definition occurs (pat s : jsstring) : Prop := exists a b, s = a ++ pat ++ b.

(** No suffix of [s] starts with a code fence. *)
Fixpoint fence_free (s : jsstring) : bool :=
  match s with
  | [] => true
  | _ :: r => negb (startsWith s GeminiService.fence) && fence_free r
  end.

(** What a sequence of settled continuations adds to the body: a failed
    one adds nothing. *)
Definition appended (outcomes : list (Exc jsstring)) : jsstring :=
  flat_map (fun o => match o with
                     | Ok B => paragraph_break ++ B
                     | Throw _ => []
                     end) outcomes.

(** The session after the continuations have settled, one after the
    other. *)
Definition settle_all (outcomes : list (Exc jsstring)) (st : State) : State :=
  fold_left (fun s o => handleGenerateMore_settle o s) outcomes st.

(** The stored entries whose title is not [t]. *)
Definition other_titles (t : jsstring) (es : list json) : list json :=
  filter (fun h => negb (string_eqb (title_string h) t)) es.

(** A character of the base64 alphabet, the padding included. *)
Definition is_base64_char (c : N) : bool :=
  is_upper c || is_lower c || is_digit c || (c =? 43) || (c =? 47) || (c =? 61).

End Spec.

(** ** Sample data *)

Module Samples.

Import GeminiService App ArticleView Spec.

Definition sample_article : BlogPostData :=
  {| title := js "Sen a zdrowie";
     introduction := js "Czy wiesz, że...";
     body := js "A";
     conclusion := js "Zadbaj o sen!";
     chart := None;
     imagePrompt := js "a calm bedroom at night";
     sponsoredLink := None |}.

Definition first_article : BlogPostData :=
  {| title := js "Sen"; introduction := js "i1"; body := js "b1"; conclusion := js "c1";
     chart := None; imagePrompt := js "p1"; sponsoredLink := None |}.

Definition second_article : BlogPostData :=
  {| title := js "Dieta"; introduction := js "i2"; body := js "b2"; conclusion := js "c2";
     chart := None; imagePrompt := js "p2"; sponsoredLink := None |}.

Definition jpeg_response : Response :=
  {| text := None;
     candidates :=
       Some [{| content :=
                  Some {| parts :=
                            Some [{| part_text := Some (js "Here is your image");
                                     inlineData := None |};
                                  {| part_text := None;
                                     inlineData := Some {| mimeType := Some (js "image/jpeg");
                                                           data := Some (js "/9j/4AAQ") |} |};
                                  {| part_text := None;
                                     inlineData := Some {| mimeType := Some (js "image/png");
                                                           data := Some (js "iVBORw0K") |} |}] |};
                groundingMetadata := None |}] |}.

(** A response whose text wraps the array in commentary. *)
Definition idea : TopicSuggestion :=
  {| topic_title := js "X"; topic_description := js "Y" |}.

Definition commented_text : jsstring :=
  js "Here are some ideas:" ++ [10]
  ++ js "[{" ++ [34] ++ js "title" ++ [34] ++ js ":" ++ [34] ++ js "X" ++ [34]
  ++ js "," ++ [34] ++ js "description" ++ [34] ++ js ":" ++ [34] ++ js "Y" ++ [34]
  ++ js "}]" ++ [10] ++ js "Hope this helps!".

Definition commented_response : Response :=
  {| text := Some commented_text; candidates := None |}.

(** The array as a model writes it when it ignores the request for plain
    JSON: indented, in a code fence. *)
Definition indented_array : jsstring :=
  js "[
  {
    " ++ [34] ++ js "title" ++ [34] ++ js ": " ++ [34] ++ js "X" ++ [34] ++ js ",
    " ++ [34] ++ js "description" ++ [34] ++ js ": " ++ [34] ++ js "Y" ++ [34] ++ js "
  }
]".

Definition fenced_text : jsstring :=
  js "```json" ++ [10] ++ indented_array ++ [10] ++ js "```".

Definition fenced_response : Response :=
  {| text := Some fenced_text; candidates := None |}.

(** The same array after a commentary that cites a source in brackets. *)
Definition bracketed_text : jsstring :=
  js "Sources [1]. " ++ stringify (JArr [TopicSuggestion_object idea]).

Definition bracketed_response : Response :=
  {| text := Some bracketed_text; candidates := None |}.

(** An array whose title holds a code fence. *)
Definition fence_topic : TopicSuggestion :=
  {| topic_title := js "a```b"; topic_description := js "Y" |}.

Definition fence_inside_response : Response :=
  {| text := Some (stringify (JArr [TopicSuggestion_object fence_topic]));
     candidates := None |}.

Definition example_location : Location :=
  {| origin := js "https://blog.example"; pathname := js "/" |}.

(** An article in Polish with an emoji, a chart (of the values 7.5 and
    9) and a sponsored link. *)
Definition polish_article : BlogPostData :=
  {| title := js "Sen a zdrowie 😴";
     introduction := js "Czy wiesz, że śpimy jedną trzecią życia?";
     body := js "## Dlaczego sen? 💡
✅ Regeneracja mózgu
👉 Lepsza pamięć";
     conclusion := js "Zadbaj o sen już dziś!";
     chart := Some {| chart_title := js "Godziny snu";
                      chart_type := bar;
                      chart_data := [{| point_name := js "Dorośli"; point_value := Number.of_decimal false 75 (-1) |};
                                     {| point_name := js "Młodzież"; point_value := Number.of_nat 9 |}] |};
     imagePrompt := js "a calm bedroom at night";
     sponsoredLink := Some {| anchor := js "Materace";
                              url := js "https://example.com/materace?a=1&b=2";
                              description := js "Wygodny materac to podstawa." |} |}.

Definition polish_payload : SharePayload :=
  {| share_article := polish_article;
     share_category := js "Zdrowie";
     share_logo := Some (js "data:image/png;base64,iVBORw0KGgo=") |}.

(** An article whose chart holds the value of the literal [1e999], which
    is [Infinity], and a payload that holds an empty logo. *)
Definition overflow_article : BlogPostData :=
  {| title := js "Sen a zdrowie";
     introduction := js "Czy wiesz, że...";
     body := js "A";
     conclusion := js "Zadbaj o sen!";
     chart := Some {| chart_title := js "Skala";
                      chart_type := bar;
                      chart_data := [{| point_name := js "x";
                                        point_value := Number.of_decimal false 1 999 |}] |};
     imagePrompt := js "a calm bedroom at night";
     sponsoredLink := None |}.

Definition overflow_payload : SharePayload :=
  {| share_article := overflow_article;
     share_category := js "Zdrowie";
     share_logo := None |}.

Definition empty_logo_payload : SharePayload :=
  {| share_article := sample_article;
     share_category := js "Zdrowie";
     share_logo := Some [] |}.

(** A logo that brings the token just under 30,000 characters and the
    link just over. *)
Definition boundary_payload : SharePayload :=
  {| share_article := sample_article;
     share_category := js "Zdrowie";
     share_logo := Some (js "data:image/png;base64," ++ repeat 65 (N.to_nat 22280)) |}.

(** A logo that brings the token over 30,000 characters. *)
Definition heavy_payload : SharePayload :=
  {| share_article := sample_article;
     share_category := js "Zdrowie";
     share_logo := Some (js "data:image/png;base64," ++ repeat 65 (N.to_nat 30000)) |}.

(** Five visits to five articles, and a history that already holds the
    first. *)
Definition recording (n : N) (t : jsstring) : Recording :=
  {| rec_clock := {| now := N_chars (1700000000000 + n); today := js "2.11.2026" |};
     rec_article := {| title := t; introduction := js "i"; body := js "b";
                       conclusion := js "c"; chart := None; imagePrompt := js "p";
                       sponsoredLink := None |};
     rec_category := js "Zdrowie";
     rec_image := Some (js "data:image/png;base64,AAAA") |}.

Definition five_recordings : list Recording :=
  [recording 1 (js "Sen"); recording 2 (js "Dieta"); recording 3 (js "Bieganie");
   recording 4 (js "Joga"); recording 5 (js "Woda")].

Definition stored_entry : StoredArticle :=
  {| entry_id := js "1700000000001"; entry_title := js "Sen a zdrowie";
     entry_category := js "Zdrowie"; entry_date := js "2.11.2026";
     entry_thumbnail := None |}.

Definition stored_history : option jsstring :=
  Some (stringify (JArr [StoredArticle_object stored_entry])).

End Samples.

(** * Properties *)

(** ** Strings *)

Section StringFacts.

Lemma string_eqb_refl (s : jsstring) : string_eqb s s = true.
Proof.
  induction s as [|c s IH]; simpl; [reflexivity|].
  now rewrite N.eqb_refl, IH.
Qed.

Lemma string_eqb_eq (a b : jsstring) : string_eqb a b = true <-> a = b.
Proof.
  split.
  - revert b; induction a as [|x a IH]; intros [|y b]; simpl; try discriminate; auto.
    intros H. apply andb_true_iff in H as [Hxy Hab].
    apply N.eqb_eq in Hxy. f_equal; auto.
  - intros ->. apply string_eqb_refl.
Qed.

Lemma string_eqb_neq (a b : jsstring) : a <> b -> string_eqb a b = false.
Proof.
  intros H. destruct (string_eqb a b) eqn:E; [|reflexivity].
  apply string_eqb_eq in E. contradiction.
Qed.

Lemma strip_prefix_app (p s : jsstring) : strip_prefix p (p ++ s) = Some s.
Proof.
  induction p as [|c p IH]; simpl; [reflexivity|].
  now rewrite N.eqb_refl.
Qed.

Lemma startsWith_app (p s : jsstring) : startsWith (p ++ s) p = true.
Proof. unfold startsWith. now rewrite strip_prefix_app. Qed.

Lemma replace_first_prefix (p rep s : jsstring) :
  App.replace_first p rep (p ++ s) = rep ++ s.
Proof.
  destruct (p ++ s) eqn:E; simpl; rewrite <- E, strip_prefix_app; reflexivity.
Qed.

Lemma slice_last_length (n : nat) (s : jsstring) : (length (slice_last n s) <= n)%nat.
Proof. unfold slice_last. rewrite length_skipn. lia. Qed.

Lemma slice_last_idem (n : nat) (s : jsstring) :
  slice_last n (slice_last n s) = slice_last n s.
Proof.
  unfold slice_last at 1.
  replace (length (slice_last n s) - n)%nat with O
    by (pose proof (slice_last_length n s); lia).
  reflexivity.
Qed.

Lemma slice_last_suffix (n : nat) (s : jsstring) :
  exists before, s = before ++ slice_last n s.
Proof.
  exists (firstn (length s - n) s). unfold slice_last.
  now rewrite firstn_skipn.
Qed.

End StringFacts.

(** ** JSON round trip *)

Import Spec Samples.

Ltac N_case :=
  match goal with
  | |- context [N.leb ?a ?b] => destruct (N.leb_spec a b)
  | |- context [N.ltb ?a ?b] => destruct (N.ltb_spec a b)
  | |- context [N.eqb ?a ?b] => destruct (N.eqb_spec a b)
  end.

Ltac N_cases := repeat (N_case; cbn [andb orb negb]; try lia).

Section NumberText.

Lemma uint_of_chars_chars (u : Decimal.uint) : uint_of_chars (uint_chars u) = u.
Proof. induction u; simpl; try rewrite IHu; reflexivity. Qed.

Lemma uint_chars_digits (u : Decimal.uint) : forallb is_digit (uint_chars u) = true.
Proof. induction u; simpl; auto. Qed.

Lemma to_uint_fixed (n : N) : Decimal.unorm (N.to_uint n) = N.to_uint n.
Proof. rewrite <- (DecimalN.Unsigned.to_of (N.to_uint n)), DecimalN.Unsigned.of_to. reflexivity. Qed.

Lemma to_uint_leading_zero (n : N) (u : Decimal.uint) :
  N.to_uint n = Decimal.D0 u -> u = Decimal.Nil.
Proof.
  intros H. pose proof (to_uint_fixed n) as F. rewrite H in F.
  unfold Decimal.unorm in F.
  destruct (Decimal.nzhead (Decimal.D0 u)) as [|u0|u0|u0|u0|u0|u0|u0|u0|u0|u0] eqn:E.
  - now injection F.
  - exfalso. apply (nzhead_nonzero (Decimal.D0 u) u0). exact E.
  - discriminate F. - discriminate F. - discriminate F. - discriminate F.
  - discriminate F. - discriminate F. - discriminate F. - discriminate F.
  - discriminate F.
Qed.

Lemma to_uint_nonnil (n : N) : N.to_uint n <> Decimal.Nil.
Proof.
  destruct n; simpl; [discriminate|]. apply DecimalPos.Unsigned.to_uint_nonnil.
Qed.

Lemma N_of_chars_chars (n : N) : N_of_chars (N_chars n) = n.
Proof.
  unfold N_of_chars, N_chars. rewrite uint_of_chars_chars.
  apply DecimalN.Unsigned.of_to.
Qed.

End NumberText.

Section NumberParse.

Lemma N_chars_shape (n : N) :
  exists c t, N_chars n = c :: t /\ is_digit c = true /\
              forallb is_digit t = true /\ (c = 48 -> t = []).
Proof.
  unfold N_chars. pose proof (to_uint_nonnil n) as Hn.
  pose proof (to_uint_leading_zero n) as Hz.
  destruct (N.to_uint n) as [|u|u|u|u|u|u|u|u|u|u]; [contradiction| | | | | | | | | |];
    simpl; eexists; eexists; (split; [reflexivity|]);
      (split; [reflexivity|]); (split; [apply uint_chars_digits|]);
        try discriminate.
  intros _. now rewrite (Hz u eq_refl).
Qed.

Lemma delimited_not_digit (rest : jsstring) :
  delimited rest ->
  match rest with
  | [] => True
  | c :: _ => is_digit c = false /\ c <> 46 /\ c <> 101 /\ c <> 69 /\ c <> 45 /\ c <> 43
  end.
Proof.
  destruct rest as [|c r]; simpl; [auto|].
  intros [-> | [-> | ->]]; repeat split; try reflexivity; discriminate.
Qed.

Lemma span_digits_app (ds rest : jsstring) :
  forallb is_digit ds = true ->
  delimited rest ->
  span_digits (ds ++ rest) = (ds, rest).
Proof.
  intros Hd Hr. induction ds as [|d ds IH]; simpl in *.
  - destruct rest as [|c r]; [reflexivity|].
    apply delimited_not_digit in Hr. destruct Hr as [Hc _]. simpl. now rewrite Hc.
  - apply andb_true_iff in Hd as [H1 H2]. rewrite H1, (IH H2). reflexivity.
Qed.

Lemma parse_int_part_chars (n : N) (rest : jsstring) :
  delimited rest ->
  parse_int_part (N_chars n ++ rest) = Some (N_chars n, rest).
Proof.
  intros Hr. destruct (N_chars_shape n) as (c & t & E & Hc & Ht & Hz).
  rewrite E. simpl. destruct (c =? 48) eqn:E48.
  - apply N.eqb_eq in E48. rewrite (Hz E48). subst c. reflexivity.
  - rewrite Hc, (span_digits_app _ _ Ht Hr). reflexivity.
Qed.

Lemma parse_exp_digits_chars (neg : bool) (n : N) (rest : jsstring) :
  delimited rest ->
  parse_exp_digits neg (N_chars n ++ rest)
  = Some (if neg then (- Z.of_N n)%Z else Z.of_N n, rest).
Proof.
  intros Hr. unfold parse_exp_digits.
  destruct (N_chars_shape n) as (c & t & E & Hc & Ht & _).
  rewrite span_digits_app; auto.
  - rewrite N_of_chars_chars. rewrite E. reflexivity.
  - rewrite E. simpl. now rewrite Hc, Ht.
Qed.

End NumberParse.

(** ** Numbers: rounding, digits, text *)

Section BinaryRounding.

Local Open Scope Z_scope.

Import Number.

Lemma pow2_pos (k : Z) : 0 < pow2 k.
Proof. unfold pow2. apply Z.pow_pos_nonneg; lia. Qed.

Lemma pow10_pos (k : Z) : 0 < pow10 k.
Proof. unfold pow10. apply Z.pow_pos_nonneg; lia. Qed.

Lemma pow2_nonneg (k : Z) : 0 <= k -> pow2 k = 2 ^ k.
Proof. intros H. unfold pow2. now rewrite Z.max_r. Qed.

Lemma pow2_nonpos (k : Z) : k <= 0 -> pow2 k = 1.
Proof. intros H. unfold pow2. now rewrite Z.max_l. Qed.

Lemma pow10_nonneg (k : Z) : 0 <= k -> pow10 k = 10 ^ k.
Proof. intros H. unfold pow10. now rewrite Z.max_r. Qed.

Lemma pow10_nonpos (k : Z) : k <= 0 -> pow10 k = 1.
Proof. intros H. unfold pow10. now rewrite Z.max_l. Qed.

(** [2^k] as the fraction [pow2 k / pow2 (- k)], over a common power. *)
Lemma pow2_shift (k K : Z) :
  0 <= K -> 0 <= K + k -> pow2 k * 2 ^ K = pow2 (- k) * 2 ^ (K + k).
Proof.
  intros HK Hk. destruct (Z.le_gt_cases 0 k) as [H|H].
  - rewrite (pow2_nonneg k H), (pow2_nonpos (- k)) by lia.
    rewrite Z.pow_add_r by lia. lia.
  - rewrite (pow2_nonpos k), (pow2_nonneg (- k)) by lia.
    rewrite <- Z.pow_add_r by lia. replace (- k + (K + k)) with K by lia. lia.
Qed.

Lemma pow10_shift (k K : Z) :
  0 <= K -> 0 <= K + k -> pow10 k * 10 ^ K = pow10 (- k) * 10 ^ (K + k).
Proof.
  intros HK Hk. destruct (Z.le_gt_cases 0 k) as [H|H].
  - rewrite (pow10_nonneg k H), (pow10_nonpos (- k)) by lia.
    rewrite Z.pow_add_r by lia. lia.
  - rewrite (pow10_nonpos k), (pow10_nonneg (- k)) by lia.
    rewrite <- Z.pow_add_r by lia. replace (- k + (K + k)) with K by lia. lia.
Qed.

(** [2^l <= a / b] and [a / b < 2^l], over a common power. *)
Lemma le_pow2_iff (a b l K : Z) :
  0 <= K -> 0 <= K + l ->
  (b * pow2 l <= a * pow2 (- l) <-> b * 2 ^ (K + l) <= a * 2 ^ K).
Proof.
  intros HK Hl.
  assert (P : 0 < pow2 (- l)) by apply pow2_pos.
  assert (Q : 0 < 2 ^ K) by (apply Z.pow_pos_nonneg; lia).
  pose proof (pow2_shift l K HK Hl) as E.
  split; intros H.
  - apply (Z.mul_le_mono_pos_l _ _ (pow2 (- l)) P).
    replace (pow2 (- l) * (b * 2 ^ (K + l))) with (b * (pow2 l * 2 ^ K)) by (rewrite E; ring).
    replace (pow2 (- l) * (a * 2 ^ K)) with (a * pow2 (- l) * 2 ^ K) by ring.
    replace (b * (pow2 l * 2 ^ K)) with (b * pow2 l * 2 ^ K) by ring.
    apply Z.mul_le_mono_nonneg_r; lia.
  - apply (Z.mul_le_mono_pos_r _ _ (2 ^ K) Q).
    replace (b * pow2 l * 2 ^ K) with (pow2 (- l) * (b * 2 ^ (K + l)))
      by (replace (b * pow2 l * 2 ^ K) with (b * (pow2 l * 2 ^ K)) by ring; rewrite E; ring).
    replace (a * pow2 (- l) * 2 ^ K) with (pow2 (- l) * (a * 2 ^ K)) by ring.
    apply Z.mul_le_mono_nonneg_l; lia.
Qed.

Lemma lt_pow2_iff (a b l K : Z) :
  0 <= K -> 0 <= K + l ->
  (a * pow2 (- l) < b * pow2 l <-> a * 2 ^ K < b * 2 ^ (K + l)).
Proof.
  intros HK Hl. pose proof (le_pow2_iff a b l K HK Hl) as H. lia.
Qed.

Lemma pow2_mono (i j : Z) : 0 <= i <= j -> 2 ^ i <= 2 ^ j.
Proof. intros H. apply Z.pow_le_mono_r; lia. Qed.

(** The bounds that define [floor_log2]. *)
Lemma floor_log2_spec (a b : Z) :
  0 < a -> 0 < b ->
  b * pow2 (floor_log2 a b) <= a * pow2 (- floor_log2 a b) /\
  a * pow2 (- (floor_log2 a b + 1)) < b * pow2 (floor_log2 a b + 1).
Proof.
  intros Ha Hb. unfold floor_log2.
  set (d := Z.log2 a - Z.log2 b).
  pose proof (Z.log2_spec a Ha) as [A1 A2].
  pose proof (Z.log2_spec b Hb) as [B1 B2].
  pose proof (Z.log2_nonneg a) as La. pose proof (Z.log2_nonneg b) as Lb.
  set (K := Z.log2 b + 1).
  assert (HK : 0 <= K) by (unfold K; lia).
  assert (Hup : a * 2 ^ K < b * 2 ^ (K + (d + 1))).
  { assert (E : 2 ^ Z.succ (Z.log2 a) * 2 ^ K = 2 ^ Z.log2 b * 2 ^ (K + (d + 1)))
      by (rewrite <- !Z.pow_add_r by (unfold d, K; lia); f_equal; unfold d, K; lia).
    apply Z.lt_le_trans with (2 ^ Z.succ (Z.log2 a) * 2 ^ K).
    - apply Z.mul_lt_mono_pos_r; [apply Z.pow_pos_nonneg; lia|exact A2].
    - rewrite E. apply Z.mul_le_mono_nonneg_r; [apply Z.pow_nonneg; lia|exact B1]. }
  assert (Hlow : b * 2 ^ (K + (d - 1)) <= a * 2 ^ K).
  { assert (E : 2 ^ Z.log2 a * 2 ^ K = 2 ^ Z.succ (Z.log2 b) * 2 ^ (K + (d - 1)))
      by (rewrite <- !Z.pow_add_r by (unfold d, K; lia); f_equal; unfold d, K; lia).
    apply Z.le_trans with (2 ^ Z.log2 a * 2 ^ K).
    - rewrite E. apply Z.mul_le_mono_nonneg_r; [apply Z.pow_nonneg; unfold d, K; lia|lia].
    - apply Z.mul_le_mono_nonneg_r; [apply Z.pow_nonneg; lia|exact A1]. }
  destruct (Z.leb_spec (b * pow2 d) (a * pow2 (- d))) as [T|T].
  - split; [exact T|].
    apply (lt_pow2_iff a b (d + 1) K); unfold d, K; try lia. exact Hup.
  - split.
    + apply (le_pow2_iff a b (d - 1) K); unfold d, K; try lia. exact Hlow.
    + replace (d - 1 + 1) with d by lia. exact T.
Qed.

(** No power of two lies between a number and itself. *)
Lemma floor_log2_order (a b l l' : Z) :
  0 < a -> 0 < b ->
  b * pow2 l <= a * pow2 (- l) ->
  a * pow2 (- (l' + 1)) < b * pow2 (l' + 1) ->
  l <= l'.
Proof.
  intros Ha Hb H1 H2.
  destruct (Z.le_gt_cases l l') as [L|L]; [exact L|exfalso].
  set (K := Z.abs l + Z.abs l' + 1).
  apply (le_pow2_iff a b l K) in H1; unfold K; try lia.
  apply (lt_pow2_iff a b (l' + 1) K) in H2; unfold K; try lia.
  fold K in H1, H2.
  assert (M : 2 ^ (K + (l' + 1)) <= 2 ^ (K + l)) by (apply pow2_mono; unfold K; lia).
  assert (b * 2 ^ (K + (l' + 1)) <= b * 2 ^ (K + l)) by (apply Z.mul_le_mono_nonneg_l; lia).
  lia.
Qed.

Lemma nearest_even_exact (q d : Z) : 0 < d -> nearest_even (q * d) d = q.
Proof.
  intros Hd. unfold nearest_even. rewrite Z.div_mul, Z.mod_mul by lia.
  destruct (Z.ltb_spec (2 * 0) d); [reflexivity|lia].
Qed.

(** A fraction that is a binary64 value is its own Number value. *)
Lemma round_exact (s : bool) (m e a b : Z) :
  is_binary64 (Finite s m e) = true -> 0 < m -> 0 < a -> 0 < b ->
  a * pow2 (- e) = m * pow2 e * b ->
  round_binary64 s a b = Finite s m e.
Proof.
  intros Hx Hm Ha Hb Hab.
  assert (Hcases : (2 ^ 52 <= m < 2 ^ 53 /\ -1074 <= e <= 971) \/ (m < 2 ^ 52 /\ e = -1074)).
  { cbn [is_binary64] in Hx.
    apply orb_true_iff in Hx as [Hx|Hx]; [apply orb_true_iff in Hx as [Hx|Hx]|].
    - apply andb_true_iff in Hx as [Hx _]. apply Z.eqb_eq in Hx. lia.
    - left. repeat (apply andb_true_iff in Hx as [Hx ?]).
      apply Z.leb_le in Hx. apply Z.ltb_lt in H1. apply Z.leb_le in H0, H. lia.
    - right. repeat (apply andb_true_iff in Hx as [Hx ?]).
      apply Z.ltb_lt in H0. apply Z.eqb_eq in H. lia. }
  set (K := Z.abs e + Z.abs (Z.log2 m) + Z.abs (floor_log2 a b) + 1).
  assert (HK : 0 <= K) by (unfold K; lia).
  assert (Hval : a * 2 ^ K = m * b * 2 ^ (K + e)).
  { pose proof (pow2_shift e K HK ltac:(unfold K; lia)) as E.
    pose proof (pow2_pos (- e)) as P.
    apply (Z.mul_reg_l _ _ (pow2 (- e))); [lia|].
    replace (pow2 (- e) * (a * 2 ^ K)) with (a * pow2 (- e) * 2 ^ K) by ring.
    rewrite Hab.
    replace (m * pow2 e * b * 2 ^ K) with (m * b * (pow2 e * 2 ^ K)) by ring.
    rewrite E. ring. }
  pose proof (Z.log2_spec m Hm) as [M1 M2].
  pose proof (Z.log2_nonneg m) as Lm.
  assert (Hl : floor_log2 a b = Z.log2 m + e).
  { destruct (floor_log2_spec a b Ha Hb) as [F1 F2].
    apply Z.le_antisymm.
    - apply (floor_log2_order a b _ _ Ha Hb F1).
      apply (lt_pow2_iff a b (Z.log2 m + e + 1) K); unfold K; try lia. fold K.
      rewrite Hval.
      replace (K + (Z.log2 m + e + 1)) with (Z.succ (Z.log2 m) + (K + e)) by lia.
      rewrite (Z.pow_add_r 2 (Z.succ (Z.log2 m)) (K + e)) by (unfold K; lia).
      assert (0 < 2 ^ (K + e)) by (apply Z.pow_pos_nonneg; unfold K; lia).
      nia.
    - apply (floor_log2_order a b _ _ Ha Hb); [|exact F2].
      apply (le_pow2_iff a b (Z.log2 m + e) K); unfold K; try lia. fold K.
      rewrite Hval.
      replace (K + (Z.log2 m + e)) with (Z.log2 m + (K + e)) by lia.
      rewrite (Z.pow_add_r 2 (Z.log2 m) (K + e)) by (unfold K; lia).
      assert (0 < 2 ^ (K + e)) by (apply Z.pow_pos_nonneg; unfold K; lia).
      nia. }
  assert (Hu : Z.max (floor_log2 a b - 52) (-1074) = e).
  { rewrite Hl. destruct Hcases as [[Hm' He]|[Hm' He]].
    - assert (Z.log2 m = 52) by (apply Z.log2_unique; lia). lia.
    - assert (Z.log2 m < 52) by (apply Z.log2_lt_pow2; lia). lia. }
  unfold round_binary64.
  destruct (Z.eqb_spec a 0) as [|_]; [lia|].
  rewrite Hu, Hab.
  replace (m * pow2 e * b) with (m * (b * pow2 e)) by ring.
  rewrite nearest_even_exact by (pose proof (pow2_pos e); nia).
  destruct (Z.eqb_spec m (2 ^ 53)) as [|_]; [lia|].
  destruct (Z.ltb_spec 971 e) as [|_]; [lia|].
  destruct (Z.eqb_spec m 0) as [|_]; [lia|]. reflexivity.
Qed.

End BinaryRounding.

Section ShortestDigits.

Local Open Scope Z_scope.

Import Number.

Lemma same_eq (x y : number) : same x y = true -> x = y.
Proof.
  destruct x as [s m e|s], y as [s' m' e'|s']; cbn [same]; try discriminate.
  - intros H. apply andb_true_iff in H as [H He]. apply andb_true_iff in H as [Hs Hm].
    apply Bool.eqb_prop in Hs. apply Z.eqb_eq in Hm, He. now subst.
  - intros H. apply Bool.eqb_prop in H. now subst.
Qed.

Lemma same_refl (x : number) : same x x = true.
Proof.
  destruct x as [s m e|s]; cbn [same]; rewrite ?Bool.eqb_reflx, ?Z.eqb_refl; reflexivity.
Qed.

Lemma round_binary64_sign (s : bool) (a b : Z) :
  round_binary64 s a b = with_sign s (round_binary64 false a b).
Proof.
  unfold round_binary64. destruct (a =? 0); [reflexivity|]. cbv zeta.
  destruct (nearest_even _ _ =? 2 ^ 53).
  - destruct (971 <? _); [reflexivity|]. destruct (2 ^ 52 =? 0); reflexivity.
  - destruct (971 <? _); [reflexivity|]. destruct (nearest_even _ _ =? 0); reflexivity.
Qed.

Lemma strip_zeros_value (fuel : nat) :
  forall s E s' E',
    strip_zeros fuel s E = (s', E') -> E <= E' /\ s = s' * 10 ^ (E' - E).
Proof.
  induction fuel as [|f IH]; intros s E s' E' H; cbn [strip_zeros] in H.
  - injection H as <- <-. rewrite Z.sub_diag. cbn. lia.
  - destruct (Z.eqb_spec (s mod 10) 0) as [Hz|_].
    + apply IH in H as [H1 H2]. split; [lia|].
      replace (E' - E) with (1 + (E' - (E + 1))) by lia.
      rewrite Z.pow_add_r by lia.
      pose proof (Z.div_mod s 10 ltac:(lia)) as D. rewrite Hz in D.
      change (10 ^ 1) with 10.
      replace (s' * (10 * 10 ^ (E' - (E + 1)))) with (10 * (s' * 10 ^ (E' - (E + 1))))
        by ring.
      rewrite <- H2. lia.
    + injection H as <- <-. rewrite Z.sub_diag. cbn. lia.
Qed.

Lemma pow10_quotient (E E' : Z) :
  E <= E' -> pow10 E' * pow10 (- E) = 10 ^ (E' - E) * pow10 E * pow10 (- E').
Proof.
  intros H.
  destruct (Z.le_gt_cases 0 E) as [H0|H0].
  - rewrite (pow10_nonneg E'), (pow10_nonpos (- E)), (pow10_nonneg E),
      (pow10_nonpos (- E')) by lia.
    rewrite <- Z.pow_add_r by lia. replace (E' - E + E) with E' by lia. lia.
  - destruct (Z.le_gt_cases 0 E') as [H1|H1].
    + rewrite (pow10_nonneg E'), (pow10_nonneg (- E)), (pow10_nonpos E),
        (pow10_nonpos (- E')) by lia.
      rewrite <- Z.pow_add_r by lia. replace (E' + - E) with (E' - E) by lia. lia.
    + rewrite (pow10_nonpos E'), (pow10_nonneg (- E)), (pow10_nonpos E),
        (pow10_nonneg (- E')) by lia.
      rewrite Z.mul_1_r, Z.mul_1_l, <- Z.pow_add_r by lia. f_equal. lia.
Qed.

Lemma exact_strip (s E s' E' m e : Z) :
  exact s E m e -> E <= E' -> s = s' * 10 ^ (E' - E) -> exact s' E' m e.
Proof.
  unfold exact. intros H HE Hs.
  pose proof (pow10_quotient E E' HE) as Q.
  pose proof (pow10_pos (- E)) as P.
  apply (Z.mul_reg_r _ _ (pow10 (- E))); [lia|].
  replace (s' * pow10 E' * pow2 (- e) * pow10 (- E))
    with (s' * (pow10 E' * pow10 (- E)) * pow2 (- e)) by ring.
  rewrite Q.
  replace (s' * (10 ^ (E' - E) * pow10 E * pow10 (- E')) * pow2 (- e))
    with (s' * 10 ^ (E' - E) * pow10 E * pow2 (- e) * pow10 (- E')) by ring.
  rewrite <- Hs, H. ring.
Qed.

Lemma reads_as_sound (x : number) (s E s' E' : Z) :
  reads_as x s E = Some (s', E') -> 0 < s' /\ of_decimal false s' E' = x.
Proof.
  unfold reads_as. destruct (strip_zeros _ s E) as [s1 E1].
  destruct (0 <? s1) eqn:Hs; cbn [andb]; [|discriminate].
  destruct (same (of_decimal false s1 E1) x) eqn:Hx; [|discriminate].
  intros [= <- <-]. apply Z.ltb_lt in Hs. split; [exact Hs|now apply same_eq].
Qed.

Lemma reads_as_exact (m e s E : Z) :
  is_binary64 (Finite false m e) = true -> 0 < m -> 0 < s -> exact s E m e ->
  reads_as (Finite false m e) s E <> None.
Proof.
  intros Hx Hm Hs He. unfold reads_as.
  destruct (strip_zeros _ s E) as [s1 E1] eqn:Hz.
  apply strip_zeros_value in Hz as [HE Hv].
  assert (H1 : 0 < s1).
  { assert (0 < 10 ^ (E1 - E)) by (apply Z.pow_pos_nonneg; lia). nia. }
  assert (Hr : of_decimal false s1 E1 = Finite false m e).
  { unfold of_decimal. apply round_exact; try assumption.
    - pose proof (pow10_pos E1). nia.
    - apply pow10_pos.
    - exact (exact_strip s E s1 E1 m e He HE Hv). }
  rewrite Hr, same_refl. destruct (Z.ltb_spec 0 s1); [discriminate|lia].
Qed.

Lemma candidate_sound (x : number) (a b E s E' : Z) :
  candidate x a b E = Some (s, E') -> 0 < s /\ of_decimal false s E' = x.
Proof.
  unfold candidate. cbv zeta.
  destruct (reads_as x _ E) as [[s1 E1]|] eqn:H1.
  - intros [= <- <-]. exact (reads_as_sound _ _ _ _ _ H1).
  - apply reads_as_sound.
Qed.

(** Where [10^E] divides the number, the multiple of [10^E] below it is
    the number, and it reads as the number. *)
Lemma candidate_exact (m e E : Z) :
  is_binary64 (Finite false m e) = true -> 0 < m -> E <= e -> E <= 0 ->
  candidate (Finite false m e) (m * pow2 e) (pow2 (- e)) E <> None.
Proof.
  intros Hx Hm He H0. unfold candidate. cbv zeta.
  rewrite (pow10_nonneg (- E)), (pow10_nonpos E), Z.mul_1_r by lia.
  assert (Hq : exists q, m * pow2 e * 10 ^ (- E) = q * pow2 (- e) /\ 0 < q).
  { destruct (Z.le_gt_cases 0 e) as [Hp|Hn].
    - rewrite (pow2_nonpos (- e)) by lia. exists (m * pow2 e * 10 ^ (- E)).
      split; [ring|]. pose proof (pow2_pos e).
      assert (0 < 10 ^ (- E)) by (apply Z.pow_pos_nonneg; lia). nia.
    - rewrite (pow2_nonpos e), (pow2_nonneg (- e)) by lia.
      exists (m * 10 ^ (- E - - e) * 5 ^ (- e)).
      assert (P10 : 10 ^ (- E) = 10 ^ (- E - - e) * 10 ^ (- e))
        by (rewrite <- Z.pow_add_r by lia; f_equal; lia).
      assert (P5 : 10 ^ (- e) = 5 ^ (- e) * 2 ^ (- e))
        by (rewrite <- Z.pow_mul_l; reflexivity).
      split.
      + rewrite P10, P5. ring.
      + assert (0 < 10 ^ (- E - - e)) by (apply Z.pow_pos_nonneg; lia).
        assert (0 < 5 ^ (- e)) by (apply Z.pow_pos_nonneg; lia). nia. }
  destruct Hq as (q & Hq & Hqpos).
  pose proof (pow2_pos (- e)) as P.
  rewrite Hq, Z.div_mul, Z.mod_mul by lia.
  destruct (Z.ltb_spec (2 * 0) (pow2 (- e))) as [_|]; [|lia]. cbn [orb].
  assert (Hex : exact q E m e).
  { unfold exact. rewrite (pow10_nonneg (- E)), (pow10_nonpos E) by lia. lia. }
  pose proof (reads_as_exact m e q E Hx Hm Hqpos Hex) as Hr.
  destruct (reads_as (Finite false m e) q E); [discriminate|contradiction].
Qed.

Lemma shortest_sound (fuel : nat) (x : number) (a b : Z) :
  forall E s E',
    shortest fuel x a b E = Some (s, E') -> 0 < s /\ of_decimal false s E' = x.
Proof.
  induction fuel as [|f IH]; intros E s E' H; cbn [shortest] in H; [discriminate|].
  destruct (candidate x a b E) as [[s1 E1]|] eqn:Hc.
  - injection H as <- <-. exact (candidate_sound _ _ _ _ _ _ Hc).
  - exact (IH _ _ _ H).
Qed.

Lemma shortest_found (x : number) (a b last : Z) (fuel : nat) :
  (forall E, E <= last -> candidate x a b E <> None) ->
  forall E, E - Z.of_nat fuel + 1 <= last -> (0 < fuel)%nat ->
            shortest fuel x a b E <> None.
Proof.
  intros Hlast. induction fuel as [|f IH]; intros E HE Hf; [lia|].
  cbn [shortest]. destruct (candidate x a b E) as [d|] eqn:Hc; [discriminate|].
  assert (last < E).
  { destruct (Z.le_gt_cases E last) as [L|L]; [|lia].
    exfalso. exact (Hlast E L Hc). }
  apply IH; lia.
Qed.

(** The digits of a binary64 value exist and read as the value. *)
Lemma shortest_decimal_reads (m e : Z) :
  is_binary64 (Finite false m e) = true -> 0 < m ->
  exists s E, shortest_decimal m e = Some (s, E) /\ 0 < s /\
              of_decimal false s E = Finite false m e.
Proof.
  intros Hx Hm. unfold shortest_decimal. cbv zeta.
  set (n := magnitude (m * pow2 e) (pow2 (- e))).
  set (last := Z.min (n - 1) (Z.min e 0)).
  destruct (shortest (Z.to_nat (n - last)) (Finite false m e) (m * pow2 e) (pow2 (- e))
                     (n - 1)) as [[s E]|] eqn:H.
  - exists s, E. split; [reflexivity|]. exact (shortest_sound _ _ _ _ _ _ _ H).
  - exfalso. revert H.
    apply (shortest_found _ _ _ last).
    + intros E HE. apply candidate_exact; try assumption; unfold last in HE; lia.
    + rewrite Z2Nat.id by (unfold last; lia). lia.
    + unfold last. lia.
Qed.

End ShortestDigits.

Section NumberLayout.

Lemma digit_cases (c : N) :
  is_digit c = true ->
  c = 48 \/ c = 49 \/ c = 50 \/ c = 51 \/ c = 52 \/ c = 53 \/ c = 54 \/ c = 55
  \/ c = 56 \/ c = 57.
Proof.
  unfold is_digit. intros H. apply andb_true_iff in H as [A B].
  apply N.leb_le in A, B. lia.
Qed.

Lemma of_uint_acc_fold (s : jsstring) :
  forallb is_digit s = true ->
  forall acc : positive,
    N.pos (Pos.of_uint_acc (uint_of_chars s) acc) = fold_left digit_step s (N.pos acc).
Proof.
  induction s as [|c s IH]; intros Hs acc; [reflexivity|].
  cbn [forallb] in Hs. apply andb_true_iff in Hs as [Hc Hs].
  cbn [fold_left]. unfold uint_of_chars. cbn [fold_right].
  fold (uint_of_chars s).
  destruct (digit_cases c Hc) as [->|[->|[->|[->|[->|[->|[->|[->|[->| ->]]]]]]]]];
    cbn [digit_cons N.eqb Pos.eqb Pos.of_uint_acc]; rewrite (IH Hs); f_equal;
      unfold digit_step; lia.
Qed.

Lemma N_of_chars_fold (s : jsstring) :
  forallb is_digit s = true -> N_of_chars s = fold_left digit_step s 0.
Proof.
  unfold N_of_chars, N.of_uint.
  induction s as [|c s IH]; intros Hs; [reflexivity|].
  cbn [forallb] in Hs. apply andb_true_iff in Hs as [Hc Hs].
  cbn [fold_left]. unfold uint_of_chars. cbn [fold_right].
  fold (uint_of_chars s).
  destruct (digit_cases c Hc) as [->|[->|[->|[->|[->|[->|[->|[->|[->| ->]]]]]]]]];
    cbn [digit_cons N.eqb Pos.eqb Pos.of_uint];
    try (rewrite (of_uint_acc_fold s Hs); reflexivity).
  rewrite (IH Hs). reflexivity.
Qed.

Lemma fold_digits_zeros (j : nat) (v : N) :
  fold_left digit_step (repeat 48 j) v = v * 10 ^ N.of_nat j.
Proof.
  revert v. induction j as [|j IH]; intros v.
  - cbn. lia.
  - cbn [repeat fold_left]. rewrite IH. unfold digit_step.
    rewrite Nat2N.inj_succ, N.pow_succ_r'. lia.
Qed.

Lemma forallb_repeat_digit (j : nat) : forallb is_digit (repeat 48 j) = true.
Proof. induction j; [reflexivity|exact IHj]. Qed.

Lemma N_of_chars_zeros_after (ds : jsstring) (j : nat) :
  forallb is_digit ds = true ->
  N_of_chars (ds ++ repeat 48 j) = N_of_chars ds * 10 ^ N.of_nat j.
Proof.
  intros H. rewrite !N_of_chars_fold; [|exact H|].
  - rewrite fold_left_app. apply fold_digits_zeros.
  - rewrite forallb_app, H. apply forallb_repeat_digit.
Qed.

Lemma N_of_chars_zeros_before (ds : jsstring) (j : nat) :
  forallb is_digit ds = true ->
  N_of_chars (repeat 48 j ++ ds) = N_of_chars ds.
Proof.
  intros H. rewrite !N_of_chars_fold; [|exact H|].
  - rewrite fold_left_app, fold_digits_zeros. reflexivity.
  - rewrite forallb_app, H, forallb_repeat_digit. reflexivity.
Qed.

(** The digits end where something else than a digit stands. *)
Lemma span_digits_stop (ds : jsstring) (x : N) (r : jsstring) :
  forallb is_digit ds = true -> is_digit x = false ->
  span_digits (ds ++ x :: r) = (ds, x :: r).
Proof.
  intros Hd Hx. induction ds as [|c ds IH]; cbn [app span_digits].
  - now rewrite Hx.
  - cbn [forallb] in Hd. apply andb_true_iff in Hd as [H1 H2].
    now rewrite H1, (IH H2).
Qed.

Lemma parse_frac_part_none (rest : jsstring) :
  delimited rest -> parse_frac_part rest = Some ([], rest).
Proof.
  intros Hr. destruct rest as [|c r]; [reflexivity|].
  apply delimited_not_digit in Hr as (_ & H & _).
  cbn [parse_frac_part]. apply N.eqb_neq in H. now rewrite H.
Qed.

Lemma parse_exp_part_none (rest : jsstring) :
  delimited rest -> parse_exp_part rest = Some (0%Z, rest).
Proof.
  intros Hr. destruct rest as [|c r]; [reflexivity|].
  apply delimited_not_digit in Hr as (_ & _ & H1 & H2 & _).
  cbn [parse_exp_part]. apply N.eqb_neq in H1, H2. now rewrite H1, H2.
Qed.

Lemma parse_exp_part_chars (ex : Z) (rest : jsstring) :
  delimited rest ->
  parse_exp_part (101 :: exponent_chars ex ++ rest) = Some (ex, rest).
Proof.
  intros Hr. unfold exponent_chars. cbn [parse_exp_part app].
  change (101 =? 101) with true. cbn [orb].
  destruct (Z.ltb_spec ex 0) as [H|H].
  - change (45 =? 45) with true. cbv iota.
    rewrite (parse_exp_digits_chars true _ rest Hr). f_equal. f_equal. lia.
  - change (43 =? 45) with false. change (43 =? 43) with true. cbv iota.
    rewrite (parse_exp_digits_chars false _ rest Hr). f_equal. f_equal. lia.
Qed.

Lemma parse_frac_part_digits (ds rest : jsstring) :
  ds <> [] -> forallb is_digit ds = true ->
  (delimited rest \/ exists r, rest = 101 :: r) ->
  parse_frac_part (46 :: ds ++ rest) = Some (ds, rest).
Proof.
  intros Hn Hd Hr. cbn [parse_frac_part]. change (46 =? 46) with true. cbv iota.
  assert (E : span_digits (ds ++ rest) = (ds, rest)).
  { destruct Hr as [Hr|(r & ->)].
    - now apply span_digits_app.
    - now apply span_digits_stop. }
  rewrite E. destruct ds; [contradiction|reflexivity].
Qed.

Lemma not_minus_digit (c : N) : is_digit c = true -> (c =? 45) = false.
Proof.
  intros H. destruct (digit_cases c H) as [->|[->|[->|[->|[->|[->|[->|[->|[->| ->]]]]]]]]];
    reflexivity.
Qed.

Import Number.

(** What [JSON.parse] reads in the text [Number::toString] lays out. *)
Lemma parse_layout (negative : bool) (d E : Z) (rest : jsstring) :
  (0 < d)%Z -> delimited rest ->
  parse_number
    ((if negative then [45] else [])
       ++ layout (N_chars (Z.to_N d)) (E + Z.of_nat (length (N_chars (Z.to_N d)))) ++ rest)
  = Some (JNum (of_decimal negative d E), rest).
Proof.
  intros Hd Hr.
  destruct (N_chars_shape (Z.to_N d)) as (c & t & Hds & Hc & Ht & Hzero).
  assert (Hval : N_of_chars (c :: t) = Z.to_N d) by (rewrite <- Hds; apply N_of_chars_chars).
  assert (Hc0 : (c =? 48) = false).
  { apply N.eqb_neq. intros ->. rewrite (Hzero eq_refl) in Hval.
    change (N_of_chars [48]) with 0 in Hval. lia. }
  assert (Hall : forallb is_digit (c :: t) = true) by (cbn [forallb]; now rewrite Hc, Ht).
  rewrite Hds.
  set (k := Z.of_nat (length (c :: t))).
  set (n := (E + k)%Z).
  assert (Hk : (1 <= k)%Z) by (unfold k; cbn [length]; lia).
  (* the sign *)
  assert (Hsign : forall body : jsstring,
             (exists c' r', body = c' :: r' /\ is_digit c' = true) ->
             parse_number ((if negative then [45] else []) ++ body)
             = match parse_int_part body with
               | None => None
               | Some (ip, s2) =>
                 match parse_frac_part s2 with
                 | None => None
                 | Some (fp, s3) =>
                   match parse_exp_part s3 with
                   | None => None
                   | Some (ex, s4) =>
                     Some (JNum (of_decimal negative (Z.of_N (N_of_chars (ip ++ fp)))
                                            (ex - Z.of_nat (length fp))%Z), s4)
                   end
                 end
               end).
  { intros body (c' & r' & -> & Hc'). unfold parse_number.
    destruct negative; cbn [app].
    - change (45 =? 45) with true. reflexivity.
    - rewrite (not_minus_digit c' Hc'). reflexivity. }
  unfold layout. fold k.
  destruct ((k <=? n)%Z && (n <=? 21)%Z) eqn:CA.
  { (* the digits, then zeros *)
    apply andb_true_iff in CA as [CA _]. apply Z.leb_le in CA.
    rewrite Hsign by (eexists; eexists; split; [reflexivity|exact Hc]).
    cbn [app parse_int_part]. rewrite Hc0, Hc.
    rewrite (span_digits_app (t ++ repeat 48 (Z.to_nat (n - k))) rest)
      by (try exact Hr; rewrite forallb_app, Ht; apply forallb_repeat_digit).
    rewrite parse_frac_part_none, parse_exp_part_none by exact Hr.
    rewrite List.app_nil_r.
    change (c :: t ++ repeat 48 (Z.to_nat (n - k)))
      with ((c :: t) ++ repeat 48 (Z.to_nat (n - k))).
    rewrite N_of_chars_zeros_after, Hval by exact Hall.
    f_equal. f_equal. f_equal. unfold of_decimal.
    replace (n - k)%Z with E in * by (unfold n; lia).
    cbn [length]. change (0 - Z.of_nat 0)%Z with 0%Z.
    rewrite (pow10_nonneg E), (pow10_nonpos (- E)) by lia.
    change (pow10 0) with 1%Z. change (pow10 (- 0)) with 1%Z.
    f_equal. rewrite N2Z.inj_mul, N2Z.inj_pow, Z2N.id by lia.
    change (Z.of_N 10) with 10%Z. rewrite nat_N_Z, Z2Nat.id by lia. ring. }
  destruct ((0 <? n)%Z && (n <=? 21)%Z) eqn:CB.
  { (* digits, the point, digits *)
    assert (Hn : (0 < n < k)%Z).
    { apply andb_true_iff in CB as [C1 C2]. apply Z.ltb_lt in C1.
      rewrite C2, andb_true_r in CA. apply Z.leb_gt in CA. lia. }
    rewrite Hsign.
    2:{ destruct (Z.to_nat n) as [|i] eqn:En; [lia|].
        cbn [firstn app]. eexists; eexists; split; [reflexivity|exact Hc]. }
    destruct (Z.to_nat n) as [|i] eqn:En; [lia|].
    cbn [firstn skipn app parse_int_part]. rewrite Hc0, Hc.
    assert (Hfs : forallb is_digit (firstn i t) = true /\
                  forallb is_digit (skipn i t) = true).
    { apply andb_true_iff. rewrite <- forallb_app, firstn_skipn. exact Ht. }
    destruct Hfs as [Hf Hs].
    assert (Hlen : (i < length t)%nat) by (unfold k in Hn; cbn [length] in Hn; lia).
    assert (Hne : skipn i t <> []).
    { intros Hnil. apply (f_equal (@length N)) in Hnil.
      rewrite length_skipn in Hnil. cbn [length] in Hnil. lia. }
    rewrite <- List.app_assoc. cbn [app].
    rewrite (span_digits_stop (firstn i t) 46 _ Hf eq_refl).
    rewrite (parse_frac_part_digits (skipn i t) rest Hne Hs (or_introl Hr)).
    rewrite (parse_exp_part_none rest Hr).
    change (c :: firstn i t) with (firstn (S i) (c :: t)).
    change (skipn i t) with (skipn (S i) (c :: t)) at 1.
    rewrite firstn_skipn, Hval.
    f_equal. f_equal. f_equal. rewrite Z2N.id by lia. f_equal.
    rewrite length_skipn. unfold n, k in *. cbn [length] in *. lia. }
  destruct ((-6 <? n)%Z && (n <=? 0)%Z) eqn:CC.
  { (* zero, the point, zeros, the digits *)
    assert (Hn : (n <= 0)%Z).
    { apply andb_true_iff in CC as [_ C2]. now apply Z.leb_le in C2. }
    rewrite Hsign by (eexists; eexists; split; [reflexivity|reflexivity]).
    cbn [app parse_int_part]. change (48 =? 48) with true. cbv iota.
    rewrite (parse_frac_part_digits (repeat 48 (Z.to_nat (- n)) ++ c :: t) rest).
    2:{ intros Hnil. apply app_eq_nil in Hnil as [_ Hnil]. discriminate Hnil. }
    2:{ rewrite forallb_app, forallb_repeat_digit. exact Hall. }
    2:{ left. exact Hr. }
    rewrite (parse_exp_part_none rest Hr).
    change ([48] ++ repeat 48 (Z.to_nat (- n)) ++ c :: t)
      with (repeat 48 (S (Z.to_nat (- n))) ++ c :: t).
    rewrite N_of_chars_zeros_before, Hval by exact Hall.
    f_equal. f_equal. f_equal. rewrite Z2N.id by lia. f_equal.
    rewrite length_app, repeat_length. unfold n, k in *. cbn [length] in *. lia. }
  (* the exponent form *)
  destruct t as [|c2 t2].
  - rewrite Hsign by (eexists; eexists; split; [reflexivity|exact Hc]).
    cbn [app parse_int_part]. rewrite Hc0, Hc.
    cbn [span_digits]. change (is_digit 101) with false. cbv iota.
    cbn [parse_frac_part]. change (101 =? 46) with false. cbv iota.
    rewrite (parse_exp_part_chars (n - 1) rest Hr).
    rewrite List.app_nil_r, Hval.
    f_equal. f_equal. f_equal. rewrite Z2N.id by lia. f_equal.
    unfold n, k. cbn [length]. lia.
  - rewrite Hsign by (eexists; eexists; split; [reflexivity|exact Hc]).
    cbn [app parse_int_part]. rewrite Hc0, Hc.
    cbn [span_digits]. change (is_digit 46) with false. cbv iota.
    rewrite <- List.app_assoc. cbn [app].
    change (c2 :: t2 ++ 101 :: exponent_chars (n - 1) ++ rest)
      with ((c2 :: t2) ++ 101 :: exponent_chars (n - 1) ++ rest).
    rewrite (parse_frac_part_digits (c2 :: t2) (101 :: exponent_chars (n - 1) ++ rest))
      by (try discriminate; try exact Ht; right; eexists; reflexivity).
    rewrite (parse_exp_part_chars (n - 1) rest Hr).
    change ([c] ++ c2 :: t2) with (c :: c2 :: t2). rewrite Hval.
    f_equal. f_equal. f_equal. rewrite Z2N.id by lia. f_equal.
    unfold n, k. cbn [length]. lia.
Qed.

End NumberLayout.

Section NumberRoundTrip.

Import Number.

Lemma binary64_positive (s : bool) (m e : Z) :
  is_binary64 (Finite s m e) = true -> (m =? 0)%Z = false -> (0 < m)%Z.
Proof.
  cbn [is_binary64]. intros H Hm. rewrite Hm in H. cbn [andb orb] in H.
  apply orb_true_iff in H as [H|H]; repeat (apply andb_true_iff in H as [H ?]).
  - apply Z.leb_le in H. lia.
  - now apply Z.ltb_lt in H.
Qed.

Lemma of_decimal_sign (s : bool) (d E m e : Z) :
  of_decimal false d E = Finite false m e -> of_decimal s d E = Finite s m e.
Proof.
  unfold of_decimal. intros H. rewrite round_binary64_sign, H. reflexivity.
Qed.

(** A finite binary64 value comes back from its text; [-0], written as
    [0], comes back as [+0]. *)
Lemma parse_number_to_string (s : bool) (m e : Z) (rest : jsstring) :
  is_binary64 (Finite s m e) = true -> delimited rest ->
  parse_number (number_to_string (Finite s m e) ++ rest)
  = Some (JNum (if (m =? 0)%Z then Finite false 0 0 else Finite s m e), rest).
Proof.
  intros Hx Hr. cbn [number_to_string].
  destruct (m =? 0)%Z eqn:Hm.
  - unfold parse_number. cbn [app]. change (48 =? 45) with false. cbv iota.
    cbn [parse_int_part]. change (48 =? 48) with true. cbv iota.
    rewrite parse_frac_part_none, parse_exp_part_none by exact Hr. reflexivity.
  - pose proof (binary64_positive s m e Hx Hm) as Hpos.
    assert (Hx' : is_binary64 (Finite false m e) = true) by exact Hx.
    destruct (shortest_decimal_reads m e Hx' Hpos) as (d & E & Hd & Hd0 & Hread).
    rewrite Hd. cbv zeta. rewrite <- List.app_assoc.
    rewrite (parse_layout s d E rest Hd0 Hr).
    now rewrite (of_decimal_sign s d E m e Hread).
Qed.

Lemma parse_json_number (x : number) (rest : jsstring) :
  json_number x = true -> delimited rest ->
  parse_number (number_to_string x ++ rest) = Some (JNum x, rest).
Proof.
  unfold json_number. intros H Hr. apply andb_true_iff in H as [Hx Hz].
  destruct x as [s m e|s]; [|discriminate Hz].
  rewrite (parse_number_to_string s m e rest Hx Hr).
  destruct (m =? 0)%Z eqn:Hm; [|reflexivity].
  rewrite andb_true_r in Hz. apply negb_true_iff in Hz. subst s.
  apply Z.eqb_eq in Hm. subst m.
  cbn [is_binary64] in Hx. change (0 =? 0)%Z with true in Hx.
  change (2 ^ 52 <=? 0)%Z with false in Hx. change (0 <? 0)%Z with false in Hx.
  cbn [andb orb] in Hx. rewrite !orb_false_r in Hx. apply Z.eqb_eq in Hx. now subst e.
Qed.

(** The text of a number is made of ASCII characters and starts with a
    digit or a minus sign. *)
Lemma N_chars_ascii (n : N) : Forall (fun c => c < 128) (N_chars n).
Proof.
  unfold N_chars. induction (N.to_uint n); cbn [uint_chars]; constructor;
    (lia || assumption).
Qed.

Lemma repeat_ascii (c : N) (j : nat) : c < 128 -> Forall (fun c => c < 128) (repeat c j).
Proof. intros H. induction j; cbn [repeat]; constructor; assumption. Qed.

Lemma Forall_firstn_ascii (n : nat) (l : jsstring) :
  Forall (fun c => c < 128) l -> Forall (fun c => c < 128) (firstn n l).
Proof.
  intros H. revert n. induction H as [|x l Hx _ IH]; intros [|n]; cbn [firstn];
    constructor; auto.
Qed.

Lemma Forall_skipn_ascii (n : nat) (l : jsstring) :
  Forall (fun c => c < 128) l -> Forall (fun c => c < 128) (skipn n l).
Proof.
  intros H. revert n. induction H as [|x l Hx Hl IH]; intros [|n]; cbn [skipn];
    try constructor; auto.
Qed.

Lemma exponent_chars_ascii (ex : Z) : Forall (fun c => c < 128) (exponent_chars ex).
Proof.
  unfold exponent_chars. constructor; [destruct (ex <? 0)%Z; lia|apply N_chars_ascii].
Qed.

Lemma layout_ascii (ds : jsstring) (n : Z) :
  Forall (fun c => c < 128) ds -> Forall (fun c => c < 128) (layout ds n).
Proof.
  intros H. unfold layout.
  destruct (_ && _).
  { apply Forall_app. split; [exact H|apply repeat_ascii; lia]. }
  destruct (_ && _).
  { apply Forall_app. split; [now apply Forall_firstn_ascii|].
    constructor; [lia|now apply Forall_skipn_ascii]. }
  destruct (_ && _).
  { constructor; [lia|]. constructor; [lia|].
    apply Forall_app. split; [apply repeat_ascii; lia|exact H]. }
  destruct ds as [|c [|c2 t]]; [constructor| |].
  - inversion H; subst. constructor; [assumption|].
    constructor; [lia|apply exponent_chars_ascii].
  - inversion H as [|? ? Hc Ht]; subst. constructor; [assumption|].
    constructor; [lia|]. apply Forall_app. split; [exact Ht|].
    constructor; [lia|apply exponent_chars_ascii].
Qed.

Lemma number_to_string_ascii (x : number) : Forall (fun c => c < 128) (number_to_string x).
Proof.
  destruct x as [s m e|s]; cbn [number_to_string].
  - destruct (m =? 0)%Z; [repeat constructor|].
    apply Forall_app. split; [destruct s; repeat constructor|].
    destruct (shortest_decimal m e) as [[d E]|]; [|repeat constructor].
    apply layout_ascii, N_chars_ascii.
  - apply Forall_app. split; [destruct s; repeat constructor|].
    unfold lit_infinity. repeat constructor.
Qed.

Lemma layout_head (c : N) (t : jsstring) (n : Z) :
  is_digit c = true -> exists c' t', layout (c :: t) n = c' :: t' /\ is_digit c' = true.
Proof.
  intros Hc. unfold layout.
  destruct ((Z.of_nat (length (c :: t)) <=? n)%Z && (n <=? 21)%Z).
  { eexists; eexists; split; [reflexivity|exact Hc]. }
  destruct ((0 <? n)%Z && (n <=? 21)%Z) eqn:CB.
  { apply andb_true_iff in CB as [CB _]. apply Z.ltb_lt in CB.
    destruct (Z.to_nat n) as [|i] eqn:E; [lia|].
    eexists; eexists; split; [reflexivity|exact Hc]. }
  destruct ((-6 <? n)%Z && (n <=? 0)%Z).
  { eexists; eexists; split; reflexivity. }
  destruct t; eexists; eexists; split; try reflexivity; exact Hc.
Qed.

Lemma number_to_string_head (s : bool) (m e : Z) :
  exists c t, number_to_string (Finite s m e) = c :: t /\ (is_digit c = true \/ c = 45).
Proof.
  cbn [number_to_string]. destruct (m =? 0)%Z.
  { eexists; eexists; split; [reflexivity|left; reflexivity]. }
  destruct s; cbn [app].
  { eexists; eexists; split; [reflexivity|right; reflexivity]. }
  destruct (shortest_decimal m e) as [[d E]|].
  - destruct (N_chars_shape (Z.to_N d)) as (c & t & Hds & Hc & _). rewrite Hds.
    destruct (layout_head c t (E + Z.of_nat (length (c :: t))) Hc) as (c' & t' & -> & Hc').
    eexists; eexists; split; [reflexivity|left; exact Hc'].
  - eexists; eexists; split; [reflexivity|left; reflexivity].
Qed.

End NumberRoundTrip.

Section RandomCount.

Local Open Scope Z_scope.

Import Number.

Lemma nearest_even_nonneg (n d : Z) : 0 <= n -> 0 < d -> 0 <= nearest_even n d.
Proof.
  intros Hn Hd. unfold nearest_even.
  pose proof (Z.div_pos n d Hn Hd).
  destruct (2 * (n mod d) <? d); [assumption|].
  destruct (d <? 2 * (n mod d)); [lia|]. destruct (Z.even (n / d)); lia.
Qed.

(** A fraction below [K + 1/2] rounds to [K] at most. *)
Lemma nearest_even_below (n d K : Z) :
  0 < d -> 2 * n < (2 * K + 1) * d -> nearest_even n d <= K.
Proof.
  intros Hd H. unfold nearest_even.
  pose proof (Z.div_mod n d ltac:(lia)) as D.
  pose proof (Z.mod_pos_bound n d Hd) as B.
  destruct (Z.ltb_spec (2 * (n mod d)) d) as [L|L]; [nia|].
  destruct (Z.ltb_spec d (2 * (n mod d))) as [G|G]; [nia|].
  destruct (Z.even (n / d)); nia.
Qed.

(** [Math.floor(x * 3)] for a number [x = n / d] from 0 up to the
    greatest binary64 value below 1, the product being rounded to
    binary64. *)
Lemma floor_times_three (n d : Z) :
  0 <= n -> 0 < d -> n * 2 ^ 53 <= (2 ^ 53 - 1) * d ->
  0 <= floor (round_binary64 false (n * 3) d) <= 2.
Proof.
  intros Hn Hd Hlt. unfold round_binary64.
  destruct (Z.eqb_spec (n * 3) 0) as [|Hz].
  { cbn. lia. }
  assert (Ha : 0 < n * 3) by lia.
  set (a := n * 3) in *.
  destruct (floor_log2_spec a d Ha Hd) as [F1 F2].
  set (l := floor_log2 a d) in *.
  assert (Hl : l <= 1).
  { destruct (Z.le_gt_cases l 1) as [H|H]; [exact H|exfalso].
    rewrite (pow2_nonneg l), (pow2_nonpos (- l)) in F1 by lia.
    assert (2 ^ 2 <= 2 ^ l) by (apply Z.pow_le_mono_r; lia).
    change (2 ^ 2) with 4 in *. unfold a in *. nia. }
  set (u := Z.max (l - 52) (-1074)).
  assert (Hu : u <= -51) by (unfold u; lia).
  assert (Hu' : -1074 <= u) by (unfold u; lia).
  rewrite (pow2_nonpos u), (pow2_nonneg (- u)), Z.mul_1_r by lia.
  set (mm := nearest_even (a * 2 ^ (- u)) d).
  assert (P : 0 < 2 ^ (- u)) by (apply Z.pow_pos_nonneg; lia).
  assert (Hmm0 : 0 <= mm) by (apply nearest_even_nonneg; nia).
  assert (Hbound : mm < 3 * 2 ^ (- u) /\ (mm = 2 ^ 53 -> - u - 1 >= 51)).
  { destruct (Z.eq_dec l 1) as [E1|N1].
    - assert (Eu : u = -51) by (unfold u; lia).
      assert (mm <= 3 * 2 ^ 51 - 1).
      { unfold mm. rewrite Eu. apply nearest_even_below; [exact Hd|].
        change (- -51) with 51. unfold a. 
        change (2 ^ 53) with (4 * 2 ^ 51) in Hlt. 
        assert (0 < 2 ^ 51) by reflexivity. nia. }
      rewrite Eu. change (- -51) with 51. split; [lia|].
      intros E. exfalso. rewrite E in H. change (2 ^ 53) with (4 * 2 ^ 51) in H.
      assert (0 < 2 ^ 51) by reflexivity. lia.
    - assert (L0 : l <= 0) by lia.
      (* the number is below 2 *)
      assert (Hx2 : a < 2 * d).
      { destruct (Z.le_gt_cases 0 (l + 1)) as [Hp|Hp].
        - rewrite (pow2_nonpos (- (l + 1))), (pow2_nonneg (l + 1)) in F2 by lia.
          assert (2 ^ (l + 1) <= 2 ^ 1) by (apply Z.pow_le_mono_r; lia).
          change (2 ^ 1) with 2 in *. nia.
        - rewrite (pow2_nonneg (- (l + 1))), (pow2_nonpos (l + 1)) in F2 by lia.
          assert (0 < 2 ^ (- (l + 1))) by (apply Z.pow_pos_nonneg; lia). nia. }
      assert (H2 : mm <= 2 * 2 ^ (- u)).
      { unfold mm. apply nearest_even_below; [exact Hd|]. nia. }
      split; [lia|].
      intros E. rewrite E in H2.
      assert (2 ^ 53 <= 2 ^ (1 + - u)) by (rewrite Z.pow_add_r by lia; exact H2).
      destruct (Z.le_gt_cases 53 (1 + - u)) as [G|G]; [lia|exfalso].
      assert (2 ^ (1 + - u) < 2 ^ 53) by (apply Z.pow_lt_mono_r; lia). lia. }
  destruct Hbound as [Hb1 Hb2].
  destruct (Z.eqb_spec mm (2 ^ 53)) as [E|NE].
  - specialize (Hb2 E).
    destruct (Z.ltb_spec 971 (u + 1)); [lia|].
    change (2 ^ 52 =? 0) with false. cbv iota. cbn [floor].
    rewrite (pow2_nonpos (u + 1)), (pow2_nonneg (- (u + 1))), Z.mul_1_r by lia.
    assert (Q : 0 < 2 ^ (- (u + 1))) by (apply Z.pow_pos_nonneg; lia).
    assert (2 ^ 52 < 3 * 2 ^ (- (u + 1))).
    { assert (2 ^ 51 <= 2 ^ (- (u + 1))) by (apply Z.pow_le_mono_r; lia).
      change (2 ^ 52) with (2 * 2 ^ 51). assert (0 < 2 ^ 51) by reflexivity. lia. }
    split; [apply Z.div_pos; lia|].
    assert (2 ^ 52 / 2 ^ (- (u + 1)) < 3) by (apply Z.div_lt_upper_bound; lia). lia.
  - destruct (Z.ltb_spec 971 u); [lia|].
    destruct (Z.eqb_spec mm 0) as [E0|N0].
    + cbn. lia.
    + cbn [floor].
      rewrite (pow2_nonpos u), (pow2_nonneg (- u)), Z.mul_1_r by lia.
      split; [apply Z.div_pos; lia|].
      assert (mm / 2 ^ (- u) < 3) by (apply Z.div_lt_upper_bound; lia). lia.
Qed.

End RandomCount.

Section Lengths.

Local Open Scope Z_scope.

Import Number.

Lemma nearest_even_positive (n d : Z) : 0 < d -> d <= n -> 0 < nearest_even n d.
Proof.
  intros Hd Hn. unfold nearest_even.
  assert (1 <= n / d) by (apply Z.div_le_lower_bound; lia).
  destruct (2 * (n mod d) <? d); [lia|].
  destruct (d <? 2 * (n mod d)); [lia|]. destruct (Z.even (n / d)); lia.
Qed.

(** The length of an array that has an element is not [0]. *)
Lemma of_nat_positive (n : nat) : equal (of_nat (S n)) zero = false.
Proof.
  assert (Hz : is_zero (of_nat (S n)) = false).
  { unfold of_nat, round_binary64.
    set (a := Z.of_nat (S n)).
    assert (Ha : 0 < a) by (unfold a; lia).
    destruct (Z.eqb_spec a 0) as [E|_]; [lia|].
    destruct (floor_log2_spec a 1 Ha ltac:(lia)) as [F1 F2].
    set (l := floor_log2 a 1) in *.
    assert (Hl : 0 <= l).
    { apply (floor_log2_order a 1 0 l); [lia|lia| |exact F2].
      change (pow2 0) with 1. change (pow2 (- 0)) with 1. lia. }
    set (u := Z.max (l - 52) (-1074)).
    assert (Hu : -1074 <= u <= l) by (unfold u; lia).
    assert (Hm : 0 < nearest_even (a * pow2 (- u)) (1 * pow2 u)).
    { apply nearest_even_positive.
      - pose proof (pow2_pos u). lia.
      - apply (le_pow2_iff a 1 u 1074); [lia|lia|].
        apply (le_pow2_iff a 1 l 1074) in F1; [|lia|lia].
        assert (2 ^ (1074 + u) <= 2 ^ (1074 + l)) by (apply pow2_mono; lia).
        lia. }
    set (m := nearest_even (a * pow2 (- u)) (1 * pow2 u)) in *.
    destruct (Z.eqb_spec m (2 ^ 53)) as [E|N].
    - destruct (971 <? u + 1); reflexivity.
    - destruct (971 <? u); [reflexivity|].
      destruct (Z.eqb_spec m 0) as [E0|N0]; [lia|].
      cbn [is_zero]. now apply Z.eqb_neq. }
  unfold equal. rewrite Hz. cbn [andb orb].
  destruct (of_nat (S n)) as [s m e|s]; [|reflexivity].
  cbn [is_zero] in Hz. unfold zero, same.
  rewrite Hz. now rewrite andb_false_r.
Qed.

End Lengths.


Section StringParse.

Lemma hex_value_lower (d : N) : d < 16 -> hex_value (hex_digit_lower d) = Some d.
Proof.
  intros H. unfold hex_value, hex_digit_lower, is_digit.
  destruct (N.ltb_spec d 10); N_cases; f_equal; lia.
Qed.

Lemma hex_value_upper (d : N) : d < 16 -> hex_value (hex_digit_upper d) = Some d.
Proof.
  intros H. unfold hex_value, hex_digit_upper, is_digit.
  destruct (N.ltb_spec d 10); N_cases; f_equal; lia.
Qed.

Lemma upper_hex_value_upper (d : N) : d < 16 -> upper_hex_value (hex_digit_upper d) = Some d.
Proof.
  intros H. unfold upper_hex_value, hex_digit_upper, is_digit.
  destruct (N.ltb_spec d 10); N_cases; f_equal; lia.
Qed.

Lemma parse_unicode_escape (c : N) (tail : jsstring) :
  c < 65536 ->
  parse_string_chars (unicode_escape c ++ tail) = option_cons c (parse_string_chars tail).
Proof.
  intros H. unfold unicode_escape. cbn [app parse_string_chars].
  change (92 =? 34) with false. change (92 =? 92) with true.
  change (117 =? 117) with true. cbv iota.
  rewrite !hex_value_lower
    by (try apply N.mod_lt; try apply N.Div0.div_lt_upper_bound; lia).
  f_equal.
  zify. Z.to_euclidean_division_equations. lia.
Qed.

Lemma short_escape_inv (c l : N) :
  short_escape c = Some l ->
  (l =? 117) = false /\ short_unescape l = Some c.
Proof.
  unfold short_escape.
  repeat match goal with
         | |- context [N.eqb c ?k] =>
           destruct (N.eqb_spec c k) as [->|?]; [intros [= <-]; split; reflexivity|]
         end.
  discriminate.
Qed.

Lemma short_escape_none (c : N) :
  short_escape c = None -> (c =? 34) = false /\ (c =? 92) = false.
Proof.
  unfold short_escape.
  repeat match goal with
         | |- context [N.eqb c ?k] =>
           destruct (N.eqb_spec c k) as [->|?]; [discriminate|]
         end.
  intros _. split; reflexivity.
Qed.

Lemma parse_short_escape (c l : N) (tail : jsstring) :
  short_escape c = Some l ->
  parse_string_chars (92 :: l :: tail) = option_cons c (parse_string_chars tail).
Proof.
  intros H. apply short_escape_inv in H as [H1 H2].
  cbn [parse_string_chars]. change (92 =? 34) with false. change (92 =? 92) with true.
  cbv iota. now rewrite H1, H2.
Qed.

Lemma parse_plain_char (c : N) (tail : jsstring) :
  short_escape c = None -> (c <? 32) = false ->
  parse_string_chars (c :: tail) = option_cons c (parse_string_chars tail).
Proof.
  intros H1 H2. apply short_escape_none in H1 as [A B].
  cbn [parse_string_chars]. now rewrite A, B, H2.
Qed.

Lemma surrogate_plain (c : N) :
  is_surrogate c = true -> short_escape c = None /\ (c <? 32) = false /\ c < 65536.
Proof.
  unfold is_surrogate. intros H. apply andb_true_iff in H as [A B].
  apply N.leb_le in A, B. unfold short_escape.
  repeat match goal with
         | |- context [N.eqb c ?k] => destruct (N.eqb_spec c k); [lia|]
         end.
  repeat split; try lia. apply N.ltb_ge. lia.
Qed.

Lemma high_is_surrogate c : is_high_surrogate c = true -> is_surrogate c = true.
Proof. unfold is_high_surrogate, is_surrogate. N_cases; auto. Qed.

Lemma low_is_surrogate c : is_low_surrogate c = true -> is_surrogate c = true.
Proof. unfold is_low_surrogate, is_surrogate. N_cases; auto. Qed.

Lemma parse_quote_chars_bounded (n : nat) :
  forall s rest, (length s <= n)%nat ->
    parse_string_chars (quote_chars s ++ 34 :: rest) = Some (s, rest).
Proof.
  induction n as [|n IH]; intros s rest Hlen.
  - destruct s; [reflexivity|simpl in Hlen; lia].
  - destruct s as [|c r]; [reflexivity|]. simpl in Hlen.
    assert (Hr : parse_string_chars (quote_chars r ++ 34 :: rest) = Some (r, rest))
      by (apply IH; lia).
    cbn [quote_chars].
    destruct (short_escape c) as [l|] eqn:Es.
    { cbn [app]. rewrite (parse_short_escape _ _ _ Es), Hr. reflexivity. }
    destruct (c <? 32) eqn:E32.
    { rewrite <- List.app_assoc, parse_unicode_escape, Hr; [reflexivity|].
      apply N.ltb_lt in E32. lia. }
    destruct (is_high_surrogate c) eqn:Eh.
    { pose proof (surrogate_plain c (high_is_surrogate c Eh)) as (_ & _ & Hc).
      destruct r as [|d r'].
      - rewrite parse_unicode_escape by exact Hc. reflexivity.
      - destruct (is_low_surrogate d) eqn:El.
        + pose proof (surrogate_plain d (low_is_surrogate d El)) as (Hd1 & Hd2 & _).
          cbn [app]. rewrite (parse_plain_char c _ Es E32), (parse_plain_char d _ Hd1 Hd2).
          rewrite IH by (simpl in Hlen |- *; lia). reflexivity.
        + rewrite <- List.app_assoc, parse_unicode_escape, Hr by exact Hc. reflexivity. }
    destruct (is_low_surrogate c) eqn:El.
    { pose proof (surrogate_plain c (low_is_surrogate c El)) as (_ & _ & Hc).
      rewrite <- List.app_assoc, parse_unicode_escape, Hr by exact Hc. reflexivity. }
    cbn [app]. rewrite (parse_plain_char c _ Es E32), Hr. reflexivity.
Qed.

Lemma parse_quote_chars (s rest : jsstring) :
  parse_string_chars (quote_chars s ++ 34 :: rest) = Some (s, rest).
Proof. apply (parse_quote_chars_bounded (length s)). lia. Qed.

End StringParse.

Section JsonInduction.

Variable P : json -> Prop.
Hypothesis Hnull : P JNull.
Hypothesis Hbool : forall b, P (JBool b).
Hypothesis Hnum : forall x, P (JNum x).
Hypothesis Hstr : forall s, P (JStr s).
Hypothesis Harr : forall l, Forall P l -> P (JArr l).
Hypothesis Hobj : forall ms, Forall (fun kv => P (snd kv)) ms -> P (JObj ms).

Fixpoint json_induction (v : json) : P v :=
  match v with
  | JNull => Hnull
  | JBool b => Hbool b
  | JNum x => Hnum x
  | JStr s => Hstr s
  | JArr l =>
    Harr l ((fix all (l : list json) : Forall P l :=
               match l with
               | [] => Forall_nil P
               | x :: r => Forall_cons x (json_induction x) (all r)
               end) l)
  | JObj ms =>
    Hobj ms ((fix all (ms : list (jsstring * json)) : Forall (fun kv => P (snd kv)) ms :=
                match ms with
                | [] => Forall_nil _
                | kv :: r =>
                  Forall_cons kv
                              (match kv as p return P (snd p) with
                               | (_, x) => json_induction x
                               end)
                              (all r)
                end) ms)
  end.

End JsonInduction.

Section ObjectFacts.

(** A key that may be listed after every key of the object goes last. *)
Lemma obj_set_last (k : jsstring) (v : json) (ms : list (jsstring * json)) :
  forallb (fun k' => listed_after k' k) (map fst ms) = true ->
  obj_set k v ms = ms ++ [(k, v)].
Proof.
  induction ms as [|[k' v'] ms IH]; cbn [map fst forallb obj_set app]; intros H;
    [reflexivity|].
  apply andb_prop in H. destruct H as [Hk Hr].
  unfold listed_after in Hk. apply andb_prop in Hk. destruct Hk as [H1 H2].
  apply negb_true_iff in H1, H2. rewrite H1, H2, (IH Hr). reflexivity.
Qed.

Lemma property_order_middle (ks ks' : list jsstring) (k : jsstring) :
  property_order (ks ++ k :: ks') = true ->
  forallb (fun k' => listed_after k' k) ks = true.
Proof.
  induction ks as [|k0 ks IH]; cbn [app property_order forallb]; intros H; [reflexivity|].
  apply andb_prop in H. destruct H as [H0 Hr].
  rewrite forallb_app in H0. apply andb_prop in H0. destruct H0 as [_ H0].
  cbn [forallb] in H0. apply andb_prop in H0. destruct H0 as [H0 _].
  now rewrite H0, (IH Hr).
Qed.

Lemma obj_of_members_from (ms acc : list (jsstring * json)) :
  property_order (map fst (acc ++ ms)) = true ->
  fold_left (fun a kv => obj_set (fst kv) (snd kv) a) ms acc = acc ++ ms.
Proof.
  revert acc. induction ms as [|[k v] ms IH]; intros acc H; cbn [fold_left fst snd].
  - now rewrite List.app_nil_r.
  - rewrite obj_set_last.
    + rewrite IH; rewrite <- List.app_assoc; [reflexivity|exact H].
    + rewrite map_app in H. cbn [map fst] in H.
      exact (property_order_middle _ _ _ H).
Qed.

(** The members of an object in its order are the object. *)
Lemma obj_of_members_ordered (ms : list (jsstring * json)) :
  property_order (map fst ms) = true -> obj_of_members ms = ms.
Proof. intros H. unfold obj_of_members. now rewrite obj_of_members_from. Qed.

End ObjectFacts.

Section ParseStringify.

Lemma skip_ws_start (c : N) (r : jsstring) :
  is_json_ws c = false -> skip_ws (c :: r) = c :: r.
Proof. intros H. simpl. now rewrite H. Qed.

Lemma digit_tests (c : N) :
  is_digit c = true \/ c = 45 ->
  value_start c /\ (c =? 34) = false /\ (c =? 91) = false /\ (c =? 123) = false /\
  (c =? 110) = false /\ (c =? 116) = false /\ (c =? 102) = false.
Proof.
  unfold value_start, is_json_ws, is_digit. intros [H| ->].
  - apply andb_true_iff in H as [A B]. apply N.leb_le in A, B.
    cbn [existsb]. repeat split; N_cases; reflexivity.
  - repeat split; reflexivity.
Qed.

Lemma stringify_head (v : json) :
  exists c t, stringify v = c :: t /\ value_start c.
Proof.
  destruct v as [|b|x|s|l|ms]; simpl.
  - eexists; eexists; split; [reflexivity|repeat split].
  - destruct b; eexists; eexists; (split; [reflexivity|repeat split]).
  - destruct x as [sg m e|sg].
    + destruct (number_to_string_head sg m e) as (c & t & E & H).
      exists c, t. split; [exact E|]. now apply digit_tests.
    + eexists; eexists; split; [reflexivity|repeat split].
  - eexists; eexists; split; [reflexivity|repeat split].
  - eexists; eexists; split; [reflexivity|repeat split].
  - eexists; eexists; split; [reflexivity|repeat split].
Qed.

Lemma parse_value_eq (f : nat) (s : jsstring) (c : N) (r : jsstring) :
  skip_ws s = c :: r ->
  parse_value (S f) s =
  if c =? 34 then
    match parse_string_chars r with
    | Some (str, r') => Parsed (JStr str) r'
    | None => NoParse
    end
  else if c =? 91 then
    match skip_ws r with
    | [] => NoParse
    | d :: r' =>
      if d =? 93 then Parsed (JArr []) r'
      else match parse_elements f r with
           | Parsed l r'' => Parsed (JArr l) r''
           | NoParse => NoParse
           | OutOfFuel => OutOfFuel
           end
    end
  else if c =? 123 then
    match skip_ws r with
    | [] => NoParse
    | d :: r' =>
      if d =? 125 then Parsed (JObj []) r'
      else match parse_members f r with
           | Parsed ms r'' => Parsed (JObj (obj_of_members ms)) r''
           | NoParse => NoParse
           | OutOfFuel => OutOfFuel
           end
    end
  else if c =? 110 then parse_literal lit_null JNull (c :: r)
  else if c =? 116 then parse_literal lit_true (JBool true) (c :: r)
  else if c =? 102 then parse_literal lit_false (JBool false) (c :: r)
  else match parse_number (c :: r) with
       | Some (v, r') => Parsed v r'
       | None => NoParse
       end.
Proof. intros H. cbn [parse_value]. rewrite H. reflexivity. Qed.

Lemma parse_elements_eq (f : nat) (s : jsstring) :
  parse_elements (S f) s =
  match parse_value f s with
  | OutOfFuel => OutOfFuel
  | NoParse => NoParse
  | Parsed v r =>
    match skip_ws r with
    | [] => NoParse
    | c :: r' =>
      if c =? 44 then
        match parse_elements f r' with
        | Parsed l r'' => Parsed (v :: l) r''
        | NoParse => NoParse
        | OutOfFuel => OutOfFuel
        end
      else if c =? 93 then Parsed [v] r'
      else NoParse
    end
  end.
Proof. reflexivity. Qed.

Lemma parse_members_eq (f : nat) (s : jsstring) :
  parse_members (S f) s =
  match skip_ws s with
  | [] => NoParse
  | q :: r =>
    if q =? 34 then
      match parse_string_chars r with
      | None => NoParse
      | Some (k, r1) =>
        match skip_ws r1 with
        | [] => NoParse
        | c :: r2 =>
          if c =? 58 then
            match parse_value f r2 with
            | OutOfFuel => OutOfFuel
            | NoParse => NoParse
            | Parsed v r3 =>
              match skip_ws r3 with
              | [] => NoParse
              | c' :: r4 =>
                if c' =? 44 then
                  match parse_members f r4 with
                  | Parsed ms r5 => Parsed ((k, v) :: ms) r5
                  | NoParse => NoParse
                  | OutOfFuel => OutOfFuel
                  end
                else if c' =? 125 then Parsed [(k, v)] r4
                else NoParse
              end
            end
          else NoParse
        end
      end
    else NoParse
  end.
Proof. reflexivity. Qed.

Lemma parse_elements_join (l : list json) :
  Forall parses_back l -> l <> [] ->
  forall fuel rest,
    (S (length (join [44%N] (map stringify l))) < fuel)%nat ->
    parse_elements fuel (join [44] (map stringify l) ++ 93 :: rest) = Parsed l rest.
Proof.
  induction 1 as [|x l Hx Hl IH]; intros Hne fuel rest Hfuel; [contradiction|].
  destruct fuel as [|f]; [lia|]. rewrite parse_elements_eq.
  destruct l as [|y l'].
  - cbn [map join] in *. rewrite Hx; [|right; left; reflexivity|lia].
    reflexivity.
  - change (join [44] (map stringify (x :: y :: l')))
      with (stringify x ++ [44] ++ join [44] (map stringify (y :: l'))) in *.
    rewrite length_app in Hfuel. cbn [length app] in Hfuel.
    rewrite <- List.app_assoc. cbn [app].
    rewrite Hx; [|left; reflexivity|lia].
    cbn [skip_ws is_json_ws existsb N.eqb Pos.eqb orb]. 
    change (44 =? 44) with true. cbv iota.
    rewrite IH; [reflexivity|discriminate|lia].
Qed.

Lemma parse_members_join (ms : list (jsstring * json)) :
  Forall (fun kv => parses_back (snd kv)) ms -> ms <> [] ->
  forall fuel rest,
    (S (length (join [44%N] (map member_text ms))) < fuel)%nat ->
    parse_members fuel (join [44] (map member_text ms) ++ 125 :: rest) = Parsed ms rest.
Proof.
  induction 1 as [|[k x] ms Hx Hms IH]; intros Hne fuel rest Hfuel; [contradiction|].
  destruct fuel as [|f]; [lia|]. rewrite parse_members_eq. simpl snd in Hx.
  assert (Hkey : forall tail,
             skip_ws (member_text (k, x) ++ tail) = 34 :: quote_chars k ++ 34 :: 58 :: stringify x ++ tail).
  { intros tail. unfold member_text, quote. cbn [app].
    rewrite skip_ws_start by reflexivity.
    now rewrite <- !List.app_assoc. }
  destruct ms as [|kv' ms'].
  - cbn [map join] in *. rewrite Hkey. change (34 =? 34) with true. cbv iota.
    rewrite parse_quote_chars. rewrite skip_ws_start by reflexivity.
    change (58 =? 58) with true. cbv iota.
    unfold member_text, quote in Hfuel. rewrite !length_app in Hfuel.
    cbn [length] in Hfuel. rewrite length_app in Hfuel. cbn [length] in Hfuel.
    rewrite Hx; [|right; right; reflexivity|lia].
    reflexivity.
  - change (join [44] (map member_text ((k, x) :: kv' :: ms')))
      with (member_text (k, x) ++ [44] ++ join [44] (map member_text (kv' :: ms'))) in *.
    rewrite <- List.app_assoc. rewrite Hkey. change (34 =? 34) with true. cbv iota.
    rewrite parse_quote_chars. rewrite skip_ws_start by reflexivity.
    change (58 =? 58) with true. cbv iota.
    unfold member_text at 1, quote in Hfuel. rewrite !length_app in Hfuel.
    cbn [length app] in Hfuel. rewrite !length_app in Hfuel. cbn [length] in Hfuel.
    cbn [app].
    rewrite Hx; [|left; reflexivity|lia].
    rewrite skip_ws_start by reflexivity.
    change (44 =? 44) with true. cbv iota.
    rewrite IH; [reflexivity|discriminate|lia].
Qed.

Lemma parse_value_stringify (v : json) : well_formed v -> parses_back v.
Proof.
  induction v as [|b|x|s|l IH|ms IH] using json_induction;
    intros Hwf fuel rest Hrest Hfuel;
    (destruct fuel as [|f]; [lia|]).
  - rewrite (parse_value_eq f _ 110 (skipn 1 lit_null ++ rest)) by reflexivity.
    reflexivity.
  - destruct b.
    + rewrite (parse_value_eq f _ 116 (skipn 1 lit_true ++ rest)) by reflexivity.
      reflexivity.
    + rewrite (parse_value_eq f _ 102 (skipn 1 lit_false ++ rest)) by reflexivity.
      reflexivity.
  - inversion Hwf as [| |x' Hx| | |]; subst.
    assert (Ex : stringify (JNum x) = number_to_string x).
    { destruct x; [reflexivity|discriminate Hx]. }
    rewrite Ex in *. clear Ex.
    assert (Hh : exists c t, number_to_string x = c :: t /\ (is_digit c = true \/ c = 45)).
    { destruct x as [sg m e|sg]; [apply number_to_string_head|discriminate Hx]. }
    destruct Hh as (c & t & E & Hc).
    pose proof (parse_json_number x rest Hx Hrest) as Hp. rewrite E in *.
    apply digit_tests in Hc as ((Hws & _) & H1 & H2 & H3 & H4 & H5 & H6).
    cbn [app] in *.
    rewrite (parse_value_eq f _ c (t ++ rest)) by (now apply skip_ws_start).
    now rewrite H1, H2, H3, H4, H5, H6, Hp.
  - cbn [stringify]. unfold quote. cbn [app].
    rewrite (parse_value_eq f _ 34 ((quote_chars s ++ [34]) ++ rest)) by reflexivity.
    change (34 =? 34) with true. cbv iota.
    rewrite <- List.app_assoc. cbn [app]. now rewrite parse_quote_chars.
  - inversion Hwf as [| | | |l' Hall|]; subst.
    cbn [stringify] in *. cbn [app length] in *.
    rewrite (parse_value_eq f _ 91 ((join [44] (map stringify l) ++ [93]) ++ rest))
      by reflexivity.
    change (91 =? 34) with false. change (91 =? 91) with true. cbv iota.
    rewrite <- List.app_assoc. cbn [app].
    destruct l as [|x l'].
    + reflexivity.
    + assert (Hall' : Forall parses_back (x :: l')).
      { clear -IH Hall. induction IH as [|y l Hy _ IHl]; [constructor|].
        inversion Hall; subst. constructor; auto. }
      destruct (stringify_head x) as (c & t & E & Hws & H93 & _).
      assert (Hj : exists t', join [44] (map stringify (x :: l')) = c :: t').
      { cbn [map join]. rewrite E. destruct (map stringify l'); eexists; reflexivity. }
      destruct Hj as (t' & Hj).
      rewrite Hj at 1. cbn [app]. rewrite skip_ws_start by exact Hws.
      rewrite H93.
      rewrite parse_elements_join; [reflexivity|exact Hall'|discriminate|].
      rewrite length_app in Hfuel. cbn [length] in Hfuel. lia.
  - inversion Hwf as [| | | | |ms' Hnd Hall]; subst.
    assert (Es : stringify (JObj ms) = 123 :: join [44] (map member_text ms) ++ [125])
      by reflexivity.
    rewrite Es in *. clear Es. cbn [app length] in *.
    rewrite (parse_value_eq f _ 123 ((join [44] (map member_text ms) ++ [125]) ++ rest))
      by reflexivity.
    change (123 =? 34) with false. change (123 =? 91) with false.
    change (123 =? 123) with true. cbv iota.
    rewrite <- List.app_assoc. cbn [app].
    destruct ms as [|[k x] ms'].
    + reflexivity.
    + assert (Hall' : Forall (fun kv => parses_back (snd kv)) ((k, x) :: ms')).
      { clear -IH Hall. induction IH as [|y l Hy _ IHl]; [constructor|].
        inversion Hall; subst. constructor; auto. }
      assert (Hj : exists t', join [44] (map member_text ((k, x) :: ms')) = 34 :: t').
      { cbn [map join member_text quote app]. destruct (map member_text ms'); eexists; reflexivity. }
      destruct Hj as (t' & Hj).
      rewrite Hj at 1. cbn [app]. rewrite skip_ws_start by reflexivity.
      change (34 =? 125) with false. cbv iota.
      rewrite parse_members_join; [|exact Hall'|discriminate|].
      * now rewrite obj_of_members_ordered.
      * rewrite length_app in Hfuel. cbn [length] in Hfuel. lia.
Qed.

Theorem parse_stringify (v : json) : well_formed v -> JSON.parse (stringify v) = Ok v.
Proof.
  intros Hwf. unfold JSON.parse.
  pose proof (parse_value_stringify v Hwf (2 * length (stringify v) + 2)%nat [] I) as H.
  rewrite List.app_nil_r in H. rewrite H by lia. reflexivity.
Qed.

(** The text of an array whose first element is well formed reads, if
    it reads at all, as an array that starts with that element. *)
Lemma parse_array_head (x : json) (tail : list json) (v : json) :
  well_formed x ->
  JSON.parse (stringify (JArr (x :: tail))) = Ok v ->
  exists l, v = JArr (x :: l).
Proof.
  intros Hx H. destruct tail as [|y tail].
  { rewrite parse_stringify in H by (apply wf_arr; constructor; [exact Hx|constructor]).
    injection H as <-. now exists []. }
  revert H. unfold JSON.parse.
  assert (Et : stringify (JArr (x :: y :: tail))
               = 91 :: stringify x ++ 44 :: join [44] (map stringify (y :: tail)) ++ [93]).
  { cbn [stringify map join]. cbn [app]. now rewrite <- List.app_assoc. }
  rewrite Et. clear Et.
  set (rest := join [44] (map stringify (y :: tail)) ++ [93]).
  set (text := 91 :: stringify x ++ 44 :: rest).
  assert (Hlen : (length (stringify x) + 2 <= length text)%nat).
  { unfold text. cbn [length]. rewrite length_app. cbn [length]. lia. }
  destruct (stringify_head x) as (c & t & E & Hws & H93 & _).
  remember (2 * length text)%nat as f eqn:Ef.
  replace (f + 2)%nat with (S (S f)) by lia.
  unfold text.
  rewrite (parse_value_eq _ _ 91 (stringify x ++ 44 :: rest)) by reflexivity.
  change (91 =? 34) with false. change (91 =? 91) with true. cbv iota.
  rewrite E at 1. cbn [app]. rewrite skip_ws_start by exact Hws. rewrite H93.
  rewrite parse_elements_eq.
  rewrite (parse_value_stringify x Hx f (44 :: rest)) by (cbn; auto; lia).
  rewrite skip_ws_start by reflexivity. change (44 =? 44) with true. cbv iota.
  destruct (parse_elements f rest) as [| |l r]; try discriminate.
  destruct (skip_ws r); [|discriminate]. intros [= <-]. now exists l.
Qed.

End ParseStringify.

(** ** Base64 *)

Import URI Base64 App ArticleView.

Section ThreeByThree.

Variable A : Type.
Variable P : list A -> Prop.
Hypothesis H0 : P [].
Hypothesis H1 : forall a, P [a].
Hypothesis H2 : forall a b, P [a; b].
Hypothesis H3 : forall a b c r, P r -> P (a :: b :: c :: r).

Fixpoint list_ind3 (l : list A) : P l :=
  match l with
  | [] => H0
  | [a] => H1 a
  | [a; b] => H2 a b
  | a :: b :: c :: r => H3 a b c r (list_ind3 r)
  end.

End ThreeByThree.

Section Base64Facts.

Lemma encode_octets_shape (l : list N) :
  encode_octets l = map b64_char (sextets l) ++ padding l.
Proof.
  induction l as [|a|a b|a b c r IH] using list_ind3; try reflexivity.
  cbn [encode_octets sextets padding map app]. now rewrite IH.
Qed.

Lemma b64_value_char (v : N) : v < 64 -> b64_value (b64_char v) = Some v.
Proof.
  intros H. unfold b64_char.
  destruct (N.ltb_spec v 26); [|destruct (N.ltb_spec v 52);
    [|destruct (N.ltb_spec v 62); [|destruct (N.eqb_spec v 62)]]];
    unfold b64_value, is_upper, is_lower, is_digit; N_cases; f_equal; lia.
Qed.

Lemma b64_char_plain (v : N) :
  v < 64 -> is_ascii_whitespace (b64_char v) = false /\ b64_char v <> 61.
Proof.
  intros H. unfold b64_char, is_ascii_whitespace. cbn [existsb].
  destruct (N.ltb_spec v 26); [|destruct (N.ltb_spec v 52);
    [|destruct (N.ltb_spec v 62); [|destruct (N.eqb_spec v 62)]]];
    (split; [N_cases; reflexivity|lia]).
Qed.

Lemma sextets_bound (l : list N) : Forall octet l -> Forall (fun v => v < 64) (sextets l).
Proof.
  unfold octet.
  induction l as [|a|a b|a b c r IH] using list_ind3; intros H; cbn [sextets].
  - constructor.
  - inversion_clear H. repeat constructor; zify; Z.to_euclidean_division_equations; lia.
  - inversion_clear H as [|? ? Ha H']. inversion_clear H'.
    repeat constructor; zify; Z.to_euclidean_division_equations; lia.
  - inversion_clear H as [|? ? Ha H']. inversion_clear H' as [|? ? Hb H''].
    inversion_clear H'' as [|? ? Hc Hr].
    repeat (constructor; [zify; Z.to_euclidean_division_equations; lia|]).
    auto.
Qed.

Lemma decode_values_sextets (l : list N) : Forall octet l -> decode_values (sextets l) = l.
Proof.
  unfold octet.
  induction l as [|a|a b|a b c r IH] using list_ind3; intros H; cbn [sextets decode_values].
  - reflexivity.
  - inversion_clear H. f_equal. zify; Z.to_euclidean_division_equations; lia.
  - inversion_clear H as [|? ? Ha H']. inversion_clear H'.
    f_equal; [|f_equal]; zify; Z.to_euclidean_division_equations; lia.
  - inversion_clear H as [|? ? Ha H']. inversion_clear H' as [|? ? Hb H''].
    inversion_clear H'' as [|? ? Hc Hr].
    rewrite IH by assumption.
    f_equal; [|f_equal; [|f_equal]]; zify; Z.to_euclidean_division_equations; lia.
Qed.

Lemma traverse_values_chars (vs : list N) :
  Forall (fun v => v < 64) vs -> traverse_values (map b64_char vs) = Some vs.
Proof.
  induction 1 as [|v vs Hv _ IH]; cbn [map traverse_values]; [reflexivity|].
  now rewrite b64_value_char, IH.
Qed.

Lemma filter_plain (vs : list N) (pad : jsstring) :
  Forall (fun v => v < 64) vs -> Forall (fun c => c = 61) pad ->
  filter (fun c => negb (is_ascii_whitespace c)) (map b64_char vs ++ pad)
  = map b64_char vs ++ pad.
Proof.
  intros Hv Hp. apply forallb_filter_id. rewrite forallb_app. apply andb_true_iff. split.
  - apply forallb_forall. intros c Hc. apply in_map_iff in Hc as (v & <- & Hin).
    rewrite Forall_forall in Hv. now rewrite (proj1 (b64_char_plain v (Hv v Hin))).
  - apply forallb_forall. intros c Hc. rewrite Forall_forall in Hp.
    now rewrite (Hp c Hc).
Qed.

Lemma padding_cases (l : list N) :
  padding l = [] \/
  (padding l = [61] /\ sextets l <> []) \/
  (padding l = [61; 61] /\ sextets l <> []).
Proof.
  induction l as [|a|a b|a b c r IH] using list_ind3; cbn [sextets padding].
  - left. reflexivity.
  - right. right. split; [reflexivity|discriminate].
  - right. left. split; [reflexivity|discriminate].
  - destruct IH as [H|[[H _]|[H _]]]; [left; exact H|right; left|right; right];
      (split; [exact H|discriminate]).
Qed.

Lemma encoded_length (l : list N) :
  ((length (sextets l) + length (padding l)) mod 4 = 0)%nat /\
  (length (sextets l) mod 4 <> 1)%nat.
Proof.
  induction l as [|a|a b|a b c r IH] using list_ind3; cbn [sextets padding length].
  - split; [reflexivity|discriminate].
  - split; [reflexivity|discriminate].
  - split; [reflexivity|discriminate].
  - destruct IH as [H1 H2].
    change (S (S (S (S (length (sextets r)))))) with (4 + length (sextets r))%nat.
    rewrite <- Nat.add_assoc.
    rewrite <- (Nat.Div0.add_mod_idemp_l 4 (length (sextets r) + length (padding r))).
    rewrite <- (Nat.Div0.add_mod_idemp_l 4 (length (sextets r))).
    auto.
Qed.

Lemma last_char_plain (vs : list N) (c : N) (t : jsstring) :
  Forall (fun v => v < 64) vs ->
  rev (map b64_char vs) = c :: t -> (c =? 61) = false.
Proof.
  intros Hv E.
  assert (Hin : In c (map b64_char vs)) by (apply in_rev; rewrite E; now left).
  apply in_map_iff in Hin as (v & <- & Hin). rewrite Forall_forall in Hv.
  apply N.eqb_neq. apply b64_char_plain. auto.
Qed.

Lemma strip_padding_encoded (l : list N) :
  Forall octet l ->
  strip_padding (map b64_char (sextets l) ++ padding l) = map b64_char (sextets l).
Proof.
  intros Hl. pose proof (sextets_bound l Hl) as Hv.
  unfold strip_padding. rewrite length_app, length_map.
  rewrite (proj1 (encoded_length l)). cbn [Nat.eqb].
  rewrite rev_app_distr.
  destruct (padding_cases l) as [H|[[H Hne]|[H Hne]]]; rewrite H; cbn [rev app].
  - destruct (rev (map b64_char (sextets l))) as [|c t] eqn:E.
    + now rewrite List.app_nil_r.
    + rewrite (last_char_plain _ _ _ Hv E). now rewrite List.app_nil_r.
  - change (61 =? 61) with true. cbv iota.
    destruct (rev (map b64_char (sextets l))) as [|c t] eqn:E.
    + apply (f_equal (@rev N)) in E. rewrite rev_involutive in E.
      destruct (sextets l); [contradiction|discriminate].
    + rewrite (last_char_plain _ _ _ Hv E).
      rewrite <- E. apply rev_involutive.
  - change (61 =? 61) with true. cbv iota. apply rev_involutive.
Qed.

(** The octets come back from their base64 text. *)
Lemma atob_encode_octets (l : list N) : Forall octet l -> atob (encode_octets l) = Ok l.
Proof.
  intros Hl. pose proof (sextets_bound l Hl) as Hv. unfold atob.
  rewrite encode_octets_shape, filter_plain, strip_padding_encoded; auto.
  - rewrite length_map.
    destruct (Nat.eqb_spec (length (sextets l) mod 4) 1) as [E|_].
    + exfalso. exact (proj2 (encoded_length l) E).
    + now rewrite traverse_values_chars, decode_values_sextets.
  - destruct (padding_cases l) as [H|[[H _]|[H _]]]; rewrite H; repeat constructor.
Qed.

Lemma btoa_octets (l : list N) : Forall octet l -> btoa l = Ok (encode_octets l).
Proof.
  intros H. unfold btoa.
  assert (E : forallb (fun c => c <=? 255) l = true).
  { apply forallb_forall. intros c Hc. rewrite Forall_forall in H.
    apply N.leb_le. exact (H c Hc). }
  now rewrite E.
Qed.

End Base64Facts.

(** ** URI coding *)

Section URIFacts.

Ltac div_lia := zify; Z.to_euclidean_division_equations; lia.

Lemma replace_plain (c : N) (r : jsstring) :
  (c =? 37) = false ->
  replace_percent_escapes (c :: r) = c :: replace_percent_escapes r.
Proof.
  intros H. cbn [replace_percent_escapes]. rewrite H.
  destruct r as [|h [|l r2]]; try reflexivity.
  destruct (upper_hex_value h), (upper_hex_value l); reflexivity.
Qed.

Lemma replace_escape (b : N) (r : jsstring) :
  b < 256 ->
  replace_percent_escapes (percent_escape b ++ r) = b :: replace_percent_escapes r.
Proof.
  intros H. unfold percent_escape. cbn [app replace_percent_escapes].
  rewrite !upper_hex_value_upper by div_lia.
  change (37 =? 37) with true. cbv iota. f_equal. div_lia.
Qed.

Lemma replace_escapes (bs : list N) (r : jsstring) :
  Forall octet bs ->
  replace_percent_escapes (flat_map percent_escape bs ++ r)
  = bs ++ replace_percent_escapes r.
Proof.
  induction 1 as [|b bs Hb _ IH]; cbn [flat_map app]; [reflexivity|].
  rewrite <- List.app_assoc, replace_escape, IH; [reflexivity|].
  unfold octet in Hb. lia.
Qed.

Lemma utf8_octets_bound (cp : N) : cp < 0x110000 -> Forall octet (utf8_octets cp).
Proof.
  intros H. unfold utf8_octets, octet.
  destruct (N.ltb_spec cp 0x80); [|destruct (N.ltb_spec cp 0x800);
    [|destruct (N.ltb_spec cp 0x10000)]];
    repeat (constructor; [div_lia|]); constructor.
Qed.

Lemma unreserved_ascii (c : N) :
  is_unreserved c = true -> c < 128 /\ (c =? 37) = false /\ is_surrogate c = false.
Proof.
  unfold is_unreserved, is_upper, is_lower, is_digit, is_surrogate. cbn [existsb].
  intros H.
  assert (c < 128).
  { repeat (apply orb_true_iff in H as [H|H]);
      repeat match type of H with
             | (_ && _) = true => apply andb_true_iff in H as [? H]
             | (_ <=? _) = true => apply N.leb_le in H
             | (_ =? _) = true => apply N.eqb_eq in H
             end; try lia; try discriminate.
    all: repeat match goal with
                | Hx : (_ <=? _) = true |- _ => apply N.leb_le in Hx
                end; lia. }
  split; [assumption|]. split.
  - apply N.eqb_neq. intros ->. discriminate H.
  - N_cases; reflexivity.
Qed.

Lemma pair_code_point (hi lo : N) :
  is_high_surrogate hi = true -> is_low_surrogate lo = true ->
  0x10000 <= code_point_of_pair hi lo <= 0x10FFFF /\
  utf16_units (code_point_of_pair hi lo) = [hi; lo].
Proof.
  unfold is_high_surrogate, is_low_surrogate, code_point_of_pair, utf16_units.
  intros H1 H2. apply andb_true_iff in H1 as [A B], H2 as [C D].
  apply N.leb_le in A, B, C, D. split; [lia|].
  destruct (N.ltb_spec (0x10000 + (hi - 0xD800) * 0x400 + (lo - 0xDC00)) 0x10000); [lia|].
  f_equal; [|f_equal]; div_lia.
Qed.

(** [encodeURIComponent] followed by the replacement writes the UTF-8
    octets. *)
Lemma encode_replace (s : jsstring) :
  well_paired s ->
  exists escaped,
    encodeURIComponent s = Ok escaped /\
    replace_percent_escapes escaped = utf8_bytes s.
Proof.
  induction 1 as [|c r Hc Hs _ (e & He & Hr)|hi lo r Hhi Hlo _ (e & He & Hr)].
  - exists []. split; reflexivity.
  - cbn [encodeURIComponent utf8_bytes].
    assert (Hh : is_high_surrogate c = false).
    { destruct (is_high_surrogate c) eqn:E; [|reflexivity].
      apply high_is_surrogate in E. congruence. }
    assert (Hl : is_low_surrogate c = false).
    { destruct (is_low_surrogate c) eqn:E; [|reflexivity].
      apply low_is_surrogate in E. congruence. }
    rewrite Hh, Hl, He. destruct (is_unreserved c) eqn:Eu.
    + apply unreserved_ascii in Eu as (H128 & H37 & _).
      exists (c :: e). split; [reflexivity|].
      rewrite replace_plain, Hr by exact H37. unfold utf8_octets.
      destruct (N.ltb_spec c 0x80); [reflexivity|lia].
    + eexists. split; [reflexivity|].
      rewrite replace_escapes, Hr; [reflexivity|].
      apply utf8_octets_bound. lia.
  - cbn [encodeURIComponent utf8_bytes].
    assert (Hu : is_unreserved hi = false).
    { destruct (is_unreserved hi) eqn:E; [|reflexivity].
      apply unreserved_ascii in E as (_ & _ & E).
      apply high_is_surrogate in Hhi. congruence. }
    assert (Hl : is_low_surrogate hi = false).
    { unfold is_high_surrogate, is_low_surrogate in *.
      apply andb_true_iff in Hhi as [A B]. apply N.leb_le in A, B. N_cases; reflexivity. }
    rewrite Hu, Hl, Hhi, Hlo, He.
    eexists. split; [reflexivity|].
    rewrite replace_escapes, Hr; [reflexivity|].
    apply utf8_octets_bound. pose proof (pair_code_point hi lo Hhi Hlo). lia.
Qed.

Lemma utf8_bytes_bound (s : jsstring) : well_paired s -> Forall octet (utf8_bytes s).
Proof.
  induction 1 as [|c r Hc Hs _ IH|hi lo r Hhi Hlo _ IH]; cbn [utf8_bytes].
  - constructor.
  - assert (Hh : is_high_surrogate c = false).
    { destruct (is_high_surrogate c) eqn:E; [|reflexivity].
      apply high_is_surrogate in E. congruence. }
    rewrite Hh. apply Forall_app. split; [apply utf8_octets_bound; lia|exact IH].
  - rewrite Hhi. apply Forall_app. split; [|exact IH].
    apply utf8_octets_bound. pose proof (pair_code_point hi lo Hhi Hlo). lia.
Qed.

Lemma hex_value_lower_digit (d : N) : d < 16 -> hex_value (hex_digit_lower d) = Some d.
Proof. apply hex_value_lower. Qed.

Lemma uri_items_octets (bs : list N) :
  Forall octet bs ->
  uri_items (flat_map App.percent_of_char bs) = Ok (map Oct bs).
Proof.
  induction 1 as [|b bs Hb _ IH]; [reflexivity|].
  unfold octet in Hb.
  cbn [flat_map map App.percent_of_char app uri_items].
  change (37 =? 37) with true. cbv iota.
  rewrite !hex_value_lower by div_lia. rewrite IH. cbn [fmap bind].
  do 3 f_equal. div_lia.
Qed.

Lemma decode_items_1 (b : N) (tail : list uri_item) :
  b < 0x80 -> decode_items (Oct b :: tail) = fmap (cons b) (decode_items tail).
Proof.
  intros H. cbn [decode_items]. destruct (N.ltb_spec b 0x80); [reflexivity|lia].
Qed.

Lemma decode_items_2 (b1 b2 : N) (tail : list uri_item) :
  0xC2 <= b1 <= 0xDF -> 0x80 <= b2 <= 0xBF ->
  decode_items (Oct b1 :: Oct b2 :: tail)
  = fmap (cons ((b1 - 0xC0) * 64 + (b2 - 0x80))) (decode_items tail).
Proof.
  intros H1 H2. cbn [decode_items]. unfold is_continuation.
  destruct (N.ltb_spec b1 0x80); [lia|].
  destruct (N.leb_spec 0xC2 b1); [|lia]. destruct (N.leb_spec b1 0xDF); [|lia].
  destruct (N.leb_spec 0x80 b2); [|lia]. destruct (N.leb_spec b2 0xBF); [|lia].
  reflexivity.
Qed.

Lemma decode_items_3 (b1 b2 b3 : N) (tail : list uri_item) :
  0xE0 <= b1 <= 0xEF -> 0x80 <= b2 <= 0xBF -> 0x80 <= b3 <= 0xBF ->
  0x800 <= (b1 - 0xE0) * 4096 + (b2 - 0x80) * 64 + (b3 - 0x80) ->
  is_surrogate ((b1 - 0xE0) * 4096 + (b2 - 0x80) * 64 + (b3 - 0x80)) = false ->
  decode_items (Oct b1 :: Oct b2 :: Oct b3 :: tail)
  = fmap (cons ((b1 - 0xE0) * 4096 + (b2 - 0x80) * 64 + (b3 - 0x80))) (decode_items tail).
Proof.
  intros H1 H2 H3 Hlow Hs. cbn [decode_items]. unfold is_continuation. rewrite Hs.
  destruct (N.ltb_spec b1 0x80); [lia|].
  destruct (N.leb_spec 0xC2 b1); [|lia]. destruct (N.leb_spec b1 0xDF); [lia|].
  destruct (N.leb_spec 0xE0 b1); [|lia]. destruct (N.leb_spec b1 0xEF); [|lia].
  destruct (N.leb_spec 0x80 b2); [|lia]. destruct (N.leb_spec b2 0xBF); [|lia].
  destruct (N.leb_spec 0x80 b3); [|lia]. destruct (N.leb_spec b3 0xBF); [|lia].
  cbn [andb negb].
  destruct (N.leb_spec 0x800 ((b1 - 0xE0) * 4096 + (b2 - 0x80) * 64 + (b3 - 0x80)));
    [reflexivity|lia].
Qed.

Lemma decode_items_4 (b1 b2 b3 b4 : N) (tail : list uri_item) :
  0xF0 <= b1 <= 0xF4 -> 0x80 <= b2 <= 0xBF -> 0x80 <= b3 <= 0xBF -> 0x80 <= b4 <= 0xBF ->
  0x10000 <= (b1 - 0xF0) * 262144 + (b2 - 0x80) * 4096 + (b3 - 0x80) * 64 + (b4 - 0x80)
  <= 0x10FFFF ->
  decode_items (Oct b1 :: Oct b2 :: Oct b3 :: Oct b4 :: tail)
  = fmap (app (utf16_units ((b1 - 0xF0) * 262144 + (b2 - 0x80) * 4096
                            + (b3 - 0x80) * 64 + (b4 - 0x80))))
         (decode_items tail).
Proof.
  intros H1 H2 H3 H4 Hcp. cbn [decode_items]. unfold is_continuation.
  destruct (N.ltb_spec b1 0x80); [lia|].
  destruct (N.leb_spec 0xC2 b1); [|lia]. destruct (N.leb_spec b1 0xDF); [lia|].
  destruct (N.leb_spec 0xE0 b1); [|lia]. destruct (N.leb_spec b1 0xEF); [lia|].
  destruct (N.leb_spec 0xF0 b1); [|lia]. destruct (N.leb_spec b1 0xF4); [|lia].
  destruct (N.leb_spec 0x80 b2); [|lia]. destruct (N.leb_spec b2 0xBF); [|lia].
  destruct (N.leb_spec 0x80 b3); [|lia]. destruct (N.leb_spec b3 0xBF); [|lia].
  destruct (N.leb_spec 0x80 b4); [|lia]. destruct (N.leb_spec b4 0xBF); [|lia].
  cbn [andb].
  destruct (N.leb_spec 0x10000 ((b1 - 0xF0) * 262144 + (b2 - 0x80) * 4096
                                + (b3 - 0x80) * 64 + (b4 - 0x80))); [|lia].
  destruct (N.leb_spec ((b1 - 0xF0) * 262144 + (b2 - 0x80) * 4096
                        + (b3 - 0x80) * 64 + (b4 - 0x80)) 0x10FFFF); [|lia].
  reflexivity.
Qed.

Lemma decode_octets (cp : N) (tail : list uri_item) :
  cp < 0x110000 -> is_surrogate cp = false ->
  decode_items (map Oct (utf8_octets cp) ++ tail)
  = fmap (app (utf16_units cp)) (decode_items tail).
Proof.
  intros Hcp Hs. unfold utf8_octets.
  destruct (N.ltb_spec cp 0x80).
  - cbn [map app]. rewrite decode_items_1 by assumption.
    unfold utf16_units. destruct (N.ltb_spec cp 0x10000); [reflexivity|lia].
  - destruct (N.ltb_spec cp 0x800).
    + cbn [map app]. rewrite decode_items_2 by div_lia.
      replace ((0xC0 + cp / 64 - 0xC0) * 64 + (0x80 + cp mod 64 - 0x80)) with cp by div_lia.
      unfold utf16_units. destruct (N.ltb_spec cp 0x10000); [reflexivity|lia].
    + assert (E3 : (0xE0 + cp / 4096 - 0xE0) * 4096
                   + (0x80 + (cp / 64) mod 64 - 0x80) * 64
                   + (0x80 + cp mod 64 - 0x80) = cp) by div_lia.
      assert (E4 : (0xF0 + cp / 262144 - 0xF0) * 262144
                   + (0x80 + (cp / 4096) mod 64 - 0x80) * 4096
                   + (0x80 + (cp / 64) mod 64 - 0x80) * 64
                   + (0x80 + cp mod 64 - 0x80) = cp) by div_lia.
      destruct (N.ltb_spec cp 0x10000).
      * cbn [map app]. rewrite decode_items_3; rewrite ?E3; try div_lia; try assumption.
        unfold utf16_units. destruct (N.ltb_spec cp 0x10000); [reflexivity|lia].
      * cbn [map app]. rewrite decode_items_4; rewrite ?E4; try div_lia.
        reflexivity.
Qed.

Lemma decode_utf8_bytes (s : jsstring) :
  well_paired s -> decode_items (map Oct (utf8_bytes s)) = Ok s.
Proof.
  induction 1 as [|c r Hc Hs _ IH|hi lo r Hhi Hlo _ IH]; cbn [utf8_bytes].
  - reflexivity.
  - assert (Hh : is_high_surrogate c = false).
    { destruct (is_high_surrogate c) eqn:E; [|reflexivity].
      apply high_is_surrogate in E. congruence. }
    rewrite Hh, map_app, decode_octets, IH by (try lia; assumption).
    unfold utf16_units. destruct (N.ltb_spec c 0x10000); [reflexivity|lia].
  - rewrite Hhi. pose proof (pair_code_point hi lo Hhi Hlo) as [Hr Hu].
    rewrite map_app, decode_octets, IH; try lia.
    + now rewrite Hu.
    + unfold is_surrogate. N_cases; reflexivity.
Qed.

(** Text comes back from its UTF-8 octets written as percent escapes. *)
Lemma decodeURIComponent_utf8_bytes (s : jsstring) :
  well_paired s ->
  decodeURIComponent (flat_map App.percent_of_char (utf8_bytes s)) = Ok s.
Proof.
  intros H. unfold decodeURIComponent.
  rewrite uri_items_octets by (now apply utf8_bytes_bound).
  cbn [bind]. now apply decode_utf8_bytes.
Qed.

End URIFacts.

(** ** The text of [JSON.stringify] *)

Section StringifyPaired.

Lemma well_paired_app (a b : jsstring) :
  well_paired a -> well_paired b -> well_paired (a ++ b).
Proof.
  induction 1; intros Hb; cbn [app]; [exact Hb| |].
  - apply paired_unit; auto.
  - apply paired_pair; auto.
Qed.

Lemma ascii_paired (l : jsstring) : Forall (fun c => c < 128) l -> well_paired l.
Proof.
  induction 1 as [|c l Hc _ IH]; [constructor|].
  apply paired_unit; [lia| |exact IH].
  unfold is_surrogate. N_cases; reflexivity.
Qed.

Lemma hex_digit_lower_ascii (d : N) : d < 16 -> hex_digit_lower d < 128.
Proof. intros H. unfold hex_digit_lower. destruct (N.ltb_spec d 10); lia. Qed.

Lemma unicode_escape_paired (c : N) : c < 65536 -> well_paired (unicode_escape c).
Proof.
  intros H. apply ascii_paired. unfold unicode_escape.
  repeat (constructor; [try lia; apply hex_digit_lower_ascii;
                        zify; Z.to_euclidean_division_equations; lia|]).
  constructor.
Qed.

Lemma short_escape_ascii (c l : N) : short_escape c = Some l -> l < 128.
Proof.
  unfold short_escape.
  repeat match goal with
         | |- context [N.eqb c ?k] =>
           destruct (N.eqb_spec c k); [intros [= <-]; lia|]
         end.
  discriminate.
Qed.

Lemma quote_chars_paired_bounded (n : nat) :
  forall s, (length s <= n)%nat -> wf_string s -> well_paired (quote_chars s).
Proof.
  induction n as [|n IH]; intros s Hlen Hwf.
  - destruct s; [constructor|simpl in Hlen; lia].
  - destruct s as [|c r]; [constructor|]. simpl in Hlen.
    inversion Hwf as [|? ? Hc Hr]; subst. unfold code_unit in Hc.
    assert (IHr : well_paired (quote_chars r)) by (apply IH; [lia|exact Hr]).
    cbn [quote_chars].
    destruct (short_escape c) as [l|] eqn:Es.
    { apply (well_paired_app [92; l]); [|exact IHr].
      apply ascii_paired. pose proof (short_escape_ascii _ _ Es).
      repeat constructor; lia. }
    destruct (c <? 32) eqn:E32.
    { apply well_paired_app; [now apply unicode_escape_paired|exact IHr]. }
    destruct (is_high_surrogate c) eqn:Eh.
    { destruct r as [|d r'].
      - now apply unicode_escape_paired.
      - destruct (is_low_surrogate d) eqn:El.
        + apply paired_pair; auto. apply IH; [simpl in Hlen |- *; lia|].
          now inversion Hr.
        + apply well_paired_app; [now apply unicode_escape_paired|exact IHr]. }
    destruct (is_low_surrogate c) eqn:El.
    { apply well_paired_app; [now apply unicode_escape_paired|exact IHr]. }
    apply paired_unit; auto.
    unfold is_surrogate, is_high_surrogate, is_low_surrogate in *.
    revert Eh El. N_cases; auto.
Qed.

Lemma quote_paired (s : jsstring) : wf_string s -> well_paired (quote s).
Proof.
  intros H. unfold quote. apply (well_paired_app [34]).
  - apply ascii_paired. repeat constructor.
  - apply well_paired_app.
    + now apply (quote_chars_paired_bounded (length s)).
    + apply ascii_paired. repeat constructor.
Qed.

Lemma uint_chars_ascii (u : Decimal.uint) : Forall (fun c => c < 128) (uint_chars u).
Proof. induction u; simpl; constructor; auto; lia. Qed.

Lemma number_text_paired (x : Number.number) : well_paired (stringify (JNum x)).
Proof.
  apply ascii_paired. destruct x as [sg m e|sg]; cbn [stringify].
  - apply number_to_string_ascii.
  - repeat constructor.
Qed.

Lemma join_paired (sep : jsstring) (l : list jsstring) :
  well_paired sep -> Forall well_paired l -> well_paired (join sep l).
Proof.
  intros Hsep. induction 1 as [|x l Hx Hl IH]; [constructor|].
  cbn [join]. destruct l as [|y l']; [exact Hx|].
  apply well_paired_app; [exact Hx|]. apply well_paired_app; [exact Hsep|exact IH].
Qed.

Lemma stringify_paired (v : json) : utf16 v -> well_paired (stringify v).
Proof.
  induction v as [|b|x|s|l IH|ms IH] using json_induction; intros H.
  - apply ascii_paired. repeat constructor.
  - destruct b; apply ascii_paired; repeat constructor.
  - apply number_text_paired.
  - inversion H; subst. now apply quote_paired.
  - inversion H as [| | | |l' Hall|]; subst. cbn [stringify].
    apply (well_paired_app [91]); [apply ascii_paired; repeat constructor|].
    apply well_paired_app; [|apply ascii_paired; repeat constructor].
    apply join_paired; [apply ascii_paired; repeat constructor|].
    apply Forall_map. clear H.
    induction IH as [|x l Hx _ IHl]; [constructor|].
    inversion Hall; subst. constructor; auto.
  - inversion H as [| | | | |ms' Hall]; subst.
    change (stringify (JObj ms)) with (123 :: join [44] (map member_text ms) ++ [125]).
    apply (well_paired_app [123]); [apply ascii_paired; repeat constructor|].
    apply well_paired_app; [|apply ascii_paired; repeat constructor].
    apply join_paired; [apply ascii_paired; repeat constructor|].
    apply Forall_map. clear H.
    induction IH as [|[k x] l Hx _ IHl]; [constructor|].
    inversion Hall as [|? ? [Hk Hv] Hrest]; subst. constructor; auto.
    cbn [member_text]. apply well_paired_app; [now apply quote_paired|].
    apply (well_paired_app [58]); [apply ascii_paired; repeat constructor|].
    apply Hx. exact Hv.
Qed.

End StringifyPaired.

(** ** Share links *)

Section ShareLinks.

Ltac ordered := vm_compute; reflexivity.

Ltac units := unfold wf_string, code_unit; repeat constructor.

Lemma article_object_utf16 (a : BlogPostData) :
  article_text a -> utf16 (BlogPostData_object a).
Proof.
  intros (Ht & Hi & Hb & Hc & Hp & Hch & Hl).
  unfold BlogPostData_object. apply utf16_obj.
  repeat (apply Forall_cons; [split; [units|now apply utf16_str]|]).
  apply Forall_app. split.
  - destruct (chart a) as [c|]; [|constructor]. destruct Hch as [Hct Hcd].
    cbn [optional]. apply Forall_cons; [split; [units|]|constructor]. cbn [snd].
    unfold BlogChart_object. apply utf16_obj.
    apply Forall_cons; [split; [units|now apply utf16_str]|].
    apply Forall_cons; [split; [units|apply utf16_str; destruct (chart_type c); units]|].
    apply Forall_cons; [split; [units|]|constructor].
    apply utf16_arr. apply Forall_map.
    induction Hcd as [|pt pts Hpt _ IH]; constructor; [|exact IH].
    unfold ChartDataPoint_object. apply utf16_obj.
    apply Forall_cons; [split; [units|now apply utf16_str]|].
    apply Forall_cons; [split; [units|apply utf16_num]|constructor].
  - apply Forall_cons; [split; [units|now apply utf16_str]|].
    destruct (sponsoredLink a) as [l|]; [|constructor]. destruct Hl as (H1 & H2 & H3).
    cbn [optional]. apply Forall_cons; [split; [units|]|constructor]. cbn [snd].
    unfold SponsoredLink_object. apply utf16_obj.
    repeat (apply Forall_cons; [split; [units|now apply utf16_str]|]). constructor.
Qed.

Lemma article_object_well_formed (a : BlogPostData) :
  chart_numbers a -> well_formed (BlogPostData_object a).
Proof.
  intros Hnum. unfold chart_numbers in Hnum.
  unfold BlogPostData_object. apply wf_obj.
  - destruct (chart a), (sponsoredLink a); cbn [optional app map fst]; ordered.
  - repeat (apply Forall_cons; [apply wf_str|]).
    apply Forall_app. split.
    + destruct (chart a) as [c|]; [|constructor].
      cbn [optional]. apply Forall_cons; [|constructor]. cbn [snd].
      unfold BlogChart_object. apply wf_obj; [cbn [map fst]; ordered|].
      repeat (apply Forall_cons; [apply wf_str|]).
      apply Forall_cons; [|constructor]. cbn [snd]. apply wf_arr. apply Forall_map.
      apply Forall_forall. intros pt Hpt. unfold ChartDataPoint_object.
      rewrite Forall_forall in Hnum.
      apply wf_obj; [cbn [map fst]; ordered|].
      apply Forall_cons; [apply wf_str|].
      apply Forall_cons; [|constructor]. cbn [snd]. apply wf_num. now apply Hnum.
    + apply Forall_cons; [apply wf_str|].
      destruct (sponsoredLink a) as [l|]; [|constructor].
      cbn [optional]. apply Forall_cons; [|constructor]. cbn [snd].
      unfold SponsoredLink_object. apply wf_obj; [cbn [map fst]; ordered|repeat constructor].
Qed.

Lemma share_object_utf16 (data category logo : json) :
  utf16 data -> utf16 category -> utf16 logo -> utf16 (share_object data category logo).
Proof.
  intros. apply utf16_obj. repeat (apply Forall_cons; [split; [units|assumption]|]).
  constructor.
Qed.

Lemma share_object_well_formed (data category logo : json) :
  well_formed data -> well_formed category -> well_formed logo ->
  well_formed (share_object data category logo).
Proof.
  intros. apply wf_obj; [cbn [map fst]; ordered|]. repeat constructor; assumption.
Qed.

(** The token is the base64 text of the UTF-8 octets of the JSON text. *)
Lemma share_token_text (data category logo : json) (includeLogo : bool) :
  utf16 (share_object data category (if includeLogo then logo else JNull)) ->
  share_token data category logo includeLogo
  = Ok (encode_octets
          (utf8_bytes (stringify (share_object data category
                                               (if includeLogo then logo else JNull))))).
Proof.
  intros H. unfold share_token. fold (share_object data category (if includeLogo then logo else JNull)).
  apply stringify_paired in H.
  destruct (encode_replace _ H) as (e & He & Hr).
  rewrite He. cbn [bind]. rewrite Hr. apply btoa_octets. now apply utf8_bytes_bound.
Qed.

Lemma generateUrl_text (location : Location) (data category logo : json)
      (includeLogo : bool) :
  utf16 (share_object data category (if includeLogo then logo else JNull)) ->
  generateUrl location data category logo includeLogo
  = Ok (origin location ++ pathname location ++ share_marker
        ++ encode_octets
             (utf8_bytes (stringify (share_object data category
                                                  (if includeLogo then logo else JNull))))).
Proof.
  intros H. unfold generateUrl. now rewrite share_token_text.
Qed.

Lemma decode_share_text (payload : json) :
  utf16 payload -> well_formed payload ->
  decode_share (encode_octets (utf8_bytes (stringify payload))) = Ok payload.
Proof.
  intros Hu Hw. unfold decode_share. apply stringify_paired in Hu.
  rewrite atob_encode_octets by (now apply utf8_bytes_bound). cbn [bind].
  rewrite decodeURIComponent_utf8_bytes by exact Hu. cbn [bind].
  now apply parse_stringify.
Qed.

Lemma handleHashChange_payload (st : State) (token : jsstring) (data category logo : json) :
  decode_share token = Ok (share_object data category logo) ->
  truthy data = true ->
  handleHashChange st (share_marker ++ token)
  = Ok (setLogo (or_else (Some logo) JNull)
          (setCurrentCategory (or_else (Some category) (JStr []))
             (setBlogData data st))).
Proof.
  intros Hd Ht. unfold handleHashChange.
  rewrite startsWith_app, replace_first_prefix. cbn [app try_catch].
  rewrite Hd. cbn [bind share_object truthy prop obj_get].
  change (string_eqb k_data k_data) with true.
  change (string_eqb k_data k_logo) with false.
  change (string_eqb k_data k_category) with false.
  change (string_eqb k_category k_logo) with false.
  change (string_eqb k_category k_category) with true.
  change (string_eqb k_logo k_logo) with true.
  cbv iota. rewrite Ht. reflexivity.
Qed.

Lemma fragment_link (location : Location) (token : jsstring) :
  ~ In 35 (origin location ++ pathname location) ->
  fragment (origin location ++ pathname location ++ share_marker ++ token)
  = share_marker ++ token.
Proof.
  rewrite List.app_assoc. generalize (origin location ++ pathname location).
  intros l H. induction l as [|c l IH]; [reflexivity|].
  cbn [app fragment]. destruct (N.eqb_spec c 35) as [->|_].
  - exfalso. apply H. now left.
  - apply IH. intros Hin. apply H. now right.
Qed.

End ShareLinks.

Section ShareTheorems.

Lemma link_without_logo (location : Location) (p : SharePayload) :
  payload_text p ->
  exists token,
    token_of (without_logo p) = Ok token /\
    link_of location (without_logo p)
    = Ok (origin location ++ pathname location ++ share_marker ++ token) /\
    (chart_numbers (share_article p) ->
     decode_share token
     = Ok (share_object (BlogPostData_object (share_article p))
                        (JStr (share_category p)) JNull)).
Proof.
  intros (Ha & Hc & _).
  assert (Hu : utf16 (share_object (BlogPostData_object (share_article p))
                                   (JStr (share_category p)) JNull)).
  { apply share_object_utf16; [now apply article_object_utf16|now apply utf16_str|
                               apply utf16_null]. }
  eexists. split; [|split].
  - unfold token_of, without_logo. cbn [share_article share_category share_logo nullable].
    apply (share_token_text _ _ JNull true). exact Hu.
  - unfold link_of, share_url, generateUrl, without_logo.
    cbn [share_article share_category share_logo nullable truthy].
    rewrite (share_token_text _ _ JNull false) by exact Hu.
    cbn [bind]. rewrite andb_false_r. reflexivity.
  - intros Hnum. apply decode_share_text; [exact Hu|].
    apply share_object_well_formed;
      [now apply article_object_well_formed|constructor|constructor].
Qed.

(** C3.  When the token of a payload is longer than 30,000 characters the
    link is the one of the same payload without its logo; and a payload
    without logo always gets its link, made of its own token whatever
    the length. *)
Theorem share_link_drops_logo_over_budget (location : Location) (p : SharePayload) :
  payload_text p ->
  (forall token,
      token_of p = Ok token -> 30000 < strlen token ->
      link_of location p = link_of location (without_logo p)) /\
  exists token,
    token_of (without_logo p) = Ok token /\
    link_of location (without_logo p)
    = Ok (origin location ++ pathname location ++ share_marker ++ token).
Proof.
  intros Hp. split.
  - intros token Ht Hlen.
    unfold link_of, share_url, without_logo. unfold token_of in Ht.
    cbn [share_article share_category share_logo nullable].
    destruct (share_logo p) as [l|]; [|reflexivity]. cbn [nullable truthy] in *.
    destruct l as [|c l].
    + cbn [bind]. destruct (generateUrl _ _ _ _ false); cbn [bind]; [reflexivity|].
      now rewrite andb_false_r.
    + unfold generateUrl at 1. rewrite Ht. cbn [bind].
      assert (Hurl : (30000 <? strlen (origin location ++ pathname location
                                        ++ share_marker ++ token)) = true).
      { apply N.ltb_lt. unfold strlen in *. rewrite !length_app. lia. }
      rewrite Hurl. cbn [andb nullable truthy bind].
      destruct (generateUrl _ _ _ _ false); cbn [bind]; [reflexivity|].
      now rewrite andb_false_r.
  - destruct (link_without_logo location p Hp) as (token & H1 & H2 & _). eauto.
Qed.

(** C1, as the code has it.  The budget of 30,000 characters is measured
    on the whole link, not on the token: when the payload has no logo, or
    its link with the logo is not longer than 30,000 characters, opening
    the link installs the payload, and no other field of the state
    moves.  A logo that is the empty string counts as none and is
    excluded; so is a chart value that is not finite or is [-0], which
    JSON does not write as it is. *)
Theorem share_link_round_trip (location : Location) (p : SharePayload) (st : State) :
  payload_text p ->
  chart_numbers (share_article p) ->
  share_logo p <> Some [] ->
  ~ In 35 (origin location ++ pathname location) ->
  (share_logo p = None \/
   exists url, link_with_logo location p = Ok url /\ strlen url <= 30000) ->
  exists st',
    share_then_open location p st = Ok st' /\
    holds st' p /\
    isLoading st' = isLoading st /\
    isGeneratingMore st' = isGeneratingMore st /\
    error st' = error st.
Proof.
  intros Hp Hnum Hlogo Hloc Hbudget.
  assert (Hcat : or_else (Some (JStr (share_category p))) (JStr []) = JStr (share_category p)).
  { cbn [or_else truthy]. destruct (share_category p); reflexivity. }
  destruct (share_logo p) as [l|] eqn:El.
  - destruct Hbudget as [H|(url & Hurl & Hlen)]; [discriminate|].
    destruct l as [|c l]; [contradiction|].
    destruct Hp as (Ha & Hc & Hl). rewrite El in Hl.
    assert (Hu : utf16 (share_object (BlogPostData_object (share_article p))
                                     (JStr (share_category p)) (JStr (c :: l)))).
    { apply share_object_utf16; [now apply article_object_utf16|now apply utf16_str|
                                 now apply utf16_str]. }
    pose proof (decode_share_text _ Hu
                  (share_object_well_formed _ _ _ (article_object_well_formed _ Hnum)
                                            (wf_str _) (wf_str _))) as Hdec.
    pose proof (generateUrl_text location _ _ (JStr (c :: l)) true Hu) as Hgen.
    cbv iota in Hgen.
    set (token := encode_octets _) in *.
    unfold link_with_logo in Hurl. rewrite El in Hurl. cbn [nullable] in Hurl.
    rewrite Hgen in Hurl.
    assert (Eurl : url = origin location ++ pathname location ++ share_marker ++ token)
      by congruence.
    subst url. clear Hurl.
    unfold share_then_open, link_of, share_url. rewrite El.
    cbn [nullable truthy]. rewrite Hgen. unfold bind at 2.
    assert (Hfits : (30000 <? strlen (origin location ++ pathname location
                                      ++ share_marker ++ token)) = false)
      by (apply N.ltb_ge; exact Hlen).
    rewrite Hfits. cbn [andb]. unfold bind.
    rewrite fragment_link by exact Hloc.
    rewrite (handleHashChange_payload st _ _ _ _ Hdec) by reflexivity.
    eexists. split; [reflexivity|]. rewrite Hcat.
    unfold holds. rewrite El. repeat split.
  - destruct (link_without_logo location p Hp) as (token & _ & Hlink & Hdec).
    specialize (Hdec Hnum).
    assert (Hsame : link_of location p = link_of location (without_logo p)).
    { unfold link_of, without_logo. cbn [share_article share_category share_logo].
      now rewrite El. }
    unfold share_then_open. rewrite Hsame, Hlink. cbn [bind].
    rewrite fragment_link by exact Hloc.
    rewrite (handleHashChange_payload st _ _ _ _ Hdec) by reflexivity.
    eexists. split; [reflexivity|]. rewrite Hcat.
    unfold holds. rewrite El. repeat split.
Qed.

End ShareTheorems.

Section ShareExamples.

Lemma wf_stringb_ok (s : jsstring) : wf_stringb s = true -> wf_string s.
Proof.
  intros H. apply Forall_forall. intros c Hc.
  unfold wf_stringb in H. rewrite forallb_forall in H.
  apply N.ltb_lt. auto.
Qed.

Lemma wf_string_repeat (c : N) (n : nat) : c < 65536 -> wf_string (repeat c n).
Proof. intros H. induction n; simpl; constructor; auto. Qed.

Ltac text :=
  first [ apply wf_stringb_ok; vm_compute; reflexivity
        | exact I
        | apply Forall_nil
        | apply Forall_cons; [text|text]
        | split; [text|text] ].

Lemma sample_article_text : article_text sample_article.
Proof. text. Qed.

Lemma polish_payload_text : payload_text polish_payload.
Proof. text. Qed.

Lemma heavy_payload_text : payload_text heavy_payload.
Proof.
  split; [exact sample_article_text|]. split; [text|].
  change (wf_string (js "data:image/png;base64," ++ repeat 65 (N.to_nat 30000))).
  apply Forall_app. split; [text|].
  apply wf_string_repeat. reflexivity.
Qed.

Lemma payload_object_utf16 (p : SharePayload) :
  payload_text p ->
  utf16 (share_object (BlogPostData_object (share_article p))
                      (JStr (share_category p)) (nullable (share_logo p))).
Proof.
  intros (Ha & Hc & Hl).
  apply share_object_utf16; [now apply article_object_utf16|now apply utf16_str|].
  destruct (share_logo p); [now apply utf16_str|apply utf16_null].
Qed.

Lemma token_of_text (p : SharePayload) :
  payload_text p -> token_of p = Ok (token_text p).
Proof.
  intros H. unfold token_of, token_text.
  apply (share_token_text _ _ (nullable (share_logo p)) true).
  now apply payload_object_utf16.
Qed.

Lemma link_with_logo_text (location : Location) (p : SharePayload) :
  payload_text p ->
  link_with_logo location p
  = Ok (origin location ++ pathname location ++ share_marker ++ token_text p).
Proof.
  intros H. unfold link_with_logo, token_text.
  apply (generateUrl_text location _ _ (nullable (share_logo p)) true).
  now apply payload_object_utf16.
Qed.

Lemma boundary_payload_text : payload_text boundary_payload.
Proof.
  split; [exact sample_article_text|]. split; [text|].
  change (wf_string (js "data:image/png;base64," ++ repeat 65 (N.to_nat 22280))).
  apply Forall_app. split; [text|].
  apply wf_string_repeat. reflexivity.
Qed.

(** The claim of C1 fails on the budget: the token of [boundary_payload]
    is shorter than 30,000 characters, yet the link that is shared has no
    logo and opening it leaves the session without one. *)
Lemma share_link_under_token_budget_loses_logo :
  (exists token, token_of boundary_payload = Ok token /\ strlen token < 30000) /\
  exists st',
    share_then_open example_location boundary_payload initial = Ok st' /\
    logo st' = JNull /\
    ~ holds st' boundary_payload.
Proof.
  split.
  - exists (token_text boundary_payload).
    split; [apply token_of_text, boundary_payload_text|].
    vm_compute. reflexivity.
  - exists (setLogo JNull
              (setCurrentCategory (JStr (share_category boundary_payload))
                 (setBlogData (BlogPostData_object sample_article) initial))).
    split; [vm_compute; reflexivity|]. split; [reflexivity|].
    intros (_ & _ & H). cbn [logo setLogo] in H. discriminate H.
Qed.

Lemma share_link_round_trip_witness :
  exists st',
    share_then_open example_location polish_payload initial = Ok st' /\
    holds st' polish_payload.
Proof.
  destruct (share_link_round_trip example_location polish_payload initial)
    as (st' & H1 & H2 & _).
  - exact polish_payload_text.
  - repeat (constructor; [vm_compute; reflexivity|]). constructor.
  - discriminate.
  - vm_compute. intuition discriminate.
  - right.
    exists (origin example_location ++ pathname example_location ++ share_marker
            ++ token_text polish_payload).
    split; [apply link_with_logo_text, polish_payload_text|].
    vm_compute. discriminate.
  - exists st'. split; assumption.
Defined.

(** A chart value that is not finite is shared as [null]: the article
    that the link installs is another one. *)
Example infinite_chart_value_is_shared_as_null :
  Number.of_decimal false 1 999 = Number.Infinite false /\
  ~ chart_numbers overflow_article /\
  exists st',
    share_then_open example_location overflow_payload initial = Ok st' /\
    prop (blogData st') k_chart
    = Some (JObj [(k_title, JStr (js "Skala")); (k_type, JStr (js "bar"));
                  (k_data, JArr [JObj [(k_name, JStr (js "x")); (k_value, JNull)]])]) /\
    ~ holds st' overflow_payload.
Proof.
  split; [vm_compute; reflexivity|]. split.
  { intros H. inversion H as [|? ? Hx _]. vm_compute in Hx. discriminate Hx. }
  eexists. split; [vm_compute; reflexivity|]. split; [reflexivity|].
  intros (H & _). vm_compute in H. discriminate H.
Qed.

(** A logo that is the empty string is shared as it is and opened as no
    logo. *)
Example empty_logo_is_opened_as_none :
  exists st',
    share_then_open example_location empty_logo_payload initial = Ok st' /\
    logo st' = JNull /\
    ~ holds st' empty_logo_payload.
Proof.
  eexists. split; [vm_compute; reflexivity|]. split; [reflexivity|].
  intros (_ & _ & H). vm_compute in H. discriminate H.
Qed.

Lemma share_link_drops_logo_over_budget_witness :
  link_of example_location heavy_payload
  = link_of example_location (without_logo heavy_payload).
Proof.
  apply (proj1 (share_link_drops_logo_over_budget example_location heavy_payload
                                                  heavy_payload_text)
               (token_text heavy_payload)).
  - apply token_of_text, heavy_payload_text.
  - vm_compute. reflexivity.
Defined.

End ShareExamples.

(** ** Image generation *)

Section ImageGeneration.

Import GeminiService.

Lemma first_inline_image_app (before after : list Part) (part : Part) (blob : Blob) :
  Forall (fun p => inlineData p = None) before ->
  inlineData part = Some blob ->
  first_inline_image (before ++ part :: after)
  = Some (js "data:image/png;base64," ++ interpolate (data blob)).
Proof.
  intros Hb Hp. induction Hb as [|p before Hnone _ IH]; simpl.
  - now rewrite Hp.
  - now rewrite Hnone.
Qed.

Lemma first_inline_image_inv (ps : list Part) (uri : jsstring) :
  first_inline_image ps = Some uri ->
  exists before part blob after,
    ps = before ++ part :: after /\
    Forall (fun p => inlineData p = None) before /\
    inlineData part = Some blob /\
    uri = js "data:image/png;base64," ++ interpolate (data blob).
Proof.
  induction ps as [|p ps IH]; simpl; [discriminate|].
  destruct (inlineData p) as [blob|] eqn:E.
  - intros [= <-]. exists [], p, blob, ps. repeat split; auto.
  - intros H. destruct (IH H) as (before & part & blob & after & -> & Hb & Hp & ->).
    exists (p :: before), part, blob, after. repeat split; auto.
Qed.

(** C10.  [generateBlogImage] succeeds exactly when the parts of the first
    candidate contain a part with [inlineData]; what it returns is then
    the data of the first such part behind the fixed prefix
    [data:image/png;base64,], whatever mime type the part declares and
    whatever parts follow it. *)
Theorem generateBlogImage_first_inline_part
        (service : Request -> Exc Response) (prompt uri : jsstring) :
  generateBlogImage service prompt = Ok uri <->
  exists response before part blob after,
    service (generateBlogImage_request prompt) = Ok response /\
    response_parts response = before ++ part :: after /\
    Forall (fun p => inlineData p = None) before /\
    inlineData part = Some blob /\
    uri = js "data:image/png;base64," ++ interpolate (data blob).
Proof.
  unfold generateBlogImage. split.
  - destruct (service (generateBlogImage_request prompt)) as [e|response] eqn:Es;
      simpl; [discriminate|].
    destruct (first_inline_image (response_parts response)) as [u|] eqn:Ef;
      simpl; [|discriminate].
    intros [= <-].
    destruct (first_inline_image_inv _ _ Ef)
      as (before & part & blob & after & Hps & Hb & Hp & Hu).
    exists response, before, part, blob, after. auto.
  - intros (response & before & part & blob & after & Es & Hps & Hb & Hp & ->).
    rewrite Es. simpl. rewrite Hps, (first_inline_image_app _ _ _ _ Hb Hp).
    reflexivity.
Qed.

Lemma generateBlogImage_first_inline_part_witness :
  generateBlogImage (fun _ => Ok jpeg_response) (js "a lighthouse")
  = Ok (js "data:image/png;base64," ++ js "/9j/4AAQ").
Proof.
  apply generateBlogImage_first_inline_part.
  exists jpeg_response,
         [{| part_text := Some (js "Here is your image"); inlineData := None |}],
         {| part_text := None;
            inlineData := Some {| mimeType := Some (js "image/jpeg");
                                  data := Some (js "/9j/4AAQ") |} |},
         {| mimeType := Some (js "image/jpeg"); data := Some (js "/9j/4AAQ") |},
         [{| part_text := None;
             inlineData := Some {| mimeType := Some (js "image/png");
                                   data := Some (js "iVBORw0K") |} |}].
  repeat split; try reflexivity.
  constructor; [reflexivity|constructor].
Defined.

End ImageGeneration.

(** ** Continuation *)

Section Continuation.

Import GeminiService App Spec.

(** C9.  Two bodies with the same last 500 code units give the same
    request, for any title: the request is that of the slice itself, which
    has at most 500 code units, and the answer of any service is the
    same. *)
Theorem generateMoreContent_request_depends_on_tail
        (currentTitle body1 body2 : jsstring) :
  slice_last 500 body1 = slice_last 500 body2 ->
  generateMoreContent_request currentTitle body1
  = generateMoreContent_request currentTitle body2 /\
  generateMoreContent_request currentTitle body1
  = generateMoreContent_request currentTitle (slice_last 500 body1) /\
  (length (slice_last 500 body1) <= 500)%nat /\
  forall service : Request -> Exc Response,
    generateMoreContent service currentTitle body1
    = generateMoreContent service currentTitle body2.
Proof.
  intros H.
  assert (E : generateMoreContent_request currentTitle body1
              = generateMoreContent_request currentTitle body2).
  { unfold generateMoreContent_request, generateMoreContent_prompt. now rewrite H. }
  repeat split.
  - exact E.
  - unfold generateMoreContent_request, generateMoreContent_prompt.
    now rewrite slice_last_idem.
  - apply slice_last_length.
  - intros service. unfold generateMoreContent. now rewrite E.
Qed.

Lemma generateMoreContent_request_depends_on_tail_witness :
  generateMoreContent_request (js "Sen") (repeat 65 700 ++ repeat 66 500)
  = generateMoreContent_request (js "Sen") (repeat 67 3 ++ repeat 66 500).
Proof.
  apply (generateMoreContent_request_depends_on_tail
           (js "Sen") (repeat 65 700 ++ repeat 66 500) (repeat 67 3 ++ repeat 66 500)).
  vm_compute. reflexivity.
Defined.

Lemma append_content_article (a : BlogPostData) (newContent : jsstring) :
  append_content newContent (BlogPostData_object a)
  = BlogPostData_object (with_body (body a ++ paragraph_break ++ newContent) a).
Proof. reflexivity. Qed.

(** C5.  When the session holds an article with body [A], a continuation
    that produced [B] leaves the article with body [A ++ "\n\n" ++ B] and
    every other field as it was, clears [isGeneratingMore] and touches
    nothing else; a response without text counts as [B = ""]; the former
    body is a prefix of the new one. *)
Theorem handleGenerateMore_appends (st : State) (a : BlogPostData) (B : jsstring) :
  blogData st = BlogPostData_object a ->
  handleGenerateMore_settle (Ok B) st
  = setIsGeneratingMore false
      (setBlogData (BlogPostData_object (with_body (body a ++ [10; 10] ++ B) a)) st) /\
  blogData (handleGenerateMore_settle (Ok []) st)
  = BlogPostData_object (with_body (body a ++ [10; 10]) a) /\
  firstn (length (body a)) (body a ++ [10; 10] ++ B) = body a /\
  forall (service : Request -> Exc Response) (response : Response),
    service (generateMoreContent_request (title a) (body a)) = Ok response ->
    text response = None ->
    generateMoreContent service (title a) (body a) = Ok [].
Proof.
  intros H. split; [|split; [|split]].
  - unfold handleGenerateMore_settle. now rewrite H, append_content_article.
  - unfold handleGenerateMore_settle. rewrite H, append_content_article.
    reflexivity.
  - rewrite firstn_app, firstn_all, Nat.sub_diag. simpl. apply List.app_nil_r.
  - intros service response Hs Ht. unfold generateMoreContent.
    rewrite Hs. simpl. now rewrite Ht.
Qed.

Lemma handleGenerateMore_appends_witness :
  blogData (handleGenerateMore_settle
              (Ok (js "B")) (setBlogData (BlogPostData_object sample_article) initial))
  = BlogPostData_object (with_body (js "A" ++ [10; 10] ++ js "B") sample_article).
Proof.
  rewrite (proj1 (handleGenerateMore_appends
                    (setBlogData (BlogPostData_object sample_article) initial)
                    sample_article (js "B") eq_refl)).
  reflexivity.
Defined.

End Continuation.

(** ** Generation and late responses *)

Section LateResponses.

Import App Spec.






(** The handlers themselves carry no generation token: were
    [handleGenerate] called a second time while the first call is
    awaited, which the interface does not allow, the article of the
    response that arrives last would stay. *)
Remark handlers_carry_no_token (st : State) (t1 t2 : jsstring) (c1 c2 : BlogCategory)
       (a1 a2 : json) :
  blogData (ui (run (start_session st)
                    [Generate t1 c1; Generate t2 c2; Settle 1 (Ok a2); Settle 0 (Ok a1)]))
  = a1.
Proof. reflexivity. Qed.

End LateResponses.

(** ** Share links that do not decode *)

Section MalformedLinks.

Import App Spec.

(** C8.  A hash [#share=<token>] whose token is not base64, does not hold
    UTF-8 text, does not hold JSON, or holds a value without [data],
    leaves the state as it was, and [handleHashChange] returns
    normally. *)
Theorem malformed_share_token_ignored (st : State) (token : jsstring) :
  malformed token ->
  handleHashChange st (share_marker ++ token) = Ok st.
Proof.
  intros H. unfold handleHashChange.
  rewrite startsWith_app, replace_first_prefix. simpl app.
  destruct H as [e He|binary e Hb He|binary decoded e Hb Hd He|payload Hp Hdata].
  - unfold decode_share. rewrite He. reflexivity.
  - unfold decode_share. rewrite Hb. simpl. rewrite He. reflexivity.
  - unfold decode_share. rewrite Hb. simpl. rewrite Hd. simpl. rewrite He. reflexivity.
  - rewrite Hp. simpl. rewrite Hdata. destruct (truthy payload); reflexivity.
Qed.

Lemma malformed_share_token_ignored_witness :
  handleHashChange initial (share_marker ++ js "not-base64!!") = Ok initial.
Proof.
  apply malformed_share_token_ignored.
  apply not_base64 with (e := InvalidCharacterError).
  vm_compute. reflexivity.
Defined.

End MalformedLinks.

(** ** Topic suggestions *)

Section Suggestions.

Import GeminiService.

Lemma after_first_app (c : N) (before rest : jsstring) :
  ~ In c before -> after_first c (before ++ c :: rest) = Some rest.
Proof.
  induction before as [|x before IH]; intros H; cbn [app after_first].
  - now rewrite N.eqb_refl.
  - destruct (N.eqb_spec x c) as [->|_].
    + exfalso. apply H. now left.
    + apply IH. intros Hin. apply H. now right.
Qed.

Lemma before_last_app (c : N) (inner after : jsstring) :
  ~ In c after -> before_last c (inner ++ c :: after) = Some inner.
Proof.
  intros H. unfold before_last.
  rewrite rev_app_distr. cbn [rev]. rewrite <- List.app_assoc. cbn [app].
  rewrite after_first_app by (now rewrite <- in_rev).
  now rewrite rev_involutive.
Qed.

Lemma match_array_embedded (before inner after : jsstring) :
  ~ In 91 before -> ~ In 93 after ->
  match_array (before ++ (91 :: inner ++ [93]) ++ after) = Some (91 :: inner ++ [93]).
Proof.
  intros Hb Ha. unfold match_array. cbn [app].
  rewrite after_first_app by exact Hb.
  rewrite <- List.app_assoc. cbn [app].
  now rewrite before_last_app.
Qed.

Lemma remove_all_absent (c : N) (pat s : jsstring) :
  ~ In c s -> remove_all (c :: pat) s = s.
Proof.
  unfold remove_all. induction s as [|x s IH]; intros H; [reflexivity|].
  cbn [remove_all_from]. unfold startsWith. cbn [strip_prefix].
  destruct (N.eqb_spec c x) as [->|_].
  - exfalso. apply H. now left.
  - f_equal. apply IH. intros Hin. apply H. now right.
Qed.

Lemma stringify_array_shape (l : list json) :
  stringify (JArr l) = 91 :: join [44] (map stringify l) ++ [93].
Proof. reflexivity. Qed.

Lemma TopicSuggestion_object_well_formed (t : TopicSuggestion) :
  well_formed (TopicSuggestion_object t).
Proof.
  unfold TopicSuggestion_object. apply wf_obj.
  - vm_compute. reflexivity.
  - repeat constructor.
Qed.

Lemma strip_prefix_length (p s r : jsstring) :
  strip_prefix p s = Some r -> (length p <= length s)%nat.
Proof.
  revert s. induction p as [|x p IH]; intros [|y s] H; cbn [length]; try lia.
  - discriminate H.
  - cbn [strip_prefix] in H. destruct (x =? y); [|discriminate H].
    apply IH in H. lia.
Qed.

(** A pattern does not reach over a code unit that it does not hold. *)
Lemma startsWith_before (pat b r : jsstring) (c : N) :
  ~ In c pat -> pat <> [] -> startsWith (b ++ c :: r) pat = startsWith b pat.
Proof.
  unfold startsWith. revert b. induction pat as [|x pat IH]; intros b Hc Hp.
  - contradiction.
  - destruct b as [|y b]; cbn [app strip_prefix].
    + destruct (N.eqb_spec x c) as [->|_]; [|reflexivity].
      exfalso. apply Hc. now left.
    + destruct (x =? y); [|reflexivity].
      destruct pat as [|x' pat]; [reflexivity|].
      apply IH; [|discriminate]. intros H. apply Hc. now right.
Qed.

Lemma remove_all_from_before (pat r : jsstring) (c : N) :
  ~ In c pat -> pat <> [] ->
  forall b skip,
    (skip <= length b)%nat ->
    remove_all_from pat skip (b ++ c :: r)
    = remove_all_from pat skip b ++ remove_all_from pat O (c :: r).
Proof.
  intros Hc Hp. induction b as [|y b IH]; intros skip Hs.
  - cbn [length] in Hs. assert (skip = O) by lia. subst skip. reflexivity.
  - destruct skip as [|k].
    + change ((y :: b) ++ c :: r) with (y :: b ++ c :: r).
      cbn [remove_all_from].
      change (y :: b ++ c :: r) with ((y :: b) ++ c :: r).
      rewrite (startsWith_before pat (y :: b) r c Hc Hp).
      destruct (startsWith (y :: b) pat) eqn:E.
      * apply IH. unfold startsWith in E.
        destruct (strip_prefix pat (y :: b)) as [t|] eqn:Et; [|discriminate E].
        apply strip_prefix_length in Et. cbn [length] in Et. lia.
      * cbn [app]. f_equal. apply IH. lia.
    + cbn [app remove_all_from]. apply IH. cbn [length] in Hs. lia.
Qed.

(** A text without a code fence that ends with a code unit foreign to
    the pattern goes through the removal as it is. *)
Lemma remove_all_from_fence_free (pat after : jsstring) (c : N) :
  ~ In c pat -> ~ In c fence -> pat <> [] ->
  (forall s, startsWith s pat = true -> startsWith s fence = true) ->
  forall m,
    fence_free (m ++ [c]) = true ->
    remove_all_from pat O ((m ++ [c]) ++ after)
    = (m ++ [c]) ++ remove_all_from pat O after.
Proof.
  intros Hc Hf Hp Hpat. induction m as [|y m IH]; intros Hm.
  - cbn [app remove_all_from].
    pose proof (startsWith_before pat [] after c Hc Hp) as E. cbn [app] in E.
    rewrite E. destruct pat as [|x pat]; [contradiction|]. reflexivity.
  - change (((y :: m) ++ [c]) ++ after) with (y :: (m ++ [c]) ++ after).
    change ((y :: m) ++ [c]) with (y :: m ++ [c]) in Hm.
    cbn [fence_free] in Hm. apply andb_prop in Hm as [Hy Hm].
    apply negb_true_iff in Hy.
    cbn [remove_all_from].
    destruct (startsWith (y :: (m ++ [c]) ++ after) pat) eqn:E.
    + exfalso. apply Hpat in E.
      assert (Eq : y :: (m ++ [c]) ++ after = (y :: m) ++ c :: after)
        by (cbn [app]; now rewrite <- List.app_assoc).
      rewrite Eq in E.
      rewrite (startsWith_before fence (y :: m) after c Hf) in E by discriminate.
      change (y :: m ++ [c]) with ((y :: m) ++ c :: []) in Hy.
      rewrite (startsWith_before fence (y :: m) [] c Hf) in Hy by discriminate.
      congruence.
    + cbn [app]. f_equal. now apply IH.
Qed.

Lemma remove_all_from_in (pat : jsstring) (x : N) (s : jsstring) (skip : nat) :
  In x (remove_all_from pat skip s) -> In x s.
Proof.
  revert skip. induction s as [|y s IH]; intros skip H; [exact H|].
  destruct skip as [|k]; cbn [remove_all_from] in H.
  - destruct (startsWith (y :: s) pat).
    + right. exact (IH _ H).
    + destruct H as [->|H]; [now left|right; exact (IH _ H)].
  - right. exact (IH _ H).
Qed.

Lemma fence_json_starts_fence (s : jsstring) :
  startsWith s fence_json = true -> startsWith s fence = true.
Proof.
  unfold startsWith, fence_json, fence.
  destruct s as [|a [|b [|c r]]]; cbn [strip_prefix];
    repeat match goal with
           | |- context [N.eqb ?x ?y] => destruct (N.eqb x y)
           end; auto.
Qed.

(** The cleaning leaves an array text without a code fence where it is,
    between what it leaves of the commentary. *)
Lemma remove_all_around_array (pat before inner after : jsstring) :
  ~ In 91 pat -> ~ In 93 pat -> pat <> [] ->
  (forall s, startsWith s pat = true -> startsWith s fence = true) ->
  fence_free (91 :: inner ++ [93]) = true ->
  remove_all pat (before ++ (91 :: inner ++ [93]) ++ after)
  = remove_all pat before ++ (91 :: inner ++ [93]) ++ remove_all pat after.
Proof.
  intros H91 H93 Hp Hpat Hfree. unfold remove_all.
  change (before ++ (91 :: inner ++ [93]) ++ after)
    with (before ++ 91 :: (inner ++ [93]) ++ after).
  rewrite (remove_all_from_before pat _ 91 H91 Hp before O) by lia.
  f_equal.
  change (91 :: (inner ++ [93]) ++ after) with (((91 :: inner) ++ [93]) ++ after).
  apply remove_all_from_fence_free; try assumption.
  cbn. intuition discriminate.
Qed.

(** C4, as the code has it.  [generateTrendingTopics] removes the code
    fences, takes the text from the first [[] to the last []] and parses
    it: without such a stretch the topics are empty and nothing is
    reported; a stretch that is not JSON makes [JSON.parse] throw, and
    the exception is thrown on to the caller.  The text of a JSON array,
    from its [[] to its []], wrapped in commentary comes out as
    [JSON.parse] reads it, whatever its layout and whatever code fences
    the commentary holds, when the commentary has no [[] before it and
    no []] after it and the array text itself holds no code fence. *)
Theorem generateTrendingTopics_extraction
        (service : Request -> Exc Response) (category : jsstring) (range : TimeRange)
        (response : Response) :
  service (generateTrendingTopics_request category range) = Ok response ->
  generateTrendingTopics service category range
  = match match_array (remove_all fence
                         (remove_all fence_json
                            (match text response with Some t => t | None => [] end))) with
    | None => Ok (JArr [], collect_sources (response_chunks response))
    | Some m =>
      match JSON.parse m with
      | Ok topics => Ok (topics, collect_sources (response_chunks response))
      | Throw e => Throw e
      end
    end /\
  forall (before inner after : jsstring) (topics : json),
    text response = Some (before ++ (91 :: inner ++ [93]) ++ after) ->
    ~ In 91 before -> ~ In 93 after ->
    fence_free (91 :: inner ++ [93]) = true ->
    JSON.parse (91 :: inner ++ [93]) = Ok topics ->
    generateTrendingTopics service category range
    = Ok (topics, collect_sources (response_chunks response)).
Proof.
  intros Hs.
  assert (Hgen : generateTrendingTopics service category range
                 = match match_array (remove_all fence
                                        (remove_all fence_json
                                           (match text response with
                                            | Some t => t
                                            | None => []
                                            end))) with
                   | None => Ok (JArr [], collect_sources (response_chunks response))
                   | Some m =>
                     match JSON.parse m with
                     | Ok topics => Ok (topics, collect_sources (response_chunks response))
                     | Throw e => Throw e
                     end
                   end).
  { unfold generateTrendingTopics. rewrite Hs. cbn [bind try_catch].
    destruct (match_array _) as [m|]; [|reflexivity].
    destruct (JSON.parse m); reflexivity. }
  split; [exact Hgen|].
  intros before inner after topics Ht Hb Ha Hfree Hparse. rewrite Hgen, Ht.
  rewrite (remove_all_around_array fence_json before inner after);
    [|cbn; intuition discriminate|cbn; intuition discriminate|discriminate
     |exact fence_json_starts_fence|exact Hfree].
  rewrite (remove_all_around_array fence _ inner _);
    [|cbn; intuition discriminate|cbn; intuition discriminate|discriminate
     |auto|exact Hfree].
  rewrite match_array_embedded.
  - now rewrite Hparse.
  - intros H. apply Hb. unfold remove_all in H.
    now apply remove_all_from_in, remove_all_from_in in H.
  - intros H. apply Ha. unfold remove_all in H.
    now apply remove_all_from_in, remove_all_from_in in H.
Qed.

(** The example of the specification, and the same array indented and
    in a code fence. *)
Lemma generateTrendingTopics_extraction_witness :
  generateTrendingTopics (fun _ => Ok commented_response) (js "Zdrowie") WEEK
  = Ok (JArr [TopicSuggestion_object idea], []) /\
  generateTrendingTopics (fun _ => Ok fenced_response) (js "Zdrowie") WEEK
  = Ok (JArr [TopicSuggestion_object idea], []).
Proof.
  split.
  - apply (proj2 (generateTrendingTopics_extraction
                    (fun _ => Ok commented_response) (js "Zdrowie") WEEK
                    commented_response eq_refl)
                 (js "Here are some ideas:" ++ [10])
                 (removelast (tl (stringify (JArr [TopicSuggestion_object idea]))))
                 ([10] ++ js "Hope this helps!")).
    + vm_compute. reflexivity.
    + vm_compute. intuition discriminate.
    + vm_compute. intuition discriminate.
    + vm_compute. reflexivity.
    + vm_compute. reflexivity.
  - apply (proj2 (generateTrendingTopics_extraction
                    (fun _ => Ok fenced_response) (js "Zdrowie") WEEK
                    fenced_response eq_refl)
                 (js "```json" ++ [10])
                 (removelast (tl indented_array))
                 ([10] ++ js "```")).
    + vm_compute. reflexivity.
    + vm_compute. intuition discriminate.
    + vm_compute. intuition discriminate.
    + vm_compute. reflexivity.
    + vm_compute. reflexivity.
Defined.

(** The claim of C4 fails where the stretch is not JSON: the array is
    there, wrapped in commentary, and the call throws. *)
Lemma suggestion_parse_failure_is_thrown :
  text bracketed_response
  = Some (js "Sources [1]. " ++ stringify (JArr [TopicSuggestion_object idea])) /\
  generateTrendingTopics (fun _ => Ok bracketed_response) (js "Zdrowie") WEEK
  = Throw SyntaxError /\
  forall sources,
    generateTrendingTopics (fun _ => Ok bracketed_response) (js "Zdrowie") WEEK
    <> Ok (JArr [], sources).
Proof.
  split; [reflexivity|]. split; [vm_compute; reflexivity|].
  intros sources H.
  assert (E : generateTrendingTopics (fun _ => Ok bracketed_response) (js "Zdrowie") WEEK
              = Throw SyntaxError) by (vm_compute; reflexivity).
  rewrite E in H. discriminate H.
Qed.

(** A code fence inside the array text is removed with the others: the
    topics are not what [JSON.parse] reads in the text of the response. *)
Example fence_inside_array_is_removed :
  (exists t, text fence_inside_response = Some t /\
             JSON.parse t = Ok (JArr [TopicSuggestion_object fence_topic])) /\
  generateTrendingTopics (fun _ => Ok fence_inside_response) (js "Zdrowie") WEEK
  = Ok (JArr [TopicSuggestion_object
                {| topic_title := js "ab"; topic_description := js "Y" |}], []).
Proof.
  split; [|vm_compute; reflexivity].
  eexists. split; [reflexivity|]. vm_compute. reflexivity.
Qed.

End Suggestions.

(** ** What [JSON.parse] returns *)

Section ParserOutput.

(** A key that is no array index goes last when it is new. *)
Lemma obj_set_keys (k : jsstring) (v : json) (ms : list (jsstring * json)) :
  array_index k = None ->
  map fst (obj_set k v ms)
  = if existsb (fun k' => string_eqb k' k) (map fst ms) then map fst ms
    else map fst ms ++ [k].
Proof.
  intros Hk.
  assert (L : forall k', listed_before k k' = false)
    by (intros k'; unfold listed_before; now rewrite Hk).
  induction ms as [|[k' v'] ms IH]; cbn [obj_set map fst existsb app]; [reflexivity|].
  destruct (string_eqb k' k) eqn:E; cbn [orb map fst].
  - apply string_eqb_eq in E. now subst.
  - rewrite L. cbn [map fst]. rewrite IH. destruct (existsb _ (map fst ms)); reflexivity.
Qed.

Lemma obj_set_keys_in (k x : jsstring) (v : json) (ms : list (jsstring * json)) :
  In x (map fst (obj_set k v ms)) -> x = k \/ In x (map fst ms).
Proof.
  induction ms as [|[k' v'] ms IH]; cbn [obj_set map fst In].
  - intros [H|[]]; now left.
  - destruct (string_eqb k' k); [|destruct (listed_before k k')]; cbn [map fst In].
    + intros [H|H]; [now left|now right; right].
    + intros [H|[H|H]]; [now left|now right; left|now right; right].
    + intros [H|H]; [now right; left|]. destruct (IH H) as [H'|H']; [now left|now right; right].
Qed.

Lemma string_eqb_sym (a b : jsstring) : string_eqb a b = string_eqb b a.
Proof.
  destruct (string_eqb a b) eqn:E.
  - apply string_eqb_eq in E. subst. now rewrite string_eqb_refl.
  - destruct (string_eqb b a) eqn:E'; [|reflexivity].
    apply string_eqb_eq in E'. subst. now rewrite string_eqb_refl in E.
Qed.

(** A key listed before [k'] is listed before every key that may follow
    [k']. *)
Lemma listed_after_before (k k' x : jsstring) :
  listed_before k k' = true -> listed_after k' x = true -> listed_after k x = true.
Proof.
  unfold listed_after, listed_before. intros Hb Ha.
  apply andb_prop in Ha. destruct Ha as [_ Ha]. apply negb_true_iff in Ha.
  destruct (array_index k) as [n|] eqn:Ek; [|discriminate Hb].
  assert (Hne : forall m, array_index x = Some m -> (n <? m)%N = true ->
                          string_eqb k x = false).
  { intros m Ex Hlt. destruct (string_eqb k x) eqn:E; [|reflexivity].
    apply string_eqb_eq in E. subst x. rewrite Ek in Ex. injection Ex as <-.
    apply N.ltb_lt in Hlt. lia. }
  destruct (array_index x) as [m|] eqn:Ex.
  - destruct (array_index k') as [n'|] eqn:Ek'; [|discriminate Ha].
    apply N.ltb_lt in Hb. apply N.ltb_ge in Ha.
    assert (Hlt : (n <? m)%N = true) by (apply N.ltb_lt; lia).
    rewrite (Hne m eq_refl Hlt). cbn [negb andb].
    apply negb_true_iff, N.ltb_ge. lia.
  - destruct (string_eqb k x) eqn:E; [|reflexivity].
    apply string_eqb_eq in E. subst x. congruence.
Qed.

(** Defining a property keeps the properties in their order. *)
Lemma obj_set_order (k : jsstring) (v : json) (ms : list (jsstring * json)) :
  property_order (map fst ms) = true -> property_order (map fst (obj_set k v ms)) = true.
Proof.
  induction ms as [|[k' v'] ms IH]; cbn [obj_set map fst]; [reflexivity|].
  cbn [property_order]. intros H. apply andb_prop in H. destruct H as [Hk' Hr].
  destruct (string_eqb k' k) eqn:E.
  - apply string_eqb_eq in E. subst k'. cbn [map fst property_order].
    now rewrite Hk', Hr.
  - destruct (listed_before k k') eqn:B; cbn [map fst property_order forallb].
    + rewrite Hk', Hr, !andb_true_r. apply andb_true_intro. split.
      * unfold listed_after. rewrite string_eqb_sym, E. cbn [negb andb].
        apply negb_true_iff. unfold listed_before in *.
        destruct (array_index k) as [n|]; [|discriminate B].
        destruct (array_index k') as [n'|]; [|reflexivity].
        apply N.ltb_lt in B. apply N.ltb_ge. lia.
      * apply forallb_forall. intros x Hx.
        apply (listed_after_before k k' x B).
        exact (proj1 (forallb_forall _ _) Hk' x Hx).
    + rewrite (IH Hr), andb_true_r. apply forallb_forall. intros x Hx.
      destruct (obj_set_keys_in _ _ _ _ Hx) as [->|Hx'].
      * unfold listed_after. now rewrite E, B.
      * exact (proj1 (forallb_forall _ _) Hk' x Hx').
Qed.

Lemma obj_set_forall (P : json -> Prop) (k : jsstring) (v : json)
      (ms : list (jsstring * json)) :
  P v -> Forall (fun kv => P (snd kv)) ms ->
  Forall (fun kv => P (snd kv)) (obj_set k v ms).
Proof.
  intros Hv. induction 1 as [|[k' v'] ms Hk Hms IH]; cbn [obj_set].
  - repeat constructor. exact Hv.
  - destruct (string_eqb k' k); [|destruct (listed_before k k')];
      repeat (constructor; auto).
Qed.

Lemma obj_of_members_listed (ms : list (jsstring * json)) :
  Forall (fun kv => listed (snd kv)) ms -> listed (JObj (obj_of_members ms)).
Proof.
  intros H. unfold obj_of_members.
  assert (G : forall acc,
             property_order (map fst acc) = true ->
             Forall (fun kv => listed (snd kv)) acc ->
             listed (JObj (fold_left (fun a kv => obj_set (fst kv) (snd kv) a) ms acc))).
  { induction H as [|[k v] ms Hv _ IH]; intros acc Hn Ha; cbn [fold_left].
    - now apply ls_obj.
    - apply IH; [now apply obj_set_order|now apply obj_set_forall]. }
  apply G; [reflexivity|constructor].
Qed.

Ltac break_match H :=
  match type of H with
  | context [match ?x with _ => _ end] => destruct x eqn:?
  end.

Lemma parse_number_listed (s : jsstring) (v : json) (r : jsstring) :
  parse_number s = Some (v, r) -> listed v.
Proof.
  unfold parse_number. intros H.
  repeat (break_match H; try discriminate).
  all: injection H as <- _; constructor.
Qed.

Lemma parse_literal_inv (lit : jsstring) (x v : json) (s r : jsstring) :
  parse_literal lit x s = Parsed v r -> v = x.
Proof.
  unfold parse_literal. destruct (strip_prefix lit s); [|discriminate].
  now intros [= <- _].
Qed.

Lemma parse_fuel_listed (fuel : nat) :
  (forall s v r, parse_value fuel s = Parsed v r -> listed v) /\
  (forall s l r, parse_elements fuel s = Parsed l r -> Forall listed l) /\
  (forall s ms r, parse_members fuel s = Parsed ms r ->
                  Forall (fun kv => listed (snd kv)) ms).
Proof.
  induction fuel as [|f (IHv & IHe & IHm)]; [repeat split; discriminate|].
  split; [|split].
  - intros s v r H. cbn [parse_value] in H.
    destruct (skip_ws s) as [|c t]; [discriminate|].
    destruct (c =? 34).
    { destruct (parse_string_chars t) as [[str r']|]; [|discriminate].
      injection H as <- _. constructor. }
    destruct (c =? 91).
    { destruct (skip_ws t) as [|d r']; [discriminate|].
      destruct (d =? 93); [injection H as <- _; constructor; constructor|].
      destruct (parse_elements f t) as [| |l r''] eqn:E; try discriminate.
      injection H as <- _. constructor. eapply IHe, E. }
    destruct (c =? 123).
    { destruct (skip_ws t) as [|d r']; [discriminate|].
      destruct (d =? 125); [injection H as <- _; constructor; constructor|].
      destruct (parse_members f t) as [| |ms r''] eqn:E; try discriminate.
      injection H as <- _. apply obj_of_members_listed. eapply IHm, E. }
    destruct (c =? 110); [apply parse_literal_inv in H; subst; constructor|].
    destruct (c =? 116); [apply parse_literal_inv in H; subst; constructor|].
    destruct (c =? 102); [apply parse_literal_inv in H; subst; constructor|].
    destruct (parse_number (c :: t)) as [[v' r']|] eqn:E; [|discriminate].
    injection H as <- _. eapply parse_number_listed, E.
  - intros s l r H. rewrite parse_elements_eq in H.
    destruct (parse_value f s) as [| |v r1] eqn:Ev; try discriminate.
    destruct (skip_ws r1) as [|c r']; [discriminate|].
    destruct (c =? 44).
    { destruct (parse_elements f r') as [| |l' r''] eqn:Ee; try discriminate.
      injection H as <- _. constructor; [eapply IHv, Ev|eapply IHe, Ee]. }
    destruct (c =? 93); [|discriminate].
    injection H as <- _. constructor; [eapply IHv, Ev|constructor].
  - intros s ms r H. rewrite parse_members_eq in H.
    destruct (skip_ws s) as [|q t]; [discriminate|].
    destruct (q =? 34); [|discriminate].
    destruct (parse_string_chars t) as [[k r1]|]; [|discriminate].
    destruct (skip_ws r1) as [|c r2]; [discriminate|].
    destruct (c =? 58); [|discriminate].
    destruct (parse_value f r2) as [| |v r3] eqn:Ev; try discriminate.
    destruct (skip_ws r3) as [|c' r4]; [discriminate|].
    destruct (c' =? 44).
    { destruct (parse_members f r4) as [| |ms' r5] eqn:Em; try discriminate.
      injection H as <- _. constructor; [eapply IHv, Ev|eapply IHm, Em]. }
    destruct (c' =? 125); [|discriminate].
    injection H as <- _. constructor; [eapply IHv, Ev|constructor].
Qed.

(** Whatever [JSON.parse] returns lists the properties of its objects in
    their order. *)
Lemma parse_listed (s : jsstring) (v : json) : JSON.parse s = Ok v -> listed v.
Proof.
  unfold JSON.parse. destruct (parse_value _ s) as [| |v' r] eqn:E; try discriminate.
  destruct (skip_ws r); [|discriminate]. intros [= <-].
  eapply (proj1 (parse_fuel_listed _)), E.
Qed.

End ParserOutput.

(** ** The fuel of the parser *)

Section ParserFuel.

Lemma skip_ws_length (s : jsstring) : (length (skip_ws s) <= length s)%nat.
Proof.
  induction s as [|c s IH]; cbn [skip_ws length]; [lia|].
  destruct (is_json_ws c); cbn [length]; lia.
Qed.

Lemma skip_ws_cons_length (s r : jsstring) (c : N) :
  skip_ws s = c :: r -> (length r < length s)%nat.
Proof.
  intros H. pose proof (skip_ws_length s) as L. rewrite H in L. cbn [length] in L. lia.
Qed.

Lemma parse_string_chars_rest (n : nat) :
  forall s str r,
    (length s <= n)%nat -> parse_string_chars s = Some (str, r) ->
    (length r < length s)%nat.
Proof.
  induction n as [|n IH]; intros s str r Hn H.
  - destruct s; [discriminate H|cbn [length] in Hn; lia].
  - destruct s as [|c s]; [discriminate H|]. cbn [parse_string_chars] in H.
    cbn [length] in *.
    destruct (c =? 34).
    { injection H as _ <-. lia. }
    destruct (c =? 92).
    + destruct s as [|l r1]; [discriminate H|]. cbn [length] in *.
      destruct (l =? 117).
      * destruct r1 as [|h1 [|h2 [|h3 [|h4 r2]]]]; try discriminate H.
        destruct (hex_value h1), (hex_value h2), (hex_value h3), (hex_value h4);
          try discriminate H.
        destruct (parse_string_chars r2) as [[l' r']|] eqn:E; [|discriminate H].
        cbn [option_cons] in H. injection H as _ <-.
        apply IH in E; cbn [length] in *; lia.
      * destruct (short_unescape l); [|discriminate H].
        destruct (parse_string_chars r1) as [[l' r']|] eqn:E; [|discriminate H].
        cbn [option_cons] in H. injection H as _ <-.
        apply IH in E; cbn [length] in *; lia.
    + destruct (c <? 32); [discriminate H|].
      destruct (parse_string_chars s) as [[l' r']|] eqn:E; [|discriminate H].
      cbn [option_cons] in H. injection H as _ <-.
      apply IH in E; lia.
Qed.

Lemma span_digits_rest (s : jsstring) :
  (length (snd (span_digits s)) <= length s)%nat.
Proof.
  induction s as [|c s IH]; cbn [span_digits]; [cbn; lia|].
  destruct (is_digit c); [|cbn; lia].
  destruct (span_digits s) as [ds r']. cbn [snd length] in *. lia.
Qed.

Lemma parse_int_part_rest (s ip r : jsstring) :
  parse_int_part s = Some (ip, r) -> (length r < length s)%nat.
Proof.
  destruct s as [|c s]; [discriminate|]. cbn [parse_int_part length].
  destruct (c =? 48); [intros H; injection H as _ <-; lia|].
  destruct (is_digit c); [|discriminate].
  pose proof (span_digits_rest s) as L. destruct (span_digits s) as [ds r'].
  intros H. injection H as _ <-. cbn [snd] in L. lia.
Qed.

Lemma parse_frac_part_rest (s fp r : jsstring) :
  parse_frac_part s = Some (fp, r) -> (length r <= length s)%nat.
Proof.
  destruct s as [|c s]; cbn [parse_frac_part].
  { intros H. injection H as _ <-. lia. }
  destruct (c =? 46); [|intros H; injection H as _ <-; lia].
  pose proof (span_digits_rest s) as L. destruct (span_digits s) as [[|d ds] r'];
    [discriminate|].
  intros H. injection H as _ <-. cbn [snd length] in *. lia.
Qed.

Lemma parse_exp_digits_rest (neg : bool) (s r : jsstring) (ex : Z) :
  parse_exp_digits neg s = Some (ex, r) -> (length r <= length s)%nat.
Proof.
  unfold parse_exp_digits.
  pose proof (span_digits_rest s) as L. destruct (span_digits s) as [[|d ds] r'];
    [discriminate|].
  intros H. injection H as _ <-. cbn [snd] in L. lia.
Qed.

Lemma parse_exp_part_rest (s r : jsstring) (ex : Z) :
  parse_exp_part s = Some (ex, r) -> (length r <= length s)%nat.
Proof.
  destruct s as [|c s]; cbn [parse_exp_part].
  { intros H. injection H as _ <-. lia. }
  destruct ((c =? 101) || (c =? 69)); [|intros H; injection H as _ <-; lia].
  destruct s as [|sg r1]; [discriminate|].
  destruct (sg =? 45); [|destruct (sg =? 43)]; intros H;
    apply parse_exp_digits_rest in H; cbn [length] in *; lia.
Qed.

Lemma parse_number_rest (s r : jsstring) (v : json) :
  parse_number s = Some (v, r) -> (length r < length s)%nat.
Proof.
  unfold parse_number.
  set (sign := match s with
               | c :: r0 => if c =? 45 then (true, r0) else (false, s)
               | [] => (false, s)
               end).
  assert (Hs : (length (snd sign) <= length s)%nat).
  { subst sign. destruct s as [|c r0]; [cbn; lia|].
    destruct (c =? 45); cbn [snd length]; lia. }
  destruct sign as [neg s1]. cbn [snd] in Hs.
  destruct (parse_int_part s1) as [[ip s2]|] eqn:E1; [|discriminate].
  destruct (parse_frac_part s2) as [[fp s3]|] eqn:E2; [|discriminate].
  destruct (parse_exp_part s3) as [[ex s4]|] eqn:E3; [|discriminate].
  intros H. injection H as _ <-.
  apply parse_int_part_rest in E1. apply parse_frac_part_rest in E2.
  apply parse_exp_part_rest in E3. lia.
Qed.

Lemma strip_prefix_rest (lit s r : jsstring) :
  strip_prefix lit s = Some r -> (length r + length lit = length s)%nat.
Proof.
  revert s. induction lit as [|a lit IH]; intros s; cbn [strip_prefix].
  - intros H. injection H as <-. cbn [length]. lia.
  - destruct s as [|c s]; [discriminate|].
    destruct (a =? c); [|discriminate].
    intros H. apply IH in H. cbn [length]. lia.
Qed.

Lemma parse_literal_rest (lit s r : jsstring) (v w : json) :
  lit <> [] -> parse_literal lit v s = Parsed w r -> (length r < length s)%nat.
Proof.
  unfold parse_literal. intros Hl.
  destruct (strip_prefix lit s) as [r'|] eqn:E; [|discriminate].
  intros H. injection H as _ <-. apply strip_prefix_rest in E.
  destruct lit; [contradiction|cbn [length] in E; lia].
Qed.

Lemma literals_nonempty : lit_null <> [] /\ lit_true <> [] /\ lit_false <> [].
Proof. repeat split; discriminate. Qed.

(** Every parser leaves less than it was given. *)
Lemma parse_fuel_rest (fuel : nat) :
  (forall s v r, parse_value fuel s = Parsed v r -> (length r < length s)%nat) /\
  (forall s l r, parse_elements fuel s = Parsed l r -> (length r < length s)%nat) /\
  (forall s ms r, parse_members fuel s = Parsed ms r -> (length r < length s)%nat).
Proof.
  destruct literals_nonempty as (Ln & Lt & Lf).
  induction fuel as [|f (IHv & IHe & IHm)]; [repeat split; discriminate|].
  split; [|split].
  - intros s v r H. cbn [parse_value] in H.
    destruct (skip_ws s) as [|c t] eqn:Es; [discriminate|].
    apply skip_ws_cons_length in Es.
    destruct (c =? 34).
    { destruct (parse_string_chars t) as [[str r']|] eqn:E; [|discriminate].
      injection H as _ <-. apply (parse_string_chars_rest _ _ _ _ (le_n _)) in E. lia. }
    destruct (c =? 91).
    { destruct (skip_ws t) as [|d r'] eqn:Et; [discriminate|].
      apply skip_ws_cons_length in Et.
      destruct (d =? 93); [injection H as _ <-; lia|].
      destruct (parse_elements f t) as [| |l r''] eqn:E; try discriminate.
      injection H as _ <-. apply IHe in E. lia. }
    destruct (c =? 123).
    { destruct (skip_ws t) as [|d r'] eqn:Et; [discriminate|].
      apply skip_ws_cons_length in Et.
      destruct (d =? 125); [injection H as _ <-; lia|].
      destruct (parse_members f t) as [| |ms r''] eqn:E; try discriminate.
      injection H as _ <-. apply IHm in E. lia. }
    destruct (c =? 110); [apply parse_literal_rest in H; cbn [length] in *; [lia|exact Ln]|].
    destruct (c =? 116); [apply parse_literal_rest in H; cbn [length] in *; [lia|exact Lt]|].
    destruct (c =? 102); [apply parse_literal_rest in H; cbn [length] in *; [lia|exact Lf]|].
    destruct (parse_number (c :: t)) as [[v' r']|] eqn:E; [|discriminate].
    injection H as _ <-. apply parse_number_rest in E. cbn [length] in E. lia.
  - intros s l r H. rewrite parse_elements_eq in H.
    destruct (parse_value f s) as [| |v r1] eqn:Ev; try discriminate.
    apply IHv in Ev.
    destruct (skip_ws r1) as [|c r'] eqn:Es; [discriminate|].
    apply skip_ws_cons_length in Es.
    destruct (c =? 44).
    { destruct (parse_elements f r') as [| |l' r''] eqn:Ee; try discriminate.
      injection H as _ <-. apply IHe in Ee. lia. }
    destruct (c =? 93); [|discriminate].
    injection H as _ <-. lia.
  - intros s ms r H. rewrite parse_members_eq in H.
    destruct (skip_ws s) as [|q t] eqn:Es; [discriminate|].
    apply skip_ws_cons_length in Es.
    destruct (q =? 34); [|discriminate].
    destruct (parse_string_chars t) as [[k r1]|] eqn:Ek; [|discriminate].
    apply (parse_string_chars_rest _ _ _ _ (le_n _)) in Ek.
    destruct (skip_ws r1) as [|c r2] eqn:E1; [discriminate|].
    apply skip_ws_cons_length in E1.
    destruct (c =? 58); [|discriminate].
    destruct (parse_value f r2) as [| |v r3] eqn:Ev; try discriminate.
    apply IHv in Ev.
    destruct (skip_ws r3) as [|c' r4] eqn:E3; [discriminate|].
    apply skip_ws_cons_length in E3.
    destruct (c' =? 44).
    { destruct (parse_members f r4) as [| |ms' r5] eqn:Em; try discriminate.
      injection H as _ <-. apply IHm in Em. lia. }
    destruct (c' =? 125); [|discriminate].
    injection H as _ <-. lia.
Qed.

(** Twice the length of the text and one more is fuel enough for a value,
    and one more again for what follows an opening bracket or brace. *)
Lemma parse_fuel_enough (fuel : nat) :
  (forall s, (2 * length s + 1 <= fuel)%nat -> parse_value fuel s <> OutOfFuel) /\
  (forall s, (2 * length s + 2 <= fuel)%nat -> parse_elements fuel s <> OutOfFuel) /\
  (forall s, (2 * length s + 2 <= fuel)%nat -> parse_members fuel s <> OutOfFuel).
Proof.
  induction fuel as [|f (IHv & IHe & IHm)]; [repeat split; intros s H; lia|].
  split; [|split].
  - intros s Hf. cbn [parse_value].
    destruct (skip_ws s) as [|c t] eqn:Es; [discriminate|].
    apply skip_ws_cons_length in Es.
    destruct (c =? 34).
    { destruct (parse_string_chars t) as [[str r']|]; discriminate. }
    destruct (c =? 91).
    { destruct (skip_ws t) as [|d r']; [discriminate|].
      destruct (d =? 93); [discriminate|].
      assert (He : parse_elements f t <> OutOfFuel) by (apply IHe; lia).
      destruct (parse_elements f t); [contradiction|discriminate|discriminate]. }
    destruct (c =? 123).
    { destruct (skip_ws t) as [|d r']; [discriminate|].
      destruct (d =? 125); [discriminate|].
      assert (Hm : parse_members f t <> OutOfFuel) by (apply IHm; lia).
      destruct (parse_members f t); [contradiction|discriminate|discriminate]. }
    unfold parse_literal.
    destruct (c =? 110); [destruct (strip_prefix _ _); discriminate|].
    destruct (c =? 116); [destruct (strip_prefix _ _); discriminate|].
    destruct (c =? 102); [destruct (strip_prefix _ _); discriminate|].
    destruct (parse_number (c :: t)) as [[v' r']|]; discriminate.
  - intros s Hf. rewrite parse_elements_eq.
    assert (Hv : parse_value f s <> OutOfFuel) by (apply IHv; lia).
    destruct (parse_value f s) as [| |v r1] eqn:Ev; [contradiction|discriminate|].
    apply (proj1 (parse_fuel_rest f)) in Ev.
    destruct (skip_ws r1) as [|c r'] eqn:Es; [discriminate|].
    apply skip_ws_cons_length in Es.
    destruct (c =? 44).
    { assert (He : parse_elements f r' <> OutOfFuel) by (apply IHe; lia).
      destruct (parse_elements f r'); [contradiction|discriminate|discriminate]. }
    destruct (c =? 93); discriminate.
  - intros s Hf. rewrite parse_members_eq.
    destruct (skip_ws s) as [|q t] eqn:Es; [discriminate|].
    apply skip_ws_cons_length in Es.
    destruct (q =? 34); [|discriminate].
    destruct (parse_string_chars t) as [[k r1]|] eqn:Ek; [|discriminate].
    apply (parse_string_chars_rest _ _ _ _ (le_n _)) in Ek.
    destruct (skip_ws r1) as [|c r2] eqn:E1; [discriminate|].
    apply skip_ws_cons_length in E1.
    destruct (c =? 58); [|discriminate].
    assert (Hv : parse_value f r2 <> OutOfFuel) by (apply IHv; lia).
    destruct (parse_value f r2) as [| |v r3] eqn:Ev; [contradiction|discriminate|].
    apply (proj1 (parse_fuel_rest f)) in Ev.
    destruct (skip_ws r3) as [|c' r4] eqn:E3; [discriminate|].
    apply skip_ws_cons_length in E3.
    destruct (c' =? 44).
    { assert (Hm : parse_members f r4 <> OutOfFuel) by (apply IHm; lia).
      destruct (parse_members f r4); [contradiction|discriminate|discriminate]. }
    destruct (c' =? 125); discriminate.
Qed.

(** [JSON.parse] never stops for want of fuel: it throws only on a text
    that is not JSON. *)
Lemma parse_never_out_of_fuel (s : jsstring) :
  parse_value (2 * length s + 2) s <> OutOfFuel.
Proof. apply (proj1 (parse_fuel_enough _)). lia. Qed.

(** When [JSON.parse] throws, the text holds no value or something after
    the value. *)
Lemma parse_throws (s : jsstring) (e : JS.error) :
  JSON.parse s = Throw e ->
  parse_value (2 * length s + 2) s = NoParse \/
  exists v r c r', parse_value (2 * length s + 2) s = Parsed v r /\ skip_ws r = c :: r'.
Proof.
  unfold JSON.parse. pose proof (parse_never_out_of_fuel s) as Hf.
  destruct (parse_value (2 * length s + 2) s) as [| |v r]; [contradiction|now left|].
  destruct (skip_ws r) as [|c r'] eqn:E; [discriminate|].
  intros _. right. now exists v, r, c, r'.
Qed.

End ParserFuel.

(** ** The history in [localStorage] *)

Section History.

Variable fits : jsstring -> bool.

Lemma read_history_stringify (es : list json) :
  Forall well_formed es -> read_history (Some (stringify (JArr es))) = Ok es.
Proof.
  intros H. unfold read_history.
  rewrite stringify_array_shape. cbn [app].
  change (91 :: join [44] (map stringify es) ++ [93]) with (stringify (JArr es)).
  rewrite parse_stringify by (now apply wf_arr). reflexivity.
Qed.

Lemma read_history_represents (stored : option jsstring) (es : list json) :
  represents stored es -> Forall well_formed es -> read_history stored = Ok es.
Proof.
  intros [[-> ->] | ->] H; [reflexivity|]. now apply read_history_stringify.
Qed.

Lemma newEntry_object (clock : Clock) (t : json) (category thumbnail : json) :
  newEntry clock (Some t) category thumbnail
  = JObj [(k_id, JStr (now clock)); (k_title, t); (k_category, category);
          (k_date, JStr (today clock)); (k_thumbnail, thumbnail)].
Proof. reflexivity. Qed.

Lemma newEntry_well_formed (clock : Clock) (t category thumbnail : json) :
  well_formed t -> well_formed category -> well_formed thumbnail ->
  well_formed (newEntry clock (Some t) category thumbnail).
Proof.
  intros. rewrite newEntry_object. apply wf_obj.
  - vm_compute. reflexivity.
  - repeat constructor; assumption.
Qed.

Lemma newEntry_title (clock : Clock) (t category thumbnail : json) :
  prop (newEntry clock (Some t) category thumbnail) k_title = Some t.
Proof. reflexivity. Qed.

Lemma nullable_well_formed (o : option jsstring) : well_formed (nullable o).
Proof. destruct o; constructor. Qed.

Lemma Forall_removelast (A : Type) (P : A -> Prop) (l : list A) :
  Forall P l -> Forall P (removelast l).
Proof.
  induction 1 as [|x l Hx Hl IH]; [constructor|].
  cbn [removelast]. destruct l; [constructor|]. constructor; assumption.
Qed.

Lemma unshift_bounded_head (e : json) (es : list json) :
  exists rest, unshift_bounded e es = e :: rest /\
               (Forall well_formed es -> Forall well_formed rest).
Proof.
  unfold unshift_bounded. destruct (3 <? length (e :: es))%nat eqn:E.
  - destruct es as [|x es']; [discriminate|].
    exists (removelast (x :: es')). split; [reflexivity|]. apply Forall_removelast.
  - exists es. auto.
Qed.

Lemma unshift_bounded_three (e : json) (es : list json) :
  (length es <= 3)%nat -> unshift_bounded e es = firstn 3 (e :: es).
Proof.
  intros H. destruct es as [|a [|b [|c [|d es]]]]; try reflexivity.
  simpl in H. lia.
Qed.

(** What [saveArticle] leaves in the slot, for an article with a string
    title and a slot that reads back as [es]. *)
Lemma saveArticle_slot (clock : Clock) (data category : json) (image : option jsstring)
      (stored : option jsstring) (es : list json) (t : jsstring) :
  read_history stored = Ok es ->
  prop data k_title = Some (JStr t) ->
  some_same_title data es = Ok false ->
  fst (saveArticle fits clock data category image stored)
  = let h1 := unshift_bounded (newEntry clock (Some (JStr t)) category (nullable image)) es in
    let h2 := newEntry clock (Some (JStr t)) category JNull :: tl h1 in
    if fits (stringify (JArr h1)) then Some (stringify (JArr h1))
    else if fits (stringify (JArr h2)) then Some (stringify (JArr h2))
         else stored.
Proof.
  intros Hr Ht Hs. unfold saveArticle. rewrite Hr. cbn [bind]. rewrite Hs. cbn [bind].
  assert (Hg : get data k_title = Ok (Some (JStr t))).
  { destruct data; try discriminate Ht. unfold get. now rewrite Ht. }
  rewrite Hg. cbn [bind]. unfold write_history, setItem. cbv zeta.
  destruct (fits (stringify (JArr (unshift_bounded _ es)))).
  - cbn [bind try_catch]. destruct (filter_history _ _ _); reflexivity.
  - cbn [bind try_catch].
    destruct (fits (stringify (JArr (newEntry clock (Some (JStr t)) category JNull :: _)))).
    + cbn [bind]. destruct (filter_history _ _ _); reflexivity.
    + reflexivity.
Qed.

Lemma saveArticle_unchanged_unless_new (clock : Clock) (data category : json)
      (image : option jsstring) (stored : option jsstring) :
  fst (saveArticle fits clock data category image stored) <> stored ->
  exists es, read_history stored = Ok es /\ some_same_title data es = Ok false.
Proof.
  unfold saveArticle. intros H.
  destruct (read_history stored) as [e|es]; cbn [bind] in H; [contradiction|].
  exists es. split; [reflexivity|].
  destruct (some_same_title data es) as [e|[|]]; cbn [bind] in H.
  - contradiction.
  - exfalso. apply H. destruct (filter_history data false es); reflexivity.
  - reflexivity.
Qed.

Lemma some_same_title_found (data : json) (history : list json) (h : json) :
  In h history ->
  strict_eq (prop h k_title) (prop data k_title) = true ->
  some_same_title data history <> Ok false.
Proof.
  intros Hin Heq. induction history as [|x history IH]; [contradiction|].
  cbn [some_same_title].
  destruct (get x k_title) as [e|tx] eqn:Ex; cbn [bind]; [discriminate|].
  destruct (get data k_title) as [e|td] eqn:Ed; cbn [bind]; [discriminate|].
  destruct (strict_eq tx td) eqn:E; [discriminate|].
  destruct Hin as [-> | Hin]; [|now apply IH].
  exfalso.
  assert (tx = prop h k_title) by (destruct h; cbn [get] in Ex; congruence).
  assert (td = prop data k_title) by (destruct data; cbn [get] in Ed; congruence).
  subst. congruence.
Qed.

(** C7.  When the title of the article is the title of a stored entry,
    [saveArticle] leaves the slot as it is; and once [saveArticle] has
    written an article with a string title into the slot, recording that
    article again, at any later time, leaves the slot as the first
    recording left it. *)
Theorem saveArticle_known_title_no_op
        (clock : Clock) (data category : json) (image : option jsstring)
        (stored : option jsstring) :
  (forall history h,
      read_history stored = Ok history -> In h history ->
      strict_eq (prop h k_title) (prop data k_title) = true ->
      fst (saveArticle fits clock data category image stored) = stored) /\
  (forall t clock' category' image',
      prop data k_title = Some (JStr t) -> well_formed category ->
      fst (saveArticle fits clock data category image stored) <> stored ->
      fst (saveArticle fits clock' data category' image'
                       (fst (saveArticle fits clock data category image stored)))
      = fst (saveArticle fits clock data category image stored)).
Proof.
  split.
  - intros history h Hr Hin Heq. unfold saveArticle. rewrite Hr. cbn [bind].
    pose proof (some_same_title_found data history h Hin Heq) as Hs.
    destruct (some_same_title data history) as [e|[|]]; cbn [bind].
    + reflexivity.
    + destruct (filter_history data false history); reflexivity.
    + contradiction.
  - intros t clock' category' image' Ht Hc Hnew.
    destruct (saveArticle_unchanged_unless_new _ _ _ _ _ Hnew) as (es & Hr & Hs).
    rewrite (saveArticle_slot clock data category image stored es t Hr Ht Hs) in *.
    cbv zeta in *.
    destruct (unshift_bounded_head
                (newEntry clock (Some (JStr t)) category (nullable image)) es)
      as (rest & Eh & _).
    rewrite Eh in *. cbn [tl] in *.
    assert (Hg : get data k_title = Ok (Some (JStr t))).
    { destruct data; try discriminate Ht. unfold get. now rewrite Ht. }
    assert (Hknown : forall thumb,
               well_formed thumb ->
               fst (saveArticle fits clock' data category' image'
                                (Some (stringify
                                         (JArr (newEntry clock (Some (JStr t)) category thumb
                                                         :: rest)))))
               = Some (stringify (JArr (newEntry clock (Some (JStr t)) category thumb
                                                 :: rest)))).
    { intros thumb Hthumb. unfold saveArticle, read_history.
      rewrite stringify_array_shape. cbn [app].
      change (91 :: join [44] (map stringify (newEntry clock (Some (JStr t)) category thumb
                                                       :: rest)) ++ [93])
        with (stringify (JArr (newEntry clock (Some (JStr t)) category thumb :: rest))).
      destruct (JSON.parse (stringify (JArr (newEntry clock (Some (JStr t)) category thumb
                                                      :: rest)))) as [e|v] eqn:Ep;
        cbn [bind]; [reflexivity|].
      destruct (parse_array_head _ _ _
                  (newEntry_well_formed clock (JStr t) category thumb
                                        (wf_str _) Hc Hthumb) Ep) as (l & ->).
      cbn [as_array bind some_same_title]. rewrite newEntry_object. cbn [get prop obj_get].
      change (string_eqb k_id k_title) with false.
      change (string_eqb k_title k_title) with true. cbv iota.
      cbn [bind]. rewrite Hg. cbn [bind strict_eq]. rewrite string_eqb_refl.
      cbn [bind]. destruct (filter_history _ _ _); reflexivity. }
    destruct (fits (stringify (JArr (newEntry clock (Some (JStr t)) category
                                              (nullable image) :: rest)))).
    + apply Hknown. apply nullable_well_formed.
    + destruct (fits (stringify (JArr (newEntry clock (Some (JStr t)) category JNull
                                                :: rest)))).
      * apply Hknown. constructor.
      * contradiction.
Qed.


Lemma entry_title_prop (h : json) :
  is_entry h -> h <> JNull /\ prop h k_title = Some (JStr (title_string h)).
Proof.
  intros (_ & ms & t & -> & Ht). split; [discriminate|].
  unfold title_string. cbn [prop]. now rewrite Ht.
Qed.

Lemma article_title_prop (a : BlogPostData) :
  prop (BlogPostData_object a) k_title = Some (JStr (title a)).
Proof. reflexivity. Qed.

Lemma some_same_title_entries (a : BlogPostData) (es : list json) :
  Forall is_entry es ->
  some_same_title (BlogPostData_object a) es
  = Ok (existsb (fun x => string_eqb x (title a)) (map title_string es)).
Proof.
  induction 1 as [|h es Hh _ IH]; [reflexivity|].
  apply entry_title_prop in Hh as [Hn Hp].
  cbn [some_same_title map existsb].
  assert (Hg : get h k_title = Ok (Some (JStr (title_string h))))
    by (destruct h; try contradiction; cbn [get]; now rewrite Hp).
  assert (Hd : get (BlogPostData_object a) k_title = Ok (Some (JStr (title a))))
    by reflexivity.
  rewrite Hg, Hd. cbn [bind strict_eq].
  destruct (string_eqb (title_string h) (title a)); [reflexivity|exact IH].
Qed.

Lemma newEntry_is_entry (clock : Clock) (t : jsstring) (category thumbnail : json) :
  well_formed category -> well_formed thumbnail ->
  is_entry (newEntry clock (Some (JStr t)) category thumbnail).
Proof.
  intros Hc Ht. split.
  - apply newEntry_well_formed; (constructor || assumption).
  - rewrite newEntry_object. eexists; eexists; split; reflexivity.
Qed.

Lemma is_entry_well_formed (es : list json) : Forall is_entry es -> Forall well_formed es.
Proof. apply Forall_impl. now intros h [H _]. Qed.

Lemma Forall_firstn_of (A : Type) (P : A -> Prop) (n : nat) (l : list A) :
  Forall P l -> Forall P (firstn n l).
Proof.
  intros H. revert n. induction H as [|x l Hx _ IH]; intros [|n]; cbn [firstn];
    constructor; auto.
Qed.

Lemma firstn_three_length (A : Type) (l : list A) : (length (firstn 3 l) <= 3)%nat.
Proof. rewrite length_firstn. lia. Qed.

(** One recording, on a slot that holds at most three entries. *)
Lemma saveArticle_bounded (r : Recording) (stored : option jsstring) (es : list json) :
  bounded_history stored es ->
  exists es',
    bounded_history
      (fst (saveArticle fits (rec_clock r) (BlogPostData_object (rec_article r))
                        (JStr (rec_category r)) (rec_image r) stored)) es' /\
    (write_accepted fits r es = true ->
     map title_string es' = push_title (title (rec_article r)) (map title_string es)).
Proof.
  intros (Hrep & Hes & Hlen).
  pose proof (read_history_represents _ _ Hrep (is_entry_well_formed _ Hes)) as Hr.
  pose proof (some_same_title_entries (rec_article r) es Hes) as Hs.
  unfold push_title.
  destruct (existsb (fun x => string_eqb x (title (rec_article r))) (map title_string es))
    eqn:Eknown.
  - exists es. split; [|reflexivity].
    assert (E : fst (saveArticle fits (rec_clock r) (BlogPostData_object (rec_article r))
                                 (JStr (rec_category r)) (rec_image r) stored) = stored).
    { unfold saveArticle. rewrite Hr. cbn [bind]. rewrite Hs. cbn [bind].
      destruct (filter_history _ _ _); reflexivity. }
    rewrite E. repeat split; assumption.
  - rewrite (saveArticle_slot _ _ _ _ _ es (title (rec_article r)) Hr
                              (article_title_prop _) Hs).
    cbv zeta. rewrite (unshift_bounded_three _ es Hlen).
    set (e1 := newEntry (rec_clock r) (Some (JStr (title (rec_article r))))
                        (JStr (rec_category r)) (nullable (rec_image r))).
    set (e2 := newEntry (rec_clock r) (Some (JStr (title (rec_article r))))
                        (JStr (rec_category r)) JNull).
    assert (He1 : is_entry e1)
      by (apply newEntry_is_entry; [constructor|apply nullable_well_formed]).
    assert (He2 : is_entry e2) by (apply newEntry_is_entry; constructor).
    assert (Htl : tl (firstn 3 (e1 :: es)) = firstn 2 es) by reflexivity.
    assert (H2 : e2 :: tl (firstn 3 (e1 :: es)) = firstn 3 (e2 :: es))
      by (rewrite Htl; reflexivity).
    rewrite H2.
    assert (Hall : forall e, is_entry e -> Forall is_entry (firstn 3 (e :: es)))
      by (intros e He; apply Forall_firstn_of; constructor; assumption).
    assert (Htitles : forall e,
               title_string e = title (rec_article r) ->
               map title_string (firstn 3 (e :: es))
               = firstn 3 (title (rec_article r) :: map title_string es)).
    { intros e He. rewrite <- He. now rewrite <- firstn_map. }
    destruct (fits (stringify (JArr (firstn 3 (e1 :: es))))) eqn:F1.
    + exists (firstn 3 (e1 :: es)). split.
      * split; [right; reflexivity|]. split; [now apply Hall|apply firstn_three_length].
      * intros _. now apply Htitles.
    + destruct (fits (stringify (JArr (firstn 3 (e2 :: es))))) eqn:F2.
      * exists (firstn 3 (e2 :: es)). split.
        -- split; [right; reflexivity|]. split; [now apply Hall|apply firstn_three_length].
        -- intros _. now apply Htitles.
      * exists es. split; [repeat split; assumption|].
        intros Hacc. exfalso. unfold write_accepted in Hacc. cbv zeta in Hacc.
        rewrite (unshift_bounded_three _ es Hlen) in Hacc.
        fold e1 e2 in Hacc. rewrite H2, F1, F2 in Hacc. discriminate Hacc.
Qed.

Lemma record_all_bounded (rs : list Recording) :
  forall stored es,
    bounded_history stored es ->
    exists es',
      bounded_history (record_all fits (map visit_of rs) stored) es' /\
      (writes_accepted fits rs stored = true ->
       map title_string es'
       = fold_left (fun ts r => push_title (title (rec_article r)) ts) rs
                   (map title_string es)).
Proof.
  induction rs as [|r rs IH]; intros stored es H.
  - exists es. split; [exact H|reflexivity].
  - destruct (saveArticle_bounded r stored es H) as (es1 & H1 & T1).
    destruct (IH _ es1 H1) as (es' & H' & T').
    exists es'. split; [exact H'|].
    intros Hacc. cbn [writes_accepted] in Hacc.
    destruct H as (Hrep & Hes & _).
    rewrite (read_history_represents _ _ Hrep (is_entry_well_formed _ Hes)) in Hacc.
    apply andb_prop in Hacc as [Hw Hrest].
    cbn [fold_left]. rewrite <- (T1 Hw). now apply T'.
Qed.

Lemma stored_titles_bounded (stored : option jsstring) (es : list json) :
  bounded_history stored es ->
  stored_titles stored = Some (map (fun t => Some (JStr t)) (map title_string es)).
Proof.
  intros ([[-> ->] | ->] & Hes & _); [reflexivity|].
  unfold stored_titles.
  rewrite parse_stringify by (apply wf_arr; now apply is_entry_well_formed).
  f_equal. rewrite map_map. apply map_ext_in. intros h Hin.
  rewrite Forall_forall in Hes. now apply entry_title_prop, Hes.
Qed.

(** C6, as the code has it.  Starting from an empty slot, whatever is
    recorded and whatever the storage accepts, the slot never holds more
    than three entries; and when the storage takes the write of each of
    five recordings with distinct titles, with the thumbnail of the new
    entry or without it, the slot holds exactly the last three titles,
    the most recent first. *)
Theorem history_keeps_three_most_recent :
  (forall rs : list Recording,
      exists ts,
        stored_titles (record_all fits (map visit_of rs) None)
        = Some (map (fun t => Some (JStr t)) ts) /\
        (length ts <= 3)%nat) /\
  (forall r1 r2 r3 r4 r5 : Recording,
     NoDup (map (fun r => title (rec_article r)) [r1; r2; r3; r4; r5]) ->
     writes_accepted fits [r1; r2; r3; r4; r5] None = true ->
     stored_titles (record_all fits (map visit_of [r1; r2; r3; r4; r5]) None)
     = Some [Some (JStr (title (rec_article r5)));
             Some (JStr (title (rec_article r4)));
             Some (JStr (title (rec_article r3)))]).
Proof.
  assert (Hempty : bounded_history None []).
  { split; [left; split; reflexivity|]. split; [constructor|simpl; lia]. }
  split.
  - intros rs. destruct (record_all_bounded rs None [] Hempty) as (es & H & _).
    exists (map title_string es). split; [now apply stored_titles_bounded|].
    rewrite length_map. apply H.
  - intros r1 r2 r3 r4 r5 Hnd Hacc.
    destruct (record_all_bounded [r1; r2; r3; r4; r5] None [] Hempty) as (es & H & T).
    rewrite (stored_titles_bounded _ _ H), (T Hacc). clear H T.
    cbn [map] in Hnd. cbn [fold_left map].
    remember (title (rec_article r1)) as t1 eqn:E1.
    remember (title (rec_article r2)) as t2 eqn:E2.
    remember (title (rec_article r3)) as t3 eqn:E3.
    remember (title (rec_article r4)) as t4 eqn:E4.
    remember (title (rec_article r5)) as t5 eqn:E5.
    clear E1 E2 E3 E4 E5.
    inversion_clear Hnd as [|? ? N1 Hnd1]. inversion_clear Hnd1 as [|? ? N2 Hnd2].
    inversion_clear Hnd2 as [|? ? N3 Hnd3]. inversion_clear Hnd3 as [|? ? N4 _].
    cbn [In] in N1, N2, N3, N4.
    assert (D : forall a b : jsstring, a <> b -> string_eqb a b = false)
      by (intros; now apply string_eqb_neq).
    unfold push_title. cbn [existsb firstn orb].
    rewrite (D t1 t2) by intuition. cbn [existsb firstn orb].
    rewrite (D t2 t3), (D t1 t3) by intuition. cbn [existsb firstn orb].
    rewrite (D t3 t4), (D t2 t4), (D t1 t4) by intuition. cbn [existsb firstn orb].
    rewrite (D t4 t5), (D t3 t5), (D t2 t5) by intuition. cbn [orb map].
    reflexivity.
Qed.

End History.

Section HistoryExamples.

(** A storage with room for 340 code units takes each of the five
    recordings, the third one without its thumbnail. *)
Lemma history_keeps_three_most_recent_witness :
  stored_titles (record_all (fun s => strlen s <=? 340) (map visit_of five_recordings) None)
  = Some [Some (JStr (js "Woda")); Some (JStr (js "Joga")); Some (JStr (js "Bieganie"))].
Proof.
  apply (proj2 (history_keeps_three_most_recent (fun s => strlen s <=? 340))).
  - vm_compute. repeat (apply NoDup_cons; [cbn; intuition discriminate|]). apply NoDup_nil.
  - vm_compute. reflexivity.
Defined.

(** The claim of C6 fails where the storage is nearly full: with room
    for 200 code units the first recording is written, each later one
    is refused with its thumbnail and without it, and the slot holds one
    entry, the oldest. *)
Lemma full_storage_keeps_first_recording_only :
  NoDup (map (fun r => title (rec_article r)) five_recordings) /\
  stored_titles (record_all (fun s => strlen s <=? 200) (map visit_of five_recordings) None)
  = Some [Some (JStr (js "Sen"))] /\
  stored_titles (record_all (fun s => strlen s <=? 200) (map visit_of five_recordings) None)
  <> Some [Some (JStr (js "Woda")); Some (JStr (js "Joga")); Some (JStr (js "Bieganie"))].
Proof.
  assert (E : stored_titles (record_all (fun s => strlen s <=? 200)
                                        (map visit_of five_recordings) None)
              = Some [Some (JStr (js "Sen"))]) by (vm_compute; reflexivity).
  split; [|split; [exact E|rewrite E; discriminate]].
  vm_compute. repeat (apply NoDup_cons; [cbn; intuition discriminate|]). apply NoDup_nil.
Qed.

Lemma saveArticle_known_title_no_op_witness :
  fst (saveArticle (fun _ => true) {| now := js "1700000000009"; today := js "3.11.2026" |}
                   (BlogPostData_object sample_article) (JStr (js "Zdrowie"))
                   (Some (js "data:image/png;base64,AAAA")) stored_history)
  = stored_history.
Proof.
  apply (proj1 (saveArticle_known_title_no_op
                  (fun _ => true) {| now := js "1700000000009"; today := js "3.11.2026" |}
                  (BlogPostData_object sample_article) (JStr (js "Zdrowie"))
                  (Some (js "data:image/png;base64,AAAA")) stored_history)
               [StoredArticle_object stored_entry] (StoredArticle_object stored_entry)).
  - vm_compute. reflexivity.
  - left. reflexivity.
  - vm_compute. reflexivity.
Defined.

End HistoryExamples.

(** ** services/geminiService.ts: the array, the fences, the sources *)

Section ArrayMatch.

Import GeminiService.

Lemma after_first_inv (c : N) (s r : jsstring) :
  after_first c s = Some r -> exists before, s = before ++ c :: r /\ ~ In c before.
Proof.
  revert r. induction s as [|x s IH]; intros r; cbn [after_first]; [discriminate|].
  destruct (N.eqb_spec x c) as [->|Hx].
  - intros [= ->]. exists []. split; [reflexivity|intros []].
  - intros H. destruct (IH r H) as (before & -> & Hb).
    exists (x :: before). split; [reflexivity|].
    intros [E|Hin]; [now apply Hx|now apply Hb].
Qed.

Lemma before_last_inv (c : N) (s m : jsstring) :
  before_last c s = Some m -> exists after, s = m ++ c :: after /\ ~ In c after.
Proof.
  unfold before_last. destruct (after_first c (rev s)) as [r|] eqn:E; [|discriminate].
  intros [= <-]. destruct (after_first_inv _ _ _ E) as (before & Hs & Hb).
  exists (rev before). split.
  - rewrite <- (rev_involutive s), Hs, rev_app_distr. cbn [rev].
    now rewrite <- List.app_assoc.
  - now rewrite <- in_rev.
Qed.

Lemma after_first_none (c : N) (s : jsstring) : after_first c s = None <-> ~ In c s.
Proof.
  induction s as [|x s IH]; cbn [after_first In]; [tauto|].
  destruct (N.eqb_spec x c) as [->|Hx].
  - split; [discriminate|]. intros H. exfalso. apply H. now left.
  - rewrite IH. tauto.
Qed.

Lemma before_last_none (c : N) (s : jsstring) : before_last c s = None <-> ~ In c s.
Proof.
  unfold before_last. rewrite (in_rev s c), <- after_first_none.
  destruct (after_first c (rev s)); split; congruence.
Qed.

Lemma first_occurrence_rest (c : N) (b r before rest : jsstring) :
  b ++ c :: r = before ++ c :: rest -> ~ In c b -> forall y, In y rest -> In y r.
Proof.
  revert before. induction b as [|x b IH]; intros before Hs Hb y Hy.
  - destruct before as [|z before]; cbn [app] in Hs.
    + now injection Hs as <-.
    + injection Hs as _ ->. apply in_or_app. right. now right.
  - destruct before as [|z before]; cbn [app] in Hs.
    + injection Hs as -> _. exfalso. apply Hb. now left.
    + injection Hs as _ Hs. apply (IH before Hs); [|exact Hy].
      intros H. apply Hb. now right.
Qed.

(** X1.  The match of [/\[[\s\S]*\]/] runs from the first opening bracket
    of the text to its last closing bracket, and there is none exactly
    when no closing bracket follows an opening one. *)
Theorem match_array_first_to_last (s : jsstring) :
  (forall m,
      match_array s = Some m <->
      exists before inner after,
        s = before ++ 91 :: inner ++ 93 :: after /\
        ~ In 91 before /\ ~ In 93 after /\ m = 91 :: inner ++ [93]) /\
  (match_array s = None <->
   forall before inner after, s <> before ++ 91 :: inner ++ 93 :: after).
Proof.
  assert (Hsome : forall m,
             match_array s = Some m <->
             exists before inner after,
               s = before ++ 91 :: inner ++ 93 :: after /\
               ~ In 91 before /\ ~ In 93 after /\ m = 91 :: inner ++ [93]).
  { intros m. split.
    - unfold match_array.
      destruct (after_first 91 s) as [r|] eqn:E1; [|discriminate].
      destruct (before_last 93 r) as [inner|] eqn:E2; [|discriminate].
      intros [= <-].
      destruct (after_first_inv _ _ _ E1) as (before & -> & Hb).
      destruct (before_last_inv _ _ _ E2) as (after & -> & Ha).
      now exists before, inner, after.
    - intros (before & inner & after & -> & Hb & Ha & ->).
      assert (Hshape : before ++ 91 :: inner ++ 93 :: after
                       = before ++ (91 :: inner ++ [93]) ++ after).
      { cbn [app]. now rewrite <- List.app_assoc. }
      rewrite Hshape. now apply match_array_embedded. }
  split; [exact Hsome|]. split.
  - intros Hnone before inner after Hs.
    unfold match_array in Hnone.
    destruct (after_first 91 s) as [r|] eqn:E1.
    + destruct (before_last 93 r) as [m|] eqn:E2; [discriminate|].
      apply before_last_none in E2. apply E2.
      destruct (after_first_inv _ _ _ E1) as (b & Hb & Hnb).
      rewrite Hb in Hs.
      apply (first_occurrence_rest 91 b r before (inner ++ 93 :: after) Hs Hnb).
      apply in_or_app. right. now left.
    + apply after_first_none in E1. apply E1. rewrite Hs.
      apply in_or_app. right. now left.
  - intros Hall. destruct (match_array s) as [m|] eqn:E; [|reflexivity].
    destruct (proj1 (Hsome m) eq_refl) as (before & inner & after & Hs & _).
    exfalso. now apply (Hall before inner after).
Qed.

End ArrayMatch.

Section CodeFences.

Import GeminiService.

Lemma remove_all_fence_skip (s : jsstring) :
  remove_all fence (96 :: 96 :: 96 :: s) = remove_all fence s.
Proof. reflexivity. Qed.

Lemma remove_all_fence_keep (c : N) (s : jsstring) :
  startsWith (c :: s) fence = false ->
  remove_all fence (c :: s) = c :: remove_all fence s.
Proof.
  intros H. unfold remove_all. cbn [remove_all_from]. now rewrite H.
Qed.

Lemma startsWith_fence (s : jsstring) :
  startsWith s fence = true <-> exists r, s = 96 :: 96 :: 96 :: r.
Proof.
  unfold startsWith, fence. split.
  - intros H. destruct s as [|a [|b [|c r]]]; cbn [strip_prefix] in H;
      repeat match type of H with
             | context [N.eqb ?x ?y] => destruct (N.eqb_spec x y)
             end; try discriminate H.
    subst. now exists r.
  - intros (r & ->). reflexivity.
Qed.

Lemma startsWith_fence_false (s : jsstring) :
  startsWith s fence = false <-> forall r, s <> 96 :: 96 :: 96 :: r.
Proof.
  split.
  - intros H r ->. now rewrite (proj2 (startsWith_fence _)) in H by (now exists r).
  - intros H. destruct (startsWith s fence) eqn:E; [|reflexivity].
    apply startsWith_fence in E. destruct E as (r & ->). now contradiction (H r).
Qed.

Lemma fence_free_remove_all (n : nat) :
  forall s, (length s <= n)%nat -> fence_free (remove_all fence s) = true.
Proof.
  induction n as [|n IH]; intros s Hn.
  { destruct s; [reflexivity|cbn [length] in Hn; lia]. }
  destruct s as [|c t]; [reflexivity|].
  destruct (startsWith (c :: t) fence) eqn:E.
  - apply startsWith_fence in E. destruct E as (r & E). rewrite E.
    rewrite remove_all_fence_skip. apply IH.
    rewrite E in Hn. cbn [length] in Hn. lia.
  - rewrite (remove_all_fence_keep _ _ E).
    cbn [fence_free]. rewrite (IH t) by (cbn [length] in Hn; lia).
    rewrite andb_true_r. apply negb_true_iff.
    apply startsWith_fence_false. intros r Hr.
    pose proof (proj1 (startsWith_fence_false _) E) as Hs.
    injection Hr as -> Hr.
    (* the text after the kept backquote *)
    destruct t as [|x t]; [discriminate Hr|].
    destruct (startsWith (x :: t) fence) eqn:Ex.
    + apply startsWith_fence in Ex. destruct Ex as (r' & Ex).
      apply (Hs (96 :: r')). now rewrite Ex.
    + rewrite (remove_all_fence_keep _ _ Ex) in Hr. injection Hr as -> Hr.
      destruct t as [|y t]; [discriminate Hr|].
      destruct (startsWith (y :: t) fence) eqn:Ey.
      * apply startsWith_fence in Ey. destruct Ey as (r' & Ey).
        injection Ey as -> _. now apply (Hs t).
      * rewrite (remove_all_fence_keep _ _ Ey) in Hr. injection Hr as -> _.
        now apply (Hs t).
Qed.

Lemma fence_free_occurs (s : jsstring) : fence_free s = true -> ~ occurs fence s.
Proof.
  intros H (a & b & ->). induction a as [|c a IH].
  - cbn [app fence fence_free] in H. apply andb_prop in H. destruct H as [H _].
    apply negb_true_iff in H. discriminate H.
  - cbn [app fence_free] in H. apply andb_prop in H. now apply IH.
Qed.

(** X2.  The text [generateTrendingTopics] searches for the array, cleaned
    by the two [replace] calls, holds no code fence any more, whatever the
    model wrote; a text without a backquote is searched as it is. *)
Theorem cleaned_text_has_no_fence (text : jsstring) :
  ~ occurs fence (remove_all fence (remove_all fence_json text)) /\
  (~ In 96 text -> remove_all fence (remove_all fence_json text) = text).
Proof.
  split.
  - apply fence_free_occurs. now apply (fence_free_remove_all _ _ (le_n _)).
  - intros H. rewrite (remove_all_absent 96 [96; 96; 106; 115; 111; 110]) by exact H.
    now apply (remove_all_absent 96 [96; 96]).
Qed.

End CodeFences.

Section GroundingSources.

Import GeminiService.

Lemma collect_sources_app (a b : list GroundingChunk) :
  collect_sources (a ++ b) = collect_sources a ++ collect_sources b.
Proof.
  induction a as [|chunk a IH]; [reflexivity|]. cbn [app collect_sources].
  destruct (web chunk) as [w|]; [|exact IH].
  destruct (web_uri w) as [[|c u]|]; try exact IH.
  cbn [app]. now rewrite IH.
Qed.

(** X3.  Every source [generateTrendingTopics] returns has an address and
    a title, neither of them empty: a chunk without a web address is
    left out, a missing or empty title is replaced by the default one.
    The sources come in the order of their chunks, at most one for
    each. *)
Theorem collect_sources_have_title_and_uri (chunks : list GroundingChunk) :
  Forall (fun s => source_uri s <> [] /\ source_title s <> []) (collect_sources chunks) /\
  (length (collect_sources chunks) <= length chunks)%nat /\
  (forall before after, chunks = before ++ after ->
                        collect_sources chunks
                        = collect_sources before ++ collect_sources after) /\
  (forall chunk w u,
      In chunk chunks -> web chunk = Some w -> web_uri w = Some u -> u <> [] ->
      exists s, In s (collect_sources chunks) /\ source_uri s = u /\
                (forall t, web_title w = Some t -> t <> [] -> source_title s = t) /\
                (web_title w = None \/ web_title w = Some [] ->
                 source_title s = default_source_title)).
Proof.
  split; [|split; [|split]].
  - induction chunks as [|chunk r IH]; [constructor|]. cbn [collect_sources].
    destruct (web chunk) as [w|]; [|exact IH].
    destruct (web_uri w) as [[|c u]|]; try exact IH.
    constructor; [|exact IH]. cbn [source_uri source_title]. split; [discriminate|].
    destruct (web_title w) as [[|t ts]|]; discriminate.
  - induction chunks as [|chunk r IH]; [cbn; lia|]. cbn [collect_sources length].
    destruct (web chunk) as [w|]; [|lia].
    destruct (web_uri w) as [[|c u]|]; cbn [length]; lia.
  - intros before after ->. apply collect_sources_app.
  - intros chunk w u Hin Hw Hu Hne.
    apply in_split in Hin. destruct Hin as (l1 & l2 & ->).
    rewrite collect_sources_app. cbn [collect_sources]. rewrite Hw, Hu.
    destruct u as [|c u]; [contradiction|].
    eexists. split; [apply in_or_app; right; left; reflexivity|].
    cbn [source_uri source_title]. split; [reflexivity|]. split.
    + intros t -> Ht. destruct t; [contradiction|reflexivity].
    + intros [->| ->]; reflexivity.
Qed.

End GroundingSources.

(** ** App.tsx: the handlers from call to end *)

Section Generation.

Import GeminiService.

Variable service : Request -> Exc Response.

(** X4.  [handleGenerate] always ends with the loading flag down and
    the category set.  When [generateBlogPost] fails (the service fails,
    answers without text, or the text is not JSON) the article is cleared
    and the error message is set; otherwise the article is whatever value
    the text parses to, with no error: the value is not checked against
    the schema, so the text of any JSON value is accepted. *)
Theorem handleGenerate_outcome (topic : jsstring) (category : BlogCategory)
        (length : WordCount) (st : State) :
  let st' := handleGenerate service topic category length st in
  isLoading st' = false /\
  currentCategory st' = JStr (BlogCategory_value category) /\
  logo st' = logo st /\ isGeneratingMore st' = isGeneratingMore st /\
  (forall e, service (generateBlogPost_request topic category length) = Throw e ->
             blogData st' = JNull /\ error st' = Some generation_failed) /\
  (forall response,
      service (generateBlogPost_request topic category length) = Ok response ->
      match text response with
      | Some (c :: t) =>
        match JSON.parse (c :: t) with
        | Ok v => blogData st' = v /\ error st' = None
        | Throw _ => blogData st' = JNull /\ error st' = Some generation_failed
        end
      | _ => blogData st' = JNull /\ error st' = Some generation_failed
      end) /\
  (forall response v,
      service (generateBlogPost_request topic category length) = Ok response ->
      text response = Some (stringify v) -> well_formed v ->
      blogData st' = v /\ error st' = None).
Proof.
  cbv zeta. unfold handleGenerate, generateBlogPost.
  assert (Hparsed : forall response,
             service (generateBlogPost_request topic category length) = Ok response ->
             forall st0,
               handleGenerate_settle
                 (try_catch
                    (response <- service (generateBlogPost_request topic category length) ;;
                     match text response with
                     | Some (c :: t) => JSON.parse (c :: t)
                     | _ => Throw (Error (js "Brak odpowiedzi tekstowej z modelu."))
                     end)%exc
                    (fun error => Throw error)) st0
               = handleGenerate_settle
                   (match text response with
                    | Some (c :: t) => JSON.parse (c :: t)
                    | _ => Throw (Error (js "Brak odpowiedzi tekstowej z modelu."))
                    end) st0).
  { intros response Hs st0. rewrite Hs. cbn [bind].
    destruct (text response) as [[|c t]|]; try reflexivity.
    destruct (JSON.parse (c :: t)); reflexivity. }
  split; [reflexivity|].
  split; [destruct (try_catch _ _); reflexivity|].
  split; [destruct (try_catch _ _); reflexivity|].
  split; [destruct (try_catch _ _); reflexivity|].
  split; [|split].
  - intros e Hs. rewrite Hs. split; reflexivity.
  - intros response Hs. rewrite (Hparsed response Hs).
    destruct (text response) as [[|c t]|]; try (split; reflexivity).
    destruct (JSON.parse (c :: t)); split; reflexivity.
  - intros response v Hs Ht Hv. rewrite (Hparsed response Hs), Ht.
    pose proof (parse_stringify v Hv) as Hp.
    destruct (stringify v) as [|c t] eqn:E; [discriminate Hp|].
    rewrite Hp. split; reflexivity.
Qed.

End Generation.

Section ContinuationText.

Lemma obj_get_set_same (k : jsstring) (v : json) (ms : list (jsstring * json)) :
  obj_get k (obj_set k v ms) = Some v.
Proof.
  induction ms as [|[k' v'] ms IH]; cbn [obj_set obj_get].
  - now rewrite string_eqb_refl.
  - destruct (string_eqb k' k) eqn:E; [|destruct (listed_before k k')]; cbn [obj_get].
    + now rewrite string_eqb_refl.
    + now rewrite string_eqb_refl.
    + now rewrite E.
Qed.

Lemma obj_get_set_other (k k' : jsstring) (v : json) (ms : list (jsstring * json)) :
  k <> k' -> obj_get k (obj_set k' v ms) = obj_get k ms.
Proof.
  intros Hk. induction ms as [|[k0 v0] ms IH]; cbn [obj_set obj_get].
  - now rewrite string_eqb_neq by congruence.
  - destruct (string_eqb k0 k') eqn:E; [|destruct (listed_before k' k0)]; cbn [obj_get].
    + apply string_eqb_eq in E. subst k0.
      now rewrite !string_eqb_neq by congruence.
    + now rewrite (string_eqb_neq k' k) by congruence.
    + now rewrite IH.
Qed.

(** X5.  A continuation changes the body of the article object and
    nothing else: whatever properties the object holds, declared in
    [BlogPostData] or not, each of them but [body] reads as before and
    keeps its place; when the body is a string it is followed by an
    empty line and the new text, and an object without a body gets one
    that starts with [undefined]. *)
Theorem append_content_changes_only_body (newContent : jsstring)
        (ms : list (jsstring * json)) (former : option jsstring) :
  obj_get k_body ms = option_map JStr former ->
  exists ms',
    append_content newContent (JObj ms) = JObj ms' /\
    obj_get k_body ms'
    = Some (JStr (GeminiService.interpolate former ++ [10; 10] ++ newContent)) /\
    (forall k, k <> k_body -> obj_get k ms' = obj_get k ms) /\
    map fst ms'
    = if existsb (fun k => string_eqb k k_body) (map fst ms) then map fst ms
      else map fst ms ++ [k_body].
Proof.
  intros Hbody.
  eexists. split; [reflexivity|]. cbn [spread prop]. split; [|split].
  - rewrite obj_get_set_same, Hbody. now destruct former.
  - intros k Hk. now apply obj_get_set_other.
  - now apply obj_set_keys.
Qed.

(** An object that holds a title and no body. *)
Lemma append_content_changes_only_body_witness :
  exists ms',
    append_content (js "B") (JObj [(k_title, JStr (js "T"))]) = JObj ms' /\
    obj_get k_body ms' = Some (JStr (js "undefined" ++ [10; 10] ++ js "B")) /\
    obj_get k_title ms' = Some (JStr (js "T")).
Proof.
  destruct (append_content_changes_only_body (js "B") [(k_title, JStr (js "T"))] None
                                             eq_refl)
    as (ms' & E & Hbody & Hother & _).
  exists ms'. split; [exact E|]. split; [exact Hbody|].
  rewrite Hother; [reflexivity|discriminate].
Defined.

(** X6.  Continuations accumulate: after any number of them have
    settled on an article, the body is the first body followed by the
    text of each successful continuation in the order they settled, each
    after an empty line; a failed continuation leaves no trace, and
    nothing else of the article or of the session changes but the
    continuation flag. *)
Theorem continuations_accumulate (outcomes : list (Exc jsstring)) (st : State)
        (a : BlogPostData) :
  blogData st = BlogPostData_object a ->
  blogData (settle_all outcomes st)
  = BlogPostData_object (with_body (body a ++ appended outcomes) a) /\
  error (settle_all outcomes st) = error st /\
  isLoading (settle_all outcomes st) = isLoading st /\
  logo (settle_all outcomes st) = logo st /\
  currentCategory (settle_all outcomes st) = currentCategory st.
Proof.
  revert st a. induction outcomes as [|o outcomes IH]; intros st a Ha.
  - cbn [settle_all fold_left appended flat_map]. rewrite List.app_nil_r.
    rewrite Ha. destruct a. repeat split.
  - change (settle_all (o :: outcomes) st)
      with (settle_all outcomes (handleGenerateMore_settle o st)).
    change (appended (o :: outcomes))
      with (match o with Ok B => paragraph_break ++ B | Throw _ => [] end
            ++ appended outcomes).
    destruct o as [e|B].
    + destruct (IH (handleGenerateMore_settle (Throw e) st) a Ha)
        as (Hb & He & Hl & Hg & Hc).
      rewrite Hb, He, Hl, Hg, Hc. repeat split.
    + assert (Ha' : blogData (handleGenerateMore_settle (Ok B) st)
                    = BlogPostData_object (with_body (body a ++ paragraph_break ++ B) a)).
      { cbn [handleGenerateMore_settle setIsGeneratingMore blogData setBlogData].
        rewrite Ha. apply append_content_article. }
      destruct (IH _ _ Ha') as (Hb & He & Hl & Hg & Hc).
      rewrite Hb, He, Hl, Hg, Hc. split; [|repeat split].
      cbn [body with_body]. rewrite <- !List.app_assoc. reflexivity.
Qed.

Lemma continuations_accumulate_witness :
  blogData (settle_all [Ok (js "B"); Throw TypeError; Ok (js "C")]
                       (setBlogData (BlogPostData_object sample_article) initial))
  = BlogPostData_object
      (with_body (js "A" ++ [10; 10] ++ js "B" ++ [10; 10] ++ js "C") sample_article).
Proof.
  apply (proj1 (continuations_accumulate
                  [Ok (js "B"); Throw TypeError; Ok (js "C")]
                  (setBlogData (BlogPostData_object sample_article) initial)
                  sample_article eq_refl)).
Defined.

End ContinuationText.

Section SharedLinks.

(** X7.  [handleHashChange] never fails and never touches the loading
    flag, the continuation flag or the error message, whatever the hash;
    it either leaves the session as it is or installs an article that is
    not empty, so that a link can replace the article shown but never
    clear it. *)
Theorem handleHashChange_frame (st : State) (hash : jsstring) :
  exists st',
    handleHashChange st hash = Ok st' /\
    isLoading st' = isLoading st /\
    isGeneratingMore st' = isGeneratingMore st /\
    error st' = error st /\
    (st' = st \/ truthy (blogData st') = true).
Proof.
  unfold handleHashChange.
  destruct (startsWith hash share_marker); [|exists st; repeat split; now left].
  destruct (decode_share _) as [e|payload]; cbn [bind try_catch];
    [exists st; repeat split; now left|].
  destruct (truthy payload); [|exists st; repeat split; now left].
  destruct (prop payload k_data) as [data|]; [|exists st; repeat split; now left].
  destruct (truthy data) eqn:Hd; cbn [try_catch]; [|exists st; repeat split; now left].
  eexists. split; [reflexivity|]. repeat split. now right.
Qed.

(** X8.  A link made by hand is applied like one made by the
    application: for every JSON payload with a non-empty [data], which
    may lack [category] and [logo] or hold more than the three
    properties, the hash of the base64 of its UTF-8 text installs [data]
    as the article, [payload.category || ''] as the category and
    [payload.logo || null] as the logo; [data] is not checked against
    [BlogPostData]. *)
Theorem handleHashChange_applies_payload (st : State) (payload data : json) :
  utf16 payload -> well_formed payload ->
  prop payload k_data = Some data -> truthy data = true ->
  handleHashChange st (share_marker ++ encode_octets (utf8_bytes (stringify payload)))
  = Ok (setLogo (or_else (prop payload k_logo) JNull)
          (setCurrentCategory (or_else (prop payload k_category) (JStr []))
             (setBlogData data st))) /\
  (prop payload k_category = None ->
   forall st', handleHashChange
                 st (share_marker ++ encode_octets (utf8_bytes (stringify payload)))
               = Ok st' -> currentCategory st' = JStr []) /\
  (prop payload k_logo = None ->
   forall st', handleHashChange
                 st (share_marker ++ encode_octets (utf8_bytes (stringify payload)))
               = Ok st' -> logo st' = JNull).
Proof.
  intros Hu Hw Hd Ht.
  assert (E : handleHashChange
                st (share_marker ++ encode_octets (utf8_bytes (stringify payload)))
              = Ok (setLogo (or_else (prop payload k_logo) JNull)
                      (setCurrentCategory (or_else (prop payload k_category) (JStr []))
                         (setBlogData data st)))).
  { unfold handleHashChange. rewrite startsWith_app, replace_first_prefix.
    cbn [app]. rewrite (decode_share_text payload Hu Hw). cbn [bind].
    assert (Hp : truthy payload = true) by (destruct payload; try discriminate Hd; reflexivity).
    rewrite Hp, Hd, Ht. reflexivity. }
  split; [exact E|]. split.
  - intros Hc st' H. rewrite E in H. injection H as <-. now rewrite Hc.
  - intros Hl st' H. rewrite E in H. injection H as <-. now rewrite Hl.
Qed.

Lemma handleHashChange_applies_payload_witness :
  handleHashChange
    initial
    (share_marker
     ++ encode_octets
          (utf8_bytes (stringify (JObj [(k_data, BlogPostData_object sample_article)]))))
  = Ok (setBlogData (BlogPostData_object sample_article) initial).
Proof.
  refine (proj1 (handleHashChange_applies_payload
                   initial (JObj [(k_data, BlogPostData_object sample_article)])
                   (BlogPostData_object sample_article) _ _ eq_refl eq_refl)).
  - constructor. constructor; [|constructor]. split.
    + apply wf_stringb_ok. reflexivity.
    + apply article_object_utf16, sample_article_text.
  - constructor.
    + reflexivity.
    + constructor; [apply article_object_well_formed; exact I|constructor].
Defined.

End SharedLinks.

(** ** components/ArticleView.tsx: cover image, tags, file names *)

Section CoverImages.

Import GeminiService.

Variable service : Request -> Exc Response.

(** X9.  [handleGenerateImage] does nothing for an empty prompt.
    Otherwise it ends with the progress flag down and either the image
    [generateBlogImage] returned, with no error, or the error message and
    the image that was shown before: a failure never removes an image.
    The image it installs is a [data:image/png;base64,] address, so the
    test for an empty address never fires. *)
Theorem handleGenerateImage_outcome (imagePrompt : jsstring) (st : ImageState) :
  handleGenerateImage service [] st = st /\
  (imagePrompt <> [] ->
   isGeneratingImage (handleGenerateImage service imagePrompt st) = false /\
   (forall uri,
       generateBlogImage service imagePrompt = Ok uri ->
       handleGenerateImage service imagePrompt st
       = {| generatedImage := Some uri; isGeneratingImage := false; imageError := None |} /\
       exists data, uri = js "data:image/png;base64," ++ data) /\
   (forall e,
       generateBlogImage service imagePrompt = Throw e ->
       handleGenerateImage service imagePrompt st
       = {| generatedImage := generatedImage st; isGeneratingImage := false;
            imageError := Some image_failed |})).
Proof.
  split; [reflexivity|]. intros Hp.
  destruct imagePrompt as [|c p]; [contradiction|]. cbn [handleGenerateImage].
  split; [|split].
  - destruct (generateBlogImage service (c :: p)) as [e|[|u uri]]; reflexivity.
  - intros uri Hu. rewrite Hu. cbn [bind].
    unfold generateBlogImage in Hu.
    destruct (service (generateBlogImage_request (c :: p))) as [e|response];
      [discriminate Hu|].
    cbn [bind try_catch] in Hu.
    destruct (first_inline_image (response_parts response)) as [uri'|] eqn:E;
      [|discriminate Hu].
    injection Hu as ->.
    destruct (first_inline_image_inv _ _ E) as (before & part & blob & after & _ & _ & _ & ->).
    split; [reflexivity|]. now exists (interpolate (data blob)).
  - intros e He. rewrite He. reflexivity.
Qed.

End CoverImages.

Section TagsShown.

Variable shuffle : list jsstring -> list jsstring.
Variable random : Q.

Hypothesis shuffle_permutes : forall pool, Permutation (shuffle pool) pool.
(** [Math.random()] is a binary64 number from 0 up to but not including
    1, so at most [1 - 2^-53]. *)
Hypothesis random_range : (0 <= random)%Q /\ (random <= 1 - (1 # 9007199254740992))%Q.

Lemma tag_pool_cases (category : json) :
  In (tag_pool category) (map snd CATEGORY_TAGS).
Proof.
  unfold tag_pool.
  generalize (categoryKey category). intros key.
  unfold CATEGORY_TAGS. cbn [tags_of map snd].
  repeat match goal with
         | |- context [string_eqb ?a key] => destruct (string_eqb a key)
         end; cbn [In]; tauto.
Qed.

Lemma tag_pools_distinct :
  Forall (fun pool => NoDup pool /\ (5 <= length pool)%nat) (map snd CATEGORY_TAGS).
Proof.
  assert (D : forall a b : jsstring, string_eqb a b = false -> a <> b).
  { intros a b H ->. now rewrite string_eqb_refl in H. }
  repeat constructor; cbn [In]; intros H;
    repeat match type of H with
           | _ \/ _ => destruct H as [H|H]
           | False => contradiction
           | _ = _ => revert H; apply D; vm_compute; reflexivity
           end.
Qed.

Lemma count_range : (3 <= tag_count random <= 5)%Z.
Proof.
  destruct random_range as [H0 H1]. destruct random as [n d].
  unfold Qle in H0, H1. cbn in H0, H1.
  unfold tag_count. cbn [Qnum Qden].
  pose proof (floor_times_three n (Z.pos d)) as F.
  change (2 ^ 53)%Z with 9007199254740992%Z in F.
  lia.
Qed.

(** X10.  The tags shown with an article are
    [Math.floor(Math.random() * 3) + 3] of them, the product rounded to
    binary64 before its floor is taken: at least three and at most five
    for a random number from 0 up to the greatest binary64 value below 1.
    They are distinct and all come from one pool, which is the pool of the
    category when [CATEGORY_TAGS] has one and the default pool otherwise,
    for a category of the list without a pool as for a value that is no
    category. *)
Theorem pick_tags_from_pool (category : json) :
  let tags := pick_tags shuffle random category in
  length tags = Z.to_nat (tag_count random) /\
  (3 <= length tags <= 5)%nat /\
  NoDup tags /\
  incl tags (tag_pool category) /\
  In (tag_pool category) (map snd CATEGORY_TAGS) /\
  (forall c, category = JStr (BlogCategory_value c) ->
             tag_pool category
             = match tags_of (BlogCategory_value c) CATEGORY_TAGS with
               | Some pool => pool
               | None => default_tags
               end) /\
  ((forall c, category <> JStr (BlogCategory_value c)) -> tag_pool category = default_tags).
Proof.
  cbv zeta. unfold pick_tags.
  pose proof (tag_pool_cases category) as Hin.
  pose proof (proj1 (Forall_forall _ _) tag_pools_distinct _ Hin) as [Hnd Hlen].
  pose proof (shuffle_permutes (tag_pool category)) as Hp.
  pose proof count_range as Hc.
  set (count := tag_count random) in *.
  assert (Hl : length (firstn (Z.to_nat count) (shuffle (tag_pool category)))
               = Z.to_nat count).
  { rewrite length_firstn, (Permutation_length Hp). lia. }
  split; [exact Hl|]. split; [rewrite Hl; lia|]. split; [|split; [|split; [|split]]].
  - assert (Hs : NoDup (shuffle (tag_pool category)))
      by (apply (Permutation_NoDup (Permutation_sym Hp)), Hnd).
    rewrite <- (firstn_skipn (Z.to_nat count)) in Hs.
    now apply NoDup_app_remove_r in Hs.
  - intros t Ht. apply (Permutation_in _ Hp).
    rewrite <- (firstn_skipn (Z.to_nat count)).
    apply in_or_app. now left.
  - exact Hin.
  - intros c ->. unfold tag_pool, categoryKey.
    assert (Hv : existsb (string_eqb (BlogCategory_value c)) BlogCategory_values = true)
      by (destruct c; vm_compute; reflexivity).
    now rewrite Hv.
  - intros Hno. unfold tag_pool, categoryKey.
    destruct category as [| | |s| |]; try reflexivity.
    destruct (existsb (string_eqb s) BlogCategory_values) eqn:E; [|reflexivity].
    exfalso. apply existsb_exists in E. destruct E as (v & Hv & Hsv).
    apply string_eqb_eq in Hsv. subst v.
    unfold BlogCategory_values in Hv. apply in_map_iff in Hv.
    destruct Hv as (c & <- & _). now apply (Hno c).
Qed.

End TagsShown.

(** The random number is the binary64 value nearest to two thirds: three
    times it is [2 - 2^-53], which rounds to 2, and five tags are
    shown. *)
Lemma pick_tags_from_pool_witness :
  incl (pick_tags (@rev jsstring) (6004799503160661 # 9007199254740992) (JStr (js "Finanse")))
       [js "Pieniądze"; js "Inwestowanie"; js "Oszczędzanie"; js "Budżet"; js "Giełda";
        js "Ekonomia"] /\
  length (pick_tags (@rev jsstring) (6004799503160661 # 9007199254740992)
                    (JStr (js "Finanse"))) = 5%nat.
Proof.
  pose proof (pick_tags_from_pool
                (@rev jsstring) (6004799503160661 # 9007199254740992)
                (fun pool => Permutation_sym (Permutation_rev pool))
                (conj (Qle_bool_imp_le 0 (6004799503160661 # 9007199254740992) eq_refl)
                      (Qle_bool_imp_le (6004799503160661 # 9007199254740992)
                                       (1 - (1 # 9007199254740992)) eq_refl))
                (JStr (js "Finanse"))) as H.
  cbv zeta in H. destruct H as (Hl & _ & _ & Hi & _).
  split; [exact Hi|exact Hl].
Defined.

Section FileNames.

Lemma replace_spaces_from_clean (in_run : bool) (s : jsstring) :
  Forall (fun c => is_space c = false) (replace_spaces_from in_run s).
Proof.
  revert in_run. induction s as [|c r IH]; intros in_run; cbn [replace_spaces_from].
  - constructor.
  - destruct (is_space c) eqn:E.
    + destruct in_run; [apply IH|]. constructor; [reflexivity|apply IH].
    + constructor; [exact E|apply IH].
Qed.

Lemma replace_spaces_from_length (in_run : bool) (s : jsstring) :
  (length (replace_spaces_from in_run s) <= length s)%nat.
Proof.
  revert in_run. induction s as [|c r IH]; intros in_run; cbn [replace_spaces_from length].
  - lia.
  - destruct (is_space c); [destruct in_run|]; cbn [length];
      match goal with
      | |- context [replace_spaces_from ?b r] => specialize (IH b)
      end; lia.
Qed.


(** X11.  The name under which an article is exported holds no white
    space, whatever the title: every run of white space of the title has
    become one underscore.  Its stem is at most 30 code units of the title
    for the Word file and 20 for the PDF file, and is never longer than
    the title; the stem of the PDF file is the start of the stem of the
    Word file. *)
Theorem export_file_names_have_no_space (title : jsstring) :
  Forall (fun c => is_space c = false) (word_file_name title) /\
  Forall (fun c => is_space c = false) (pdf_file_name title) /\
  (exists stem, word_file_name title = stem ++ js ".doc" /\
                (length stem <= 30)%nat /\ (length stem <= length title)%nat /\
                pdf_file_name title = firstn 20 stem ++ js ".pdf").
Proof.
  unfold word_file_name, pdf_file_name, replace_spaces. split; [|split].
  - apply Forall_app. split.
    + apply Forall_firstn_of, replace_spaces_from_clean.
    + repeat constructor.
  - apply Forall_app. split.
    + apply Forall_firstn_of, replace_spaces_from_clean.
    + repeat constructor.
  - eexists. split; [reflexivity|].
    pose proof (replace_spaces_from_length false title) as L.
    split; [|split].
    + rewrite length_firstn. lia.
    + rewrite length_firstn. lia.
    + rewrite firstn_firstn. reflexivity.
Qed.



End FileNames.

(** ** The history: what is listed and what is kept *)

Section RecentArticles.

Variable fits : jsstring -> bool.

Lemma filter_other_titles_entries (a : BlogPostData) (es : list json) :
  Forall is_entry es ->
  filter_other_titles (BlogPostData_object a) es = Ok (other_titles (title a) es).
Proof.
  induction 1 as [|h es Hh _ IH]; [reflexivity|].
  apply entry_title_prop in Hh as [Hn Hp].
  cbn [filter_other_titles other_titles filter].
  assert (Hg : get h k_title = Ok (Some (JStr (title_string h))))
    by (destruct h; try contradiction; cbn [get]; now rewrite Hp).
  assert (Hd : get (BlogPostData_object a) k_title = Ok (Some (JStr (title a))))
    by reflexivity.
  rewrite Hg, Hd, IH. cbn [bind strict_eq].
  destruct (string_eqb (title_string h) (title a)); reflexivity.
Qed.

(** The entry that a recording has made is never listed. *)
Lemma filter_history_entries (a : BlogPostData) (made : bool) (es : list json) :
  Forall is_entry es ->
  (made = true -> exists e r, es = e :: r /\ title_string e = title a) ->
  filter_history (BlogPostData_object a) made es = Ok (other_titles (title a) es).
Proof.
  intros Hes Hmade. destruct made.
  - destruct (Hmade eq_refl) as (e & r & -> & He). cbn [filter_history].
    inversion Hes as [|? ? _ Hr]; subst.
    rewrite (filter_other_titles_entries a r Hr).
    cbn [other_titles filter]. now rewrite He, string_eqb_refl.
  - destruct es; apply (filter_other_titles_entries a _ Hes).
Qed.

Lemma other_titles_shorter (t : jsstring) (es : list json) :
  existsb (fun x => string_eqb x t) (map title_string es) = true ->
  (length (other_titles t es) < length es)%nat.
Proof.
  induction es as [|h es IH]; cbn [map existsb other_titles filter length]; [discriminate|].
  destruct (string_eqb (title_string h) t) eqn:E; cbn [orb negb length].
  - intros _. pose proof (filter_length_le (fun h => negb (string_eqb (title_string h) t)) es).
    unfold other_titles in *. lia.
  - intros H. specialize (IH H). unfold other_titles in *. lia.
Qed.

Lemma other_titles_spec (t : jsstring) (es : list json) :
  Forall is_entry es ->
  Forall (fun h => is_entry h /\ title_string h <> t) (other_titles t es).
Proof.
  intros H. apply Forall_forall. intros h Hin. unfold other_titles in Hin.
  apply filter_In in Hin. destruct Hin as [Hin Hb]. split.
  - now apply (proj1 (Forall_forall _ _) H).
  - intros <-. now rewrite string_eqb_refl in Hb.
Qed.

(** One recording on a bounded slot: what is listed. *)
Lemma saveArticle_recent (r : Recording) (stored : option jsstring) (es : list json)
      (others : list json) :
  bounded_history stored es ->
  snd (saveArticle fits (rec_clock r) (BlogPostData_object (rec_article r))
                   (JStr (rec_category r)) (rec_image r) stored) = Some others ->
  exists es',
    bounded_history
      (fst (saveArticle fits (rec_clock r) (BlogPostData_object (rec_article r))
                        (JStr (rec_category r)) (rec_image r) stored)) es' /\
    existsb (fun x => string_eqb x (title (rec_article r))) (map title_string es') = true /\
    others = other_titles (title (rec_article r)) es'.
Proof.
  intros (Hrep & Hes & Hlen).
  pose proof (read_history_represents _ _ Hrep (is_entry_well_formed _ Hes)) as Hr.
  pose proof (some_same_title_entries (rec_article r) es Hes) as Hs.
  unfold saveArticle. rewrite Hr. cbn [bind]. rewrite Hs. cbn [bind].
  destruct (existsb (fun x => string_eqb x (title (rec_article r))) (map title_string es))
    eqn:Eknown.
  - rewrite (filter_history_entries _ false _ Hes ltac:(discriminate)). cbn [fst snd].
    intros [= <-]. exists es. repeat split; assumption.
  - change (get (BlogPostData_object (rec_article r)) k_title)
      with (Ok (A := option json) (Some (JStr (title (rec_article r))))).
    cbn [bind]. unfold write_history, setItem.
    rewrite (unshift_bounded_three _ es Hlen).
    set (e1 := newEntry (rec_clock r) (Some (JStr (title (rec_article r))))
                        (JStr (rec_category r)) (nullable (rec_image r))).
    set (e2 := newEntry (rec_clock r) (Some (JStr (title (rec_article r))))
                        (JStr (rec_category r)) JNull).
    assert (He1 : is_entry e1)
      by (apply newEntry_is_entry; [constructor|apply nullable_well_formed]).
    assert (He2 : is_entry e2) by (apply newEntry_is_entry; constructor).
    assert (H2 : e2 :: tl (firstn 3 (e1 :: es)) = firstn 3 (e2 :: es)) by reflexivity.
    rewrite H2.
    assert (Hall : forall e, is_entry e -> Forall is_entry (firstn 3 (e :: es)))
      by (intros e He; apply Forall_firstn_of; constructor; assumption).
    assert (Hhead : forall e,
               title_string e = title (rec_article r) ->
               existsb (fun x => string_eqb x (title (rec_article r)))
                       (map title_string (firstn 3 (e :: es))) = true).
    { intros e He. cbn [firstn map existsb]. rewrite He, string_eqb_refl. reflexivity. }
    assert (Hmade : forall e,
               title_string e = title (rec_article r) ->
               true = true ->
               exists e' r', firstn 3 (e :: es) = e' :: r' /\
                             title_string e' = title (rec_article r)).
    { intros e He _. exists e, (firstn 2 es). split; [reflexivity|exact He]. }
    destruct (fits (stringify (JArr (firstn 3 (e1 :: es))))) eqn:F1; cbn [bind try_catch].
    + rewrite (filter_history_entries _ true _ (Hall e1 He1) (Hmade e1 eq_refl)).
      cbn [fst snd].
      intros [= <-]. exists (firstn 3 (e1 :: es)). split; [|split].
      * split; [right; reflexivity|]. split; [now apply Hall|apply firstn_three_length].
      * now apply Hhead.
      * reflexivity.
    + destruct (fits (stringify (JArr (firstn 3 (e2 :: es))))) eqn:F2; cbn [bind].
      * rewrite (filter_history_entries _ true _ (Hall e2 He2) (Hmade e2 eq_refl)).
        cbn [fst snd].
        intros [= <-]. exists (firstn 3 (e2 :: es)). split; [|split].
        -- split; [right; reflexivity|]. split; [now apply Hall|apply firstn_three_length].
        -- now apply Hhead.
        -- reflexivity.
      * discriminate.
Qed.

(** X13.  The list of recent articles shown under an article never
    holds the article itself and never more than two entries: on a
    history built by the application from an empty slot, whatever the
    storage accepts, [setRecentArticles] is given the stored entries with
    another title, in stored order, and the article on show is one of at
    most three stored entries. *)
Theorem recent_articles_exclude_current (rs : list Recording) (r : Recording)
        (others : list json) :
  snd (saveArticle fits (rec_clock r) (BlogPostData_object (rec_article r))
                   (JStr (rec_category r)) (rec_image r)
                   (record_all fits (map visit_of rs) None)) = Some others ->
  (length others <= 2)%nat /\
  Forall (fun h => is_entry h /\ title_string h <> title (rec_article r)) others /\
  exists es,
    bounded_history
      (fst (saveArticle fits (rec_clock r) (BlogPostData_object (rec_article r))
                        (JStr (rec_category r)) (rec_image r)
                        (record_all fits (map visit_of rs) None))) es /\
    others = other_titles (title (rec_article r)) es.
Proof.
  intros H.
  assert (Hempty : bounded_history None []).
  { split; [left; split; reflexivity|]. split; [constructor|simpl; lia]. }
  destruct (record_all_bounded fits rs None [] Hempty) as (es0 & H0 & _).
  destruct (saveArticle_recent r _ es0 others H0 H) as (es & Hb & Hin & ->).
  pose proof (other_titles_shorter _ _ Hin) as Hlt.
  destruct Hb as (Hrep & Hes & Hlen).
  split; [lia|]. split; [now apply other_titles_spec|].
  exists es. split; [repeat split; assumption|reflexivity].
Qed.

End RecentArticles.

Lemma recent_articles_exclude_current_witness :
  exists others,
    snd (saveArticle (fun _ => true) (rec_clock (recording 6 (js "Joga")))
                     (BlogPostData_object (rec_article (recording 6 (js "Joga"))))
                     (JStr (rec_category (recording 6 (js "Joga"))))
                     (rec_image (recording 6 (js "Joga")))
                     (record_all (fun _ => true) (map visit_of five_recordings) None))
    = Some others /\
    (length others <= 2)%nat.
Proof.
  eexists. split.
  - vm_compute. reflexivity.
  - refine (proj1 (recent_articles_exclude_current
                     (fun _ => true) five_recordings (recording 6 (js "Joga")) _ _)).
    vm_compute. reflexivity.
Defined.

Section StorageFailures.

Variable fits : jsstring -> bool.

(** X14.  A slot that does not hold an array is never repaired: when
    the stored text is not JSON, or is the text of a value that is not an
    array, [saveArticle] writes nothing and lists nothing, for this
    article and for every article recorded after it. *)
Theorem unreadable_history_is_kept (stored : option jsstring) (e : JS.error) :
  read_history stored = Throw e ->
  (forall clock data category image,
      saveArticle fits clock data category image stored = (stored, None)) /\
  forall visits, record_all fits visits stored = stored.
Proof.
  intros Hr.
  assert (Hsave : forall clock data category image,
             saveArticle fits clock data category image stored = (stored, None)).
  { intros clock data category image. unfold saveArticle. now rewrite Hr. }
  split; [exact Hsave|].
  intros visits. induction visits as [|v visits IH]; [reflexivity|].
  cbn [record_all fold_left]. rewrite Hsave. exact IH.
Qed.

(** X15.  When the storage refuses the history with the thumbnail of a
    new article, the article is stored without it, in front of the two
    newest entries kept, and these two are listed as recent; when the
    storage refuses that too, the slot stays as it was and nothing is
    listed. *)
Theorem saveArticle_without_thumbnail (r : Recording) (stored : option jsstring)
        (es : list json) :
  bounded_history stored es ->
  existsb (fun x => string_eqb x (title (rec_article r))) (map title_string es) = false ->
  let entry thumbnail :=
      newEntry (rec_clock r) (Some (JStr (title (rec_article r))))
               (JStr (rec_category r)) thumbnail in
  fits (stringify (JArr (firstn 3 (entry (nullable (rec_image r)) :: es)))) = false ->
  saveArticle fits (rec_clock r) (BlogPostData_object (rec_article r))
              (JStr (rec_category r)) (rec_image r) stored
  = if fits (stringify (JArr (entry JNull :: firstn 2 es)))
    then (Some (stringify (JArr (entry JNull :: firstn 2 es))), Some (firstn 2 es))
    else (stored, None).
Proof.
  intros (Hrep & Hes & Hlen) Hnew entry Hfull.
  pose proof (read_history_represents _ _ Hrep (is_entry_well_formed _ Hes)) as Hr.
  pose proof (some_same_title_entries (rec_article r) es Hes) as Hs.
  unfold saveArticle. rewrite Hr. cbn [bind]. rewrite Hs, Hnew. cbn [bind].
  change (get (BlogPostData_object (rec_article r)) k_title)
    with (Ok (A := option json) (Some (JStr (title (rec_article r))))).
  cbn [bind]. unfold write_history, setItem.
  rewrite (unshift_bounded_three _ es Hlen).
  fold (entry (nullable (rec_image r))). fold (entry JNull).
  rewrite Hfull. cbn [bind try_catch].
  change (tl (firstn 3 (entry (nullable (rec_image r)) :: es))) with (firstn 2 es).
  destruct (fits (stringify (JArr (entry JNull :: firstn 2 es)))); cbn [bind]; [|reflexivity].
  assert (He : Forall is_entry (entry JNull :: firstn 2 es)).
  { constructor; [apply newEntry_is_entry; constructor|now apply Forall_firstn_of]. }
  assert (Ht : title_string (entry JNull) = title (rec_article r)) by reflexivity.
  rewrite (filter_history_entries
             _ true _ He (fun _ => ex_intro _ _ (ex_intro _ _ (conj eq_refl Ht)))).
  cbn [other_titles filter].
  rewrite Ht, string_eqb_refl. cbn [negb].
  f_equal. f_equal.
  (* none of the kept entries has the title *)
  assert (Hkeep : forall l,
             Forall is_entry l ->
             existsb (fun x => string_eqb x (title (rec_article r))) (map title_string l)
             = false ->
             filter (fun h => negb (string_eqb (title_string h) (title (rec_article r)))) l
             = l).
  { induction l as [|h l IH]; intros Hl Hx; [reflexivity|].
    cbn [map existsb] in Hx. apply orb_false_iff in Hx. destruct Hx as [Hh Hx].
    cbn [filter]. rewrite Hh. cbn [negb]. f_equal.
    apply IH; [now inversion Hl|exact Hx]. }
  apply Hkeep; [now apply Forall_firstn_of|].
  clear - Hnew. revert Hnew. generalize (title (rec_article r)). intros t.
  generalize 2%nat. intros n. revert n.
  induction es as [|h l IH]; intros [|n] H; try reflexivity.
  cbn [map existsb] in H. apply orb_false_iff in H. destruct H as [Hh Hx].
  cbn [firstn map existsb]. rewrite Hh. cbn [orb]. now apply IH.
Qed.

End StorageFailures.

Lemma unreadable_history_is_kept_witness :
  record_all (fun _ => true) (map visit_of five_recordings) (Some (js "{}"))
  = Some (js "{}").
Proof.
  apply (proj2 (unreadable_history_is_kept (fun _ => true) (Some (js "{}")) TypeError
                                           eq_refl)).
Defined.

Lemma saveArticle_without_thumbnail_witness :
  saveArticle (fun s => (length s <=? 100)%nat)
              (rec_clock (recording 1 (js "Sen")))
              (BlogPostData_object (rec_article (recording 1 (js "Sen"))))
              (JStr (rec_category (recording 1 (js "Sen"))))
              (rec_image (recording 1 (js "Sen"))) None
  = (Some (stringify
             (JArr [newEntry (rec_clock (recording 1 (js "Sen"))) (Some (JStr (js "Sen")))
                             (JStr (js "Zdrowie")) JNull])),
     Some []).
Proof.
  refine (saveArticle_without_thumbnail
            (fun s => (length s <=? 100)%nat) (recording 1 (js "Sen")) None [] _ _ _).
  - split; [left; split; reflexivity|]. split; [constructor|simpl; lia].
  - reflexivity.
  - vm_compute. reflexivity.
Defined.

Section DistinctTitles.

Variable fits : jsstring -> bool.

Lemma NoDup_firstn (A : Type) (n : nat) (l : list A) : NoDup l -> NoDup (firstn n l).
Proof.
  intros H. rewrite <- (firstn_skipn n l) in H. now apply NoDup_app_remove_r in H.
Qed.

(** One recording keeps the titles of a bounded slot distinct. *)
Lemma saveArticle_distinct (r : Recording) (stored : option jsstring) (es : list json) :
  bounded_history stored es -> NoDup (map title_string es) ->
  exists es',
    bounded_history
      (fst (saveArticle fits (rec_clock r) (BlogPostData_object (rec_article r))
                        (JStr (rec_category r)) (rec_image r) stored)) es' /\
    NoDup (map title_string es').
Proof.
  intros Hb Hnd. pose proof Hb as (Hrep & Hes & Hlen).
  pose proof (read_history_represents _ _ Hrep (is_entry_well_formed _ Hes)) as Hr.
  pose proof (some_same_title_entries (rec_article r) es Hes) as Hs.
  destruct (existsb (fun x => string_eqb x (title (rec_article r))) (map title_string es))
    eqn:Eknown.
  - exists es. split; [|exact Hnd].
    assert (E : fst (saveArticle fits (rec_clock r) (BlogPostData_object (rec_article r))
                                 (JStr (rec_category r)) (rec_image r) stored) = stored).
    { unfold saveArticle. rewrite Hr. cbn [bind]. rewrite Hs. cbn [bind].
      destruct (filter_history _ _ _); reflexivity. }
    now rewrite E.
  - rewrite (saveArticle_slot fits _ _ _ _ _ es (title (rec_article r)) Hr
                              (article_title_prop _) Hs).
    cbv zeta. rewrite (unshift_bounded_three _ es Hlen).
    set (e1 := newEntry (rec_clock r) (Some (JStr (title (rec_article r))))
                        (JStr (rec_category r)) (nullable (rec_image r))).
    set (e2 := newEntry (rec_clock r) (Some (JStr (title (rec_article r))))
                        (JStr (rec_category r)) JNull).
    assert (He1 : is_entry e1)
      by (apply newEntry_is_entry; [constructor|apply nullable_well_formed]).
    assert (He2 : is_entry e2) by (apply newEntry_is_entry; constructor).
    assert (H2 : e2 :: tl (firstn 3 (e1 :: es)) = firstn 3 (e2 :: es)) by reflexivity.
    rewrite H2.
    assert (Hall : forall e, is_entry e -> Forall is_entry (firstn 3 (e :: es)))
      by (intros e He; apply Forall_firstn_of; constructor; assumption).
    assert (Hfresh : ~ In (title (rec_article r)) (map title_string es)).
    { intros Hin. apply Bool.not_true_iff_false in Eknown. apply Eknown.
      apply existsb_exists. exists (title (rec_article r)). split; [exact Hin|].
      apply string_eqb_refl. }
    assert (Hnew : forall e,
               title_string e = title (rec_article r) ->
               NoDup (map title_string (firstn 3 (e :: es)))).
    { intros e He. rewrite <- firstn_map. apply NoDup_firstn.
      cbn [map]. rewrite He. now constructor. }
    destruct (fits (stringify (JArr (firstn 3 (e1 :: es))))) eqn:F1.
    + exists (firstn 3 (e1 :: es)). split; [|now apply Hnew].
      split; [right; reflexivity|]. split; [now apply Hall|apply firstn_three_length].
    + destruct (fits (stringify (JArr (firstn 3 (e2 :: es))))) eqn:F2.
      * exists (firstn 3 (e2 :: es)). split; [|now apply Hnew].
        split; [right; reflexivity|]. split; [now apply Hall|apply firstn_three_length].
      * exists es. split; [exact Hb|exact Hnd].
Qed.

(** X16.  The history never holds two entries with the same title:
    from an empty slot, whatever is recorded, in whatever order and how
    often, and whatever the storage accepts, the stored titles are
    distinct. *)
Theorem history_titles_distinct (rs : list Recording) :
  exists ts,
    stored_titles (record_all fits (map visit_of rs) None)
    = Some (map (fun t => Some (JStr t)) ts) /\
    NoDup ts.
Proof.
  assert (Hinv : forall rs stored es,
             bounded_history stored es -> NoDup (map title_string es) ->
             exists es',
               bounded_history (record_all fits (map visit_of rs) stored) es' /\
               NoDup (map title_string es')).
  { clear rs. induction rs as [|r rs IH]; intros stored es Hb Hnd.
    - exists es. split; assumption.
    - destruct (saveArticle_distinct r stored es Hb Hnd) as (es1 & H1 & N1).
      exact (IH _ es1 H1 N1). }
  assert (Hempty : bounded_history None []).
  { split; [left; split; reflexivity|]. split; [constructor|simpl; lia]. }
  destruct (Hinv rs None [] Hempty (NoDup_nil _)) as (es & Hb & Hnd).
  exists (map title_string es). split; [|exact Hnd].
  now apply stored_titles_bounded.
Qed.

End DistinctTitles.

(** ** Share links of any content *)

Section ShareAlways.

Lemma b64_char_alphabet (v : N) : is_base64_char (b64_char v) = true.
Proof.
  unfold b64_char, is_base64_char, is_upper, is_lower, is_digit.
  destruct (N.ltb_spec v 26); [|destruct (N.ltb_spec v 52);
    [|destruct (N.ltb_spec v 62); [|destruct (N.eqb_spec v 62)]]];
    try reflexivity;
    repeat match goal with
           | |- context [N.leb ?a ?b] => destruct (N.leb_spec a b); try lia
           end; reflexivity.
Qed.

Lemma padding_alphabet (l : list N) : forallb is_base64_char (padding l) = true.
Proof. destruct (padding_cases l) as [->|[[-> _]|[-> _]]]; reflexivity. Qed.

Lemma encode_octets_alphabet (l : list N) :
  forallb is_base64_char (encode_octets l) = true /\
  (length (encode_octets l) mod 4 = 0)%nat.
Proof.
  rewrite encode_octets_shape. split.
  - rewrite forallb_app, padding_alphabet, andb_true_r.
    apply forallb_forall. intros c Hc. apply in_map_iff in Hc.
    destruct Hc as (v & <- & _). apply b64_char_alphabet.
  - rewrite length_app, length_map. apply encoded_length.
Qed.

(** X17.  Making a share link never fails on the content: for every
    article, category and logo, whatever their strings hold (lone
    surrogates included), [handleShareLink] obtains a link, which is the
    address of the page, [#share=] and a token made of base64 characters
    only, a multiple of four of them.  The alert is raised only when the
    clipboard refuses the link. *)
Theorem share_link_always_made (location : Location) (data category logo : json)
        (writeText : jsstring -> Exc unit) :
  utf16 data -> utf16 category -> utf16 logo ->
  exists token,
    share_url location data category logo
    = Ok (origin location ++ pathname location ++ share_marker ++ token) /\
    forallb is_base64_char token = true /\
    (length token mod 4 = 0)%nat /\
    (handleShareLink location data category logo writeText = ShareFailed <->
     exists e, writeText (origin location ++ pathname location ++ share_marker ++ token)
               = Throw e).
Proof.
  intros Hd Hc Hl.
  assert (Hobj : forall includeLogo : bool,
             utf16 (share_object data category (if includeLogo then logo else JNull))).
  { intros b. apply share_object_utf16; try assumption. destruct b; [assumption|constructor]. }
  assert (Hurl : exists token,
             share_url location data category logo
             = Ok (origin location ++ pathname location ++ share_marker ++ token) /\
             forallb is_base64_char token = true /\
             (length token mod 4 = 0)%nat).
  { unfold share_url.
    rewrite (generateUrl_text location data category logo (truthy logo) (Hobj (truthy logo))).
    cbn [bind].
    destruct ((30000 <? strlen _) && truthy logo).
    - rewrite (generateUrl_text location data category logo false (Hobj false)).
      eexists. split; [reflexivity|apply encode_octets_alphabet].
    - eexists. split; [reflexivity|apply encode_octets_alphabet]. }
  destruct Hurl as (token & Hu & Ha & Hm).
  exists token. split; [exact Hu|]. split; [exact Ha|]. split; [exact Hm|].
  unfold handleShareLink. rewrite Hu. cbn [bind].
  destruct (writeText _) as [e|u]; cbn [bind]; split.
  - intros _. now exists e.
  - reflexivity.
  - discriminate.
  - intros (e & He). discriminate He.
Qed.

Lemma share_link_always_made_witness :
  exists token,
    share_url example_location (JStr [0xD800]) (JStr (js "Zdrowie")) JNull
    = Ok (origin example_location ++ pathname example_location ++ share_marker ++ token).
Proof.
  destruct (share_link_always_made
              example_location (JStr [0xD800]) (JStr (js "Zdrowie")) JNull
              (fun _ => Ok tt)) as (token & H & _).
  - constructor. apply wf_stringb_ok. reflexivity.
  - constructor. apply wf_stringb_ok. reflexivity.
  - constructor.
  - now exists token.
Defined.

End ShareAlways.

Section ShareBudget.

Lemma encode_octets_length (l : list N) :
  length (encode_octets l) = (4 * ((length l + 2) / 3))%nat.
Proof.
  induction l as [| | |a b c r IH] using list_ind3; try reflexivity.
  cbn [encode_octets length]. rewrite IH.
  replace (S (S (S (length r))) + 2)%nat with ((length r + 2) + 1 * 3)%nat by lia.
  rewrite Nat.div_add by lia. lia.
Qed.

(** X18.  The link that carries the logo is as long as the address of
    the page and [#share=], 7 characters, and four characters for every
    three bytes, or part of three, of the UTF-8 text of the payload; the
    logo is kept in the link exactly when this is at most 30,000. *)
Theorem share_link_keeps_logo_within_budget (location : Location)
        (data category logo : json) :
  utf16 data -> utf16 category -> utf16 logo -> truthy logo = true ->
  let size :=
      strlen (origin location) + strlen (pathname location) + 7
      + 4 * ((strlen (utf8_bytes (stringify (share_object data category logo))) + 2) / 3)
  in
  (exists url, generateUrl location data category logo true = Ok url /\ strlen url = size) /\
  (size <= 30000 ->
   share_url location data category logo = generateUrl location data category logo true) /\
  (30000 < size ->
   share_url location data category logo = generateUrl location data category logo false).
Proof.
  intros Hd Hc Hl Ht size.
  assert (Hobj : utf16 (share_object data category logo))
    by (now apply share_object_utf16).
  pose proof (generateUrl_text location data category logo true Hobj) as Hu.
  cbv iota in Hu.
  assert (Hlen : strlen (origin location ++ pathname location ++ share_marker
                         ++ encode_octets
                              (utf8_bytes (stringify (share_object data category logo))))
                 = size).
  { subst size. unfold strlen. rewrite !length_app, encode_octets_length.
    change (length share_marker) with 7%nat.
    generalize (length (utf8_bytes (stringify (share_object data category logo)))).
    generalize (length (origin location)). generalize (length (pathname location)).
    intros p o n.
    rewrite !Nat2N.inj_add, Nat2N.inj_mul, Nat2N.inj_div, Nat2N.inj_add. lia. }
  clearbody size.
  split; [eexists; split; [exact Hu|exact Hlen]|].
  unfold share_url. rewrite Ht, Hu. cbn [bind]. rewrite andb_true_r, Hlen.
  split; intros Hs.
  - destruct (N.ltb_spec 30000 size); [lia|reflexivity].
  - destruct (N.ltb_spec 30000 size); [reflexivity|lia].
Qed.

End ShareBudget.

Lemma share_link_keeps_logo_within_budget_witness :
  share_url example_location (BlogPostData_object sample_article) (JStr (js "Zdrowie"))
            (JStr (js "data:image/png;base64,AAAA"))
  = generateUrl example_location (BlogPostData_object sample_article) (JStr (js "Zdrowie"))
                (JStr (js "data:image/png;base64,AAAA")) true.
Proof.
  assert (Hd : utf16 (BlogPostData_object sample_article))
    by (apply article_object_utf16, sample_article_text).
  assert (Hc : utf16 (JStr (js "Zdrowie")))
    by (constructor; apply wf_stringb_ok; reflexivity).
  assert (Hl : utf16 (JStr (js "data:image/png;base64,AAAA")))
    by (constructor; apply wf_stringb_ok; reflexivity).
  pose proof (share_link_keeps_logo_within_budget
                example_location (BlogPostData_object sample_article)
                (JStr (js "Zdrowie")) (JStr (js "data:image/png;base64,AAAA"))
                Hd Hc Hl eq_refl) as H.
  cbv zeta in H. destruct H as (_ & Hkeep & _). apply Hkeep.
  vm_compute. intros H. discriminate H.
Defined.

(** ** components/ChartRenderer.tsx and components/Editor.tsx *)

Section Charts.

Import ChartRenderer.

Lemma fill_palette (index : nat) :
  exists colour,
    fill index = Some colour /\ In colour COLORS /\
    fill (index + 5) = fill index /\ fill (S index) <> fill index.
Proof.
  unfold fill. change (List.length COLORS) with 5%nat.
  assert (Hp : ((index + 5) mod 5 = index mod 5)%nat).
  { replace (index + 5)%nat with (index + 1 * 5)%nat by lia. apply Nat.Div0.mod_add. }
  rewrite Hp.
  assert (Hs : (S index mod 5 = if (index mod 5 =? 4)%nat then 0 else S (index mod 5))%nat).
  { pose proof (Nat.mod_upper_bound index 5 ltac:(lia)) as Hb.
    pose proof (Nat.div_mod_eq index 5) as Hd.
    destruct (Nat.eqb_spec (index mod 5) 4) as [E|E].
    - symmetry. apply (Nat.mod_unique _ _ (S (index / 5))); lia.
    - symmetry. apply (Nat.mod_unique _ _ (index / 5)); lia. }
  rewrite Hs.
  pose proof (Nat.mod_upper_bound index 5 ltac:(lia)) as Hb.
  destruct (index mod 5)%nat as [|[|[|[|[|k]]]]]; try lia;
    (eexists; split; [reflexivity|]; split; [cbn; tauto|]; split; [reflexivity|]);
    cbn; intros H; discriminate H.
Qed.

(** X19.  [ChartRenderer] draws nothing for a chart without data, with
    data that is [null] or empty in another way, or with an empty array
    of data.  For a chart with points it draws a pie when the type is
    [pie], a line when it is [line] and bars for every other type,
    missing or unknown; the pie and the bars get one cell for each point,
    each filled with one of the five colours, the same colour every five
    cells and never the colour of the cell before. *)
Theorem ChartRenderer_draws (chart : json) :
  (truthy chart = false \/ prop chart k_data = None \/
   (exists data, prop chart k_data = Some data /\ truthy data = false) \/
   prop chart k_data = Some (JArr []) -> ChartRenderer chart = Ok None) /\
  (forall point points,
      prop chart k_data = Some (JArr (point :: points)) ->
      exists fills,
        ChartRenderer chart
        = Ok (Some (if strict_eq (prop chart k_type) (Some (JStr k_pie))
                    then PieChart (JArr (point :: points)) fills
                    else if strict_eq (prop chart k_type) (Some (JStr k_line))
                         then LineChart (JArr (point :: points))
                         else BarChart (JArr (point :: points)) fills)) /\
        length fills = S (length points) /\
        forall index,
          (index <= length points)%nat ->
          exists colour,
            nth_error fills index = Some (Some colour) /\ In colour COLORS /\
            ((index + 5 <= length points)%nat ->
             nth_error fills (index + 5) = Some (Some colour)) /\
            ((S index <= length points)%nat ->
             nth_error fills (S index) <> Some (Some colour))).
Proof.
  split.
  - unfold ChartRenderer. intros [H|[H|[(data & H & Hd)|H]]].
    + now rewrite H.
    + destruct (truthy chart); [|reflexivity]. now rewrite H.
    + destruct (truthy chart); [|reflexivity]. now rewrite H, Hd.
    + destruct (truthy chart); [|reflexivity]. rewrite H. reflexivity.
  - intros point points Hd.
    assert (Ht : truthy chart = true) by (destruct chart; try discriminate Hd; reflexivity).
    exists (map fill (seq 0 (S (length points)))).
    split; [|split].
    + unfold ChartRenderer. rewrite Ht, Hd. cbn [negb truthy length_of bind].
      assert (Hn : strict_eq (Some (JNum (Number.of_nat (List.length (point :: points)))))
                             (Some (JNum Number.zero)) = false).
      { cbn [strict_eq List.length]. apply of_nat_positive. }
      rewrite Hn. unfold cells. cbn [as_array bind List.length].
      destruct (strict_eq (prop chart k_type) (Some (JStr k_pie))); [reflexivity|].
      destruct (strict_eq (prop chart k_type) (Some (JStr k_line))); reflexivity.
    + now rewrite length_map, length_seq.
    + intros index Hi.
      assert (Hnth : forall i, (i <= length points)%nat ->
                               nth_error (map fill (seq 0 (S (length points)))) i
                               = Some (fill i)).
      { intros i Hle. rewrite nth_error_map.
        rewrite nth_error_nth' with (d := O) by (rewrite length_seq; lia).
        rewrite seq_nth by lia. reflexivity. }
      destruct (fill_palette index) as (colour & Hf & Hin & Hper & Hnext).
      exists colour. rewrite (Hnth index Hi), Hf. repeat split.
      * exact Hin.
      * intros H5. rewrite (Hnth _ H5), Hper, Hf. reflexivity.
      * intros Hs. rewrite (Hnth _ Hs). rewrite Hf in Hnext. congruence.
Qed.

End Charts.

Section TrendSuggestions.

Variable service : GeminiService.Request -> Exc GeminiService.Response.

(** X20.  [handleFetchTrends] never shows a suggestion.
    [generateTrendingTopics] returns the object [{ topics, sources }],
    which has no [length] and no [slice], so that when the service has
    answered the handler ends in its [catch] as when the service has
    failed: the list of suggestions is empty, the message is the one of
    a failed download, and the message for an empty result is never
    shown.  Topic, category and length are left as they were. *)
Theorem handleFetchTrends_never_lists (st : Editor.State) :
  Editor.handleFetchTrends service st
  = {| Editor.topic := Editor.topic st;
       Editor.category := Editor.category st;
       Editor.length := Editor.length st;
       Editor.suggestions := JArr [];
       Editor.isSuggesting := false;
       Editor.suggestionError := Some Editor.trends_failed |}.
Proof.
  unfold Editor.handleFetchTrends.
  destruct (GeminiService.generateTrendingTopics _ _ _) as [e|[topics sources]];
    reflexivity.
Qed.

End TrendSuggestions.

(** ** The history and the links, further *)

Section OversizedHistory.

Variable fits : jsstring -> bool.

(** X21.  The history is cut by one entry at a time: recording an
    article with a new title in a slot that holds [n] entries writes
    [n + 1] entries when [n] is less than three and [n] entries
    otherwise, the new entry first and the last one dropped.  A slot that
    holds more than three entries, written by something else, is
    therefore never brought back to three.  What is written is the
    history with the thumbnail of the new entry when the storage takes
    it, the history without it when the storage takes that one, and
    nothing when it takes neither. *)
Theorem saveArticle_drops_one_entry (r : Recording) (es : list json) :
  Forall is_entry es ->
  existsb (fun x => string_eqb x (title (rec_article r))) (map title_string es) = false ->
  let cut := fun entry : json =>
               if (length es <? 3)%nat then entry :: es else entry :: removelast es in
  let entry1 := newEntry (rec_clock r) (Some (JStr (title (rec_article r))))
                         (JStr (rec_category r)) (nullable (rec_image r)) in
  let entry2 := newEntry (rec_clock r) (Some (JStr (title (rec_article r))))
                         (JStr (rec_category r)) JNull in
  fst (saveArticle fits (rec_clock r) (BlogPostData_object (rec_article r))
                   (JStr (rec_category r)) (rec_image r) (Some (stringify (JArr es))))
  = (if fits (stringify (JArr (cut entry1))) then Some (stringify (JArr (cut entry1)))
     else if fits (stringify (JArr (cut entry2))) then Some (stringify (JArr (cut entry2)))
          else Some (stringify (JArr es))) /\
  (forall entry,
      length (cut entry) = (if (length es <? 3)%nat then S (length es) else length es)) /\
  title_string entry1 = title (rec_article r) /\
  title_string entry2 = title (rec_article r).
Proof.
  intros Hes Hnew cut entry1 entry2.
  pose proof (read_history_stringify es (is_entry_well_formed _ Hes)) as Hr.
  pose proof (some_same_title_entries (rec_article r) es Hes) as Hs.
  rewrite Hnew in Hs.
  rewrite (saveArticle_slot fits _ _ _ _ _ es (title (rec_article r)) Hr
                            (article_title_prop _) Hs).
  cbv zeta. fold entry1 entry2.
  assert (Hshape : forall e, unshift_bounded e es = cut e).
  { intros e. unfold unshift_bounded, cut. cbn [length].
    destruct (Nat.ltb_spec (length es) 3) as [L|L].
    - destruct (Nat.ltb_spec 3 (S (length es))); [lia|reflexivity].
    - destruct (Nat.ltb_spec 3 (S (length es))); [|lia].
      destruct es as [|h t]; [cbn in L; lia|reflexivity]. }
  assert (Hlen : forall e,
             length (cut e) = (if (length es <? 3)%nat then S (length es) else length es)).
  { intros e. unfold cut. destruct (Nat.ltb_spec (length es) 3) as [L|L]; [reflexivity|].
    assert (Hrl : forall l : list json, l <> [] -> S (length (removelast l)) = length l).
    { induction l as [|x [|y l] IH]; intros Hl; [contradiction|reflexivity|].
      change (removelast (x :: y :: l)) with (x :: removelast (y :: l)).
      cbn [length] in *. rewrite IH by discriminate. reflexivity. }
    cbn [length]. apply Hrl. destruct es; [cbn in L; lia|discriminate]. }
  rewrite (Hshape entry1).
  assert (Htl : entry2 :: tl (cut entry1) = cut entry2)
    by (unfold cut; destruct (length es <? 3)%nat; reflexivity).
  rewrite Htl.
  split; [reflexivity|]. split; [exact Hlen|]. split; reflexivity.
Qed.

End OversizedHistory.

(** A slot of five entries and a storage with room for 420 code units:
    the history with the thumbnail of the new entry is refused, the one
    without it is written, and it holds five entries still. *)
Lemma saveArticle_drops_one_entry_witness :
  fst (saveArticle (fun s => strlen s <=? 420) (rec_clock (recording 9 (js "Las")))
                   (BlogPostData_object (rec_article (recording 9 (js "Las"))))
                   (JStr (rec_category (recording 9 (js "Las"))))
                   (rec_image (recording 9 (js "Las")))
                   (Some (stringify
                            (JArr (map (fun t => StoredArticle_object
                                                   {| entry_id := js "1";
                                                      entry_title := t;
                                                      entry_category := js "Zdrowie";
                                                      entry_date := js "2.11.2026";
                                                      entry_thumbnail := None |})
                                       [js "a"; js "b"; js "c"; js "d"; js "e"])))))
  = Some (stringify
            (JArr (newEntry (rec_clock (recording 9 (js "Las"))) (Some (JStr (js "Las")))
                            (JStr (js "Zdrowie")) JNull
                     :: map (fun t => StoredArticle_object
                                        {| entry_id := js "1";
                                           entry_title := t;
                                           entry_category := js "Zdrowie";
                                           entry_date := js "2.11.2026";
                                           entry_thumbnail := None |})
                            [js "a"; js "b"; js "c"; js "d"]))).
Proof.
  assert (H1 : Forall is_entry
                       (map (fun t => StoredArticle_object
                                        {| entry_id := js "1"; entry_title := t;
                                           entry_category := js "Zdrowie";
                                           entry_date := js "2.11.2026";
                                           entry_thumbnail := None |})
                            [js "a"; js "b"; js "c"; js "d"; js "e"])).
  { repeat constructor; try (intros H0; cbn in H0; intuition discriminate);
      try (eexists; eexists; split; reflexivity). }
  pose proof (saveArticle_drops_one_entry
                (fun s => strlen s <=? 420) (recording 9 (js "Las")) _ H1 eq_refl) as H.
  cbv zeta in H. destruct H as [E _]. rewrite E. vm_compute. reflexivity.
Defined.

Section DistinctLinks.

(** X22.  A link tells its content: when [generateUrl] makes the same
    link for two sessions whose values JSON writes as they are (every
    number finite and not [-0]), both hold the same article and the same
    category and, where the logo is included, the same logo. *)
Theorem generateUrl_injective (location : Location) (includeLogo : bool)
        (data1 category1 logo1 data2 category2 logo2 : json) (url : jsstring) :
  utf16 (share_object data1 category1 logo1) ->
  well_formed (share_object data1 category1 logo1) ->
  utf16 (share_object data2 category2 logo2) ->
  well_formed (share_object data2 category2 logo2) ->
  generateUrl location data1 category1 logo1 includeLogo = Ok url ->
  generateUrl location data2 category2 logo2 includeLogo = Ok url ->
  data1 = data2 /\ category1 = category2 /\ (includeLogo = true -> logo1 = logo2).
Proof.
  intros U1 W1 U2 W2 H1 H2.
  assert (Hparts : forall data category logo,
             utf16 (share_object data category logo) ->
             well_formed (share_object data category logo) ->
             utf16 (share_object data category (if includeLogo then logo else JNull)) /\
             well_formed (share_object data category (if includeLogo then logo else JNull))).
  { intros data category logo U W. destruct includeLogo; [now split|].
    inversion U as [| | | | |ms HU E]; subst.
    inversion W as [| | | | |ms HN HW E]; subst.
    inversion HU as [|? ? Ud HU1]; subst. inversion HU1 as [|? ? Uc HU2]; subst.
    inversion HW as [|? ? Wd HW1]; subst. inversion HW1 as [|? ? Wc HW2]; subst.
    split.
    - apply share_object_utf16; [apply Ud|apply Uc|constructor].
    - apply share_object_well_formed; [exact Wd|exact Wc|constructor]. }
  destruct (Hparts _ _ _ U1 W1) as [U1' W1'].
  destruct (Hparts _ _ _ U2 W2) as [U2' W2'].
  rewrite (generateUrl_text location data1 category1 logo1 includeLogo U1') in H1.
  rewrite (generateUrl_text location data2 category2 logo2 includeLogo U2') in H2.
  pose proof (decode_share_text _ U1' W1') as D1.
  pose proof (decode_share_text _ U2' W2') as D2.
  set (token1 := encode_octets _) in H1, D1.
  set (token2 := encode_octets _) in H2, D2.
  assert (E : origin location ++ pathname location ++ share_marker ++ token1
              = origin location ++ pathname location ++ share_marker ++ token2)
    by congruence.
  do 3 apply app_inv_head in E.
  rewrite E, D2 in D1. clear - D1.
  assert (Hobj : share_object data2 category2 (if includeLogo then logo2 else JNull)
                 = share_object data1 category1 (if includeLogo then logo1 else JNull))
    by congruence.
  unfold share_object in Hobj.
  assert (Hd : data2 = data1) by congruence.
  assert (Hc : category2 = category1) by congruence.
  split; [now symmetry|]. split; [now symmetry|].
  intros ->. congruence.
Qed.

End DistinctLinks.

(** A number that is not finite is written as [null]: a session that
    holds [Infinity] and one that holds [null] get the same link. *)
Example generateUrl_confuses_infinity_and_null :
  generateUrl example_location (JNum (Number.Infinite false)) (JStr (js "Zdrowie")) JNull true
  = generateUrl example_location JNull (JStr (js "Zdrowie")) JNull true /\
  exists url,
    generateUrl example_location JNull (JStr (js "Zdrowie")) JNull true = Ok url.
Proof.
  split; [vm_compute; reflexivity|]. eexists. vm_compute. reflexivity.
Qed.

Lemma generateUrl_injective_witness :
  (exists url,
      generateUrl example_location (BlogPostData_object first_article)
                  (JStr (js "Zdrowie")) JNull false = Ok url) /\
  generateUrl example_location (BlogPostData_object first_article)
              (JStr (js "Zdrowie")) JNull false
  <> generateUrl example_location (BlogPostData_object second_article)
                 (JStr (js "Zdrowie")) JNull false.
Proof.
  assert (T : forall a, wf_stringb (title a) = true -> wf_stringb (introduction a) = true ->
                        wf_stringb (body a) = true -> wf_stringb (conclusion a) = true ->
                        wf_stringb (imagePrompt a) = true ->
                        chart a = None -> sponsoredLink a = None -> article_text a).
  { intros a H1 H2 H3 H4 H5 Hc Hl. unfold article_text. rewrite Hc, Hl.
    repeat split; now apply wf_stringb_ok. }
  assert (U : forall a, article_text a ->
                        utf16 (share_object (BlogPostData_object a) (JStr (js "Zdrowie")) JNull)).
  { intros a Ha. apply share_object_utf16; [now apply article_object_utf16| |constructor].
    constructor. apply wf_stringb_ok. reflexivity. }
  assert (W : forall a,
             chart a = None ->
             well_formed (share_object (BlogPostData_object a) (JStr (js "Zdrowie")) JNull)).
  { intros a Hc. apply share_object_well_formed;
      [apply article_object_well_formed; unfold chart_numbers; now rewrite Hc
      |constructor|constructor]. }
  assert (A1 : article_text first_article) by (apply T; reflexivity).
  assert (A2 : article_text second_article) by (apply T; reflexivity).
  split.
  { rewrite (generateUrl_text example_location _ _ _ false (U _ A1)). eexists. reflexivity. }
  intros H.
  destruct (generateUrl example_location (BlogPostData_object first_article)
                        (JStr (js "Zdrowie")) JNull false) as [e|url] eqn:E1.
  - rewrite (generateUrl_text example_location _ _ _ false (U _ A1)) in E1. discriminate E1.
  - symmetry in H.
    destruct (generateUrl_injective
                example_location false
                (BlogPostData_object first_article) (JStr (js "Zdrowie")) JNull
                (BlogPostData_object second_article) (JStr (js "Zdrowie")) JNull
                url (U _ A1) (W first_article eq_refl) (U _ A2) (W second_article eq_refl)
                E1 H) as (Hd & _).
    discriminate Hd.
Defined.

(** ** components/ArticleView.tsx: code in the body *)

Section CodeBlocks.

Lemma span_word_all (w rest : jsstring) :
  forallb is_word w = true ->
  match rest with [] => True | c :: _ => is_word c = false end ->
  span_word (w ++ rest) = (w, rest).
Proof.
  intros Hw Hr. induction w as [|c w IH]; cbn [app span_word].
  - destruct rest as [|c r]; [reflexivity|]. cbn [span_word]. now rewrite Hr.
  - cbn [forallb] in Hw. apply andb_prop in Hw. destruct Hw as [Hc Hw].
    rewrite Hc, (IH Hw). reflexivity.
Qed.

Lemma span_word_words (s : jsstring) :
  forallb is_word (fst (span_word s)) = true.
Proof.
  induction s as [|c r IH]; cbn [span_word]; [reflexivity|].
  destruct (is_word c) eqn:E; [|reflexivity].
  destruct (span_word r) as [w r']. cbn [fst forallb] in *. now rewrite E.
Qed.

Lemma language_of_words (s language : jsstring) :
  language_of s = Some language -> language <> [] /\ forallb is_word language = true.
Proof.
  induction s as [|c r IH]; [discriminate|]. cbn [language_of].
  destruct (strip_prefix language_marker (c :: r)) as [rest|]; [|exact IH].
  pose proof (span_word_words rest) as Hw.
  destruct (span_word rest) as [[|x w] r']; [exact IH|].
  intros [= <-]. split; [discriminate|exact Hw].
Qed.

Lemma strip_final_newline_app (s : jsstring) : strip_final_newline (s ++ [10]) = s.
Proof.
  induction s as [|c [|d r] IH]; try reflexivity.
  change ((c :: d :: r) ++ [10]) with (c :: (d :: r) ++ [10]).
  change (strip_final_newline (c :: (d :: r) ++ [10]))
    with (c :: strip_final_newline ((d :: r) ++ [10])).
  now rewrite IH.
Qed.

Lemma strip_final_newline_other (s : jsstring) (c : N) :
  c <> 10 -> strip_final_newline (s ++ [c]) = s ++ [c].
Proof.
  intros Hc. induction s as [|x [|d r] IH].
  - cbn. destruct (N.eqb_spec c 10); [contradiction|reflexivity].
  - cbn. destruct (N.eqb_spec c 10); [contradiction|reflexivity].
  - change ((x :: d :: r) ++ [c]) with (x :: (d :: r) ++ [c]).
    change (strip_final_newline (x :: (d :: r) ++ [c]))
      with (x :: strip_final_newline ((d :: r) ++ [c])).
    now rewrite IH.
Qed.

(** X23.  In the body, a block of code whose class is [language-]
    followed by a name of word characters is highlighted in that
    language, with the line feed that ends it removed and no more than
    that one; inline code, and code without a class, is shown plain and
    as it is.  The language handed to the highlighter is never empty and
    holds word characters only. *)
Theorem code_block_language (className : option jsstring) (children : jsstring) :
  (exists cls, code true className children = Plain cls children) /\
  (forall language code',
      code false className children = Highlighted language code' ->
      language <> [] /\ forallb is_word language = true /\
      (code' = children \/ children = code' ++ [10])) /\
  (forall language rest,
      language <> [] -> forallb is_word language = true ->
      match rest with [] => True | c :: _ => is_word c = false end ->
      className = Some (language_marker ++ language ++ rest) ->
      code false className children = Highlighted language (strip_final_newline children)) /\
  (className = None ->
   code false className children = Plain (lit_undefined ++ plain_classes) children).
Proof.
  split; [|split; [|split]].
  - unfold code. eexists. reflexivity.
  - intros language code' H. unfold code in H.
    destruct (language_of _) as [l|] eqn:E; [|discriminate H].
    injection H as <- <-. apply language_of_words in E. destruct E as [Hne Hw].
    split; [exact Hne|]. split; [exact Hw|].
    destruct (rev children) as [|c r] eqn:Er.
    + left. apply (f_equal (@rev N)) in Er. rewrite rev_involutive in Er.
      now rewrite Er.
    + apply (f_equal (@rev N)) in Er. rewrite rev_involutive in Er. cbn [rev] in Er.
      rewrite Er. destruct (N.eq_dec c 10) as [->|Hc].
      * right. now rewrite strip_final_newline_app.
      * left. now apply strip_final_newline_other.
  - intros language rest Hne Hw Hrest ->. unfold code.
    assert (Hcls : exists c s, language_marker ++ language ++ rest = c :: s)
      by (eexists; eexists; reflexivity).
    destruct Hcls as (c & s & Hcls). rewrite Hcls. rewrite <- Hcls.
    assert (Hl : language_of (language_marker ++ language ++ rest) = Some language).
    { rewrite Hcls. cbn [language_of]. rewrite <- Hcls.
      rewrite strip_prefix_app, (span_word_all language rest Hw Hrest).
      destruct language; [contradiction|reflexivity]. }
    now rewrite Hl.
  - intros ->. reflexivity.
Qed.

End CodeBlocks.
